(** * generate_mock_db.py: the entity-graph generator, embedded and verified

    A shallow embedding of [src/generate_mock_db.py].  The generators are
    Python procedures that draw from the global [random] module, read the
    wall clock and share one [IdFactory]; they are rendered here as
    computations in a state-and-exception monad over a [World] that holds
    exactly these three things.

    What is taken from outside the repository:
    - the pseudo-random generator behind [random] is the interface
      [RandomGen]: a seeding function, [random.random()] and
      [Random._randbelow(n)].  [choice], [shuffle], [randint], [uniform] and
      [sample] are defined on top of it the way CPython's [Lib/random.py]
      does;
    - the wall clock is a sequence of readings, one per call of
      [datetime.now];
    - [datetime] values are microseconds since 0001-01-01T00:00:00Z, [date]
      values are proleptic Gregorian ordinals, and the text produced by
      [isoformat()] is kept as the constructor [IsoDateTime] (resp.
      [IsoDate]) applied to the value it renders. *)

From Stdlib Require Import ZArith Floats.PrimFloat Floats.FloatOps Floats.SpecFloat.
From Stdlib Require Import Numbers.Cyclic.Int63.Uint63 Ascii.
From stdpp Require Import gmap strings list pretty.

Set Warnings "-inexact-float".
Local Open Scope Z_scope.

(** ** Python values *)

(** [len(seq)] as a Python integer. *)
Definition len {A} (l : list A) : Z := Z.of_nat (length l).

(** [range(n)]: empty when [n <= 0]. *)
Definition range (n : Z) : list Z := seqZ 0 n.

(** A small, non-negative Python [int] converted to [float]. *)
Definition float_of_Z (z : Z) : float := PrimFloat.of_uint63 (Uint63.of_Z z).

(** [int(x)] on a finite float: truncation towards zero.  ([int] raises on
    [nan] and on infinities; the only floats converted in this program are
    [random.uniform] draws over finite bounds.) *)
Definition py_int (x : float) : Z :=
  match Prim2SF x with
  | S754_finite s m e =>
      let v := if 0 <=? e then Z.pos m * 2 ^ e else Z.pos m / 2 ^ (- e) in
      if s then - v else v
  | _ => 0
  end.

(** [str.lower()] on ASCII text. *)
Definition lower_ascii (c : ascii) : ascii :=
  let n := nat_of_ascii c in
  if ((65 <=? n) && (n <=? 90))%nat then ascii_of_nat (n + 32) else c.

Fixpoint lower (s : string) : string :=
  match s with
  | EmptyString => EmptyString
  | String c s' => String (lower_ascii c) (lower s')
  end.

(** ** [slugify] *)

(** [\w] on ASCII text. *)
Definition is_word (c : ascii) : bool :=
  let n := nat_of_ascii c in
  (((48 <=? n) && (n <=? 57)) || ((65 <=? n) && (n <=? 90))
   || ((97 <=? n) && (n <=? 122)) || (n =? 95))%nat.

(** [[a-z0-9]]. *)
Definition is_lower_alnum (c : ascii) : bool :=
  let n := nat_of_ascii c in
  (((48 <=? n) && (n <=? 57)) || ((97 <=? n) && (n <=? 122)))%nat.

(** The alternatives of the company-suffix pattern, in the order the
    regular expression tries them. *)
Definition SUFFIXES : list string :=
  [" inc"; " llc"; " ltd"; " gmbh"; " s.a."; " s.a"; " corp"; " co";
   " company"; " plc"].

Fixpoint strip_prefix (p s : string) : option string :=
  match p, s with
  | EmptyString, _ => Some s
  | String a p', String b s' => if Ascii.eqb a b then strip_prefix p' s' else None
  | String _ _, EmptyString => None
  end.

Fixpoint last_char (s : string) (d : ascii) : ascii :=
  match s with
  | EmptyString => d
  | String c s' => last_char s' c
  end.

(** [\b] between the last character of a matched alternative and the rest of
    the text: exactly one of the two sides is a word character. *)
Definition boundary (prev : ascii) (rest : string) : bool :=
  let next_word := match rest with String c _ => is_word c | EmptyString => false end in
  xorb (is_word prev) next_word.

(** The length of the match of the suffix pattern at the head of [s], if
    there is one: the first alternative that is a prefix of [s] and is
    followed by a word boundary. *)
Fixpoint match_suffix (alts : list string) (s : string) : option nat :=
  match alts with
  | [] => None
  | a :: alts' =>
      match strip_prefix a s with
      | Some rest =>
          if boundary (last_char a " "%char) rest then Some (String.length a)
          else match_suffix alts' s
      | None => match_suffix alts' s
      end
  end.

(** [re.sub(suffix_pattern, "", s)]: [skip] counts the characters of the
    current match still to be dropped. *)
Fixpoint drop_suffixes (skip : nat) (s : string) : string :=
  match s with
  | EmptyString => EmptyString
  | String c s' =>
      match skip with
      | S k => drop_suffixes k s'
      | O =>
          match match_suffix SUFFIXES s with
          | Some (S k) => drop_suffixes k s'
          | _ => String c (drop_suffixes 0 s')
          end
      end
  end.

(** [re.sub(r"[^a-z0-9]+", " ", s)]: every maximal run of other characters
    becomes one space.  [in_run] tells whether the previous character was
    part of such a run. *)
Fixpoint sub_non_alnum (in_run : bool) (s : string) : string :=
  match s with
  | EmptyString => EmptyString
  | String c s' =>
      if is_lower_alnum c then String c (sub_non_alnum false s')
      else if in_run then sub_non_alnum true s'
      else String " " (sub_non_alnum true s')
  end.

(** [\s] on ASCII text. *)
Definition is_space (c : ascii) : bool :=
  let n := nat_of_ascii c in
  (((9 <=? n) && (n <=? 13)) || ((28 <=? n) && (n <=? 32)))%nat.

(** [re.sub(r"\s+", " ", s)]. *)
Fixpoint collapse_spaces (in_run : bool) (s : string) : string :=
  match s with
  | EmptyString => EmptyString
  | String c s' =>
      if is_space c then
        if in_run then collapse_spaces true s' else String " " (collapse_spaces true s')
      else String c (collapse_spaces false s')
  end.

Fixpoint lstrip (s : string) : string :=
  match s with
  | String c s' => if is_space c then lstrip s' else s
  | EmptyString => EmptyString
  end.

Fixpoint rstrip (s : string) : string :=
  match s with
  | EmptyString => EmptyString
  | String c s' =>
      match rstrip s' with
      | EmptyString => if is_space c then EmptyString else String c EmptyString
      | r => String c r
      end
  end.

(** [s.replace(" ", "")]. *)
Fixpoint remove_spaces (s : string) : string :=
  match s with
  | EmptyString => EmptyString
  | String c s' =>
      if Ascii.eqb c " " then remove_spaces s' else String c (remove_spaces s')
  end.

Definition slugify (name : string) : string :=
  let s := lower name in
  let s := drop_suffixes 0 s in
  let s := sub_non_alnum false s in
  let s := rstrip (lstrip (collapse_spaces false s)) in
  remove_spaces s.

(** ** Dates and times *)

Definition US_PER_DAY : Z := 86400000000.
(** [date.max.toordinal()]. *)
Definition MAXORDINAL : Z := 3652059.
(** The largest magnitude of [timedelta.days]. *)
Definition MAX_DELTA_DAYS : Z := 999999999.

(** The text of [datetime.isoformat()] and of [date.isoformat()]. *)
Inductive isodatetime := IsoDateTime (us : Z).
Inductive isodate := IsoDate (ordinal : Z).

Global Instance isodatetime_eq_dec : EqDecision isodatetime.
Proof. solve_decision. Defined.
Global Instance isodate_eq_dec : EqDecision isodate.
Proof. solve_decision. Defined.

(** [dt.date()] as an ordinal. *)
Definition dt_date (dt : Z) : Z := dt / US_PER_DAY + 1.

(** [iso(dt)]: [dt.replace(microsecond=0).isoformat()]. *)
Definition iso (dt : Z) : isodatetime := IsoDateTime (dt - dt mod 1000000).

(** ** Catalog tables *)

Definition FIRST_NAMES : list string :=
  ["Alex";"Jordan";"Taylor";"Casey";"Riley";"Morgan";"Sam";"Jamie";"Cameron";"Avery";
   "Drew";"Quinn";"Reese";"Rowan";"Skyler";"Parker";"Elliot";"Hayden";"Emerson";"Blake";
   "Logan";"Harper";"Finley";"Sage";"Remy";"Dakota";"Tatum";"Emery";"Kendall";"Robin"].

Definition ORG_NAMES : list string :=
  ["Acme Inc";"Globex";"Initech";"Umbrella";"Hooli";"Stark Industries";"Wayne Enterprises";
   "Wonka Labs";"Aperture Science";"Cyberdyne Systems";"Tyrell Corp";"Vehement Capital";
   "Gekko & Co";"Massive Dynamic";"Soylent Works";"Monarch Solutions";"Octan Energy"].

Definition PROJECT_NAMES : list string :=
  ["Checkout";"Billing";"Growth";"Data Platform";"Observability";"Mobile App";"Web Revamp";
   "Fraud Engine";"ML Platform";"Realtime Chat";"Reporting";"Docs";"API Gateway";"Auth"].

Definition METRIC_CATALOG : list (string * Z * string) :=
  [("http_latency_ms", 30, "active");
   ("error_rate_pct", 60, "active");
   ("requests_per_minute", 14, "active");
   ("cpu_usage_pct", 7, "active");
   ("memory_usage_mb", 30, "active");
   ("db_conn_pool_busy_pct", 30, "active")].

Definition WIDGET_TYPES : list string := ["timeseries";"stat";"table";"bar"].
Definition SCOPES : list string :=
  ["viewer";"dashboard:write";"alert:write";"metric:write";"project:admin"].
Definition PLANS : list string := ["free";"pro";"enterprise"].
Definition ALERT_NAMES : list string :=
  ["High latency";"Error rate spike";"High CPU";"High memory";"RPM drop"].
Definition EVAL_SUITE_NAMES : list string :=
  ["Bot Regression";"Smoke Suite";"Latency Suite";"Alert Rules QA"].

Definition DASHBOARD_NAMES : list string :=
  ["Ops Overview";"Product KPIs";"Oncall";"SRE Board";"Release Readiness"].
Definition WIDGET_TITLES : list string :=
  ["Latency P95";"Error rate";"Traffic";"CPU usage";"Memory usage";"DB pool busy"].
Definition ENVS : list string := ["prod";"staging";"dev"].
Definition REGIONS : list string := ["us-east";"us-west";"eu-west";"ap-south"].
Definition WINDOWS : list string := ["1m";"5m";"15m";"1h"].
Definition RUN_STATUSES : list string := ["queued";"running";"passed";"failed"].
Definition FLAG_KEYS : list string :=
  ["widgets.grid_v2";"dashboards.public_share";"alerts.auto_mute";
   "metrics.rollup_v3";"projects.bulk_edit";"rbac.granular";
   "eval.live_compare";"ui.dark_mode";"api.tokens_v2"].
Definition ACTIONS : list string :=
  ["project.created";"project.archived";
   "dashboard.created";"dashboard.renamed";
   "widget.created";"widget.updated";"widget.deleted";
   "alert.created";"alert.updated";"alert.triggered"].

(** ** Records: one per dictionary shape the generators build *)

Record Org := mkOrg {
  org_id : string; org_name : string; org_plan : string; org_active : bool }.

Record User := mkUser {
  usr_id : string; usr_org_id : string; usr_email : string; usr_name : string;
  usr_role : string; usr_active : bool }.

Record Project := mkProject {
  prj_id : string; prj_org_id : string; prj_name : string;
  prj_visibility : string; prj_active : bool }.

Record Dashboard := mkDashboard {
  db_id : string; db_project_id : string; db_name : string;
  db_owner_user_id : option string; db_active : bool }.

Record Metric := mkMetric {
  m_id : string; m_project_id : string; m_name : string;
  m_retention_days : Z; m_status : string }.

Record MetricSample := mkMetricSample {
  ms_metric_id : string; ms_date : isodate; ms_count : Z }.

Record Filters := mkFilters { f_env : string; f_region : list string }.

Record Widget := mkWidget {
  w_id : string; w_dashboard_id : string; w_type : string;
  w_metric_id : option string; w_title : string; w_filters : Filters;
  w_visible : bool; w_archived : bool }.

Record Alert := mkAlert {
  al_id : string; al_project_id : string; al_name : string;
  al_metric_id : option string; al_threshold : Z; al_window : string;
  al_enabled : bool; al_last_fired_at : option isodatetime }.

Record Incident := mkIncident {
  inc_id : string; inc_alert_id : string; inc_status : string;
  inc_opened_at : isodatetime; inc_resolved_at : option isodatetime }.

Record EvalSuite := mkEvalSuite {
  es_id : string; es_project_id : string; es_name : string; es_status : string }.

Record EvalRun := mkEvalRun {
  er_id : string; er_suite_id : string; er_status : string;
  er_created_at : isodatetime }.

Record Permission := mkPermission {
  perm_user_id : string; perm_project_id : string; perm_scopes : list string }.

Record FeatureFlag := mkFeatureFlag {
  ff_key : string; ff_enabled_for_orgs : list string; ff_enabled : bool }.

Record AuditLog := mkAuditLog {
  aud_id : string; aud_org_id : option string; aud_actor_user_id : option string;
  aud_action : string; aud_target_id : option string; aud_at : isodatetime }.

(** The dictionary returned by [build_mock_data], in its key order. *)
Record MockData := mkMockData {
  orgs : list Org;
  users : list User;
  projects : list Project;
  permissions : list Permission;
  feature_flags : list FeatureFlag;
  dashboards : list Dashboard;
  widgets : list Widget;
  metrics : list Metric;
  metric_samples : list MetricSample;
  alerts : list Alert;
  incidents : list Incident;
  eval_suites : list EvalSuite;
  eval_runs : list EvalRun;
  audit_logs : list AuditLog }.

(** The cardinality parameters of [build_mock_data]. *)
Record Config := mkConfig {
  orgs_count : Z;
  users_per_org : Z;
  projects_per_org : Z;
  dashboards_per_project : Z;
  widgets_per_dashboard : Z;
  metrics_per_project : Z;
  samples_per_metric : Z;
  alerts_per_project : Z;
  incidents_per_alert : Z;
  suites_per_project : Z;
  runs_per_suite : Z;
  permissions_per_user : Z;
  feature_flags_count : Z;
  audit_logs_count : Z }.

(** ** [IdFactory] *)

Module IdFactory.
Record t := mk { counters : gmap string Z }.

(** [IdFactory()]. *)
Definition init : t := mk ∅.

(** [self.counters.get(prefix, 0)]. *)
Definition get (idf : t) (prefix : string) : Z :=
  default 0 (counters idf !! prefix).

(** The text of [f"{prefix}_{n}"]. *)
Definition fmt (prefix : string) (n : Z) : string :=
  prefix +:+ "_" +:+ pretty n.

(** [idf.next(prefix)]: the identifier and the factory after the call. *)
Definition next (prefix : string) (idf : t) : string * t :=
  let n := get idf prefix + 1 in
  (fmt prefix n, mk (<[prefix := n]> (counters idf))).
End IdFactory.

(** ** Exceptions and results *)

Inductive Exn := IndexError | ValueError | OverflowError | ZeroDivisionError.

Inductive Result (A : Type) := Ok (a : A) | Raise (e : Exn).
Arguments Ok {A} a.
Arguments Raise {A} e.

(** ** The random source *)

(** What the program needs of the generator behind the [random] module. *)
Class RandomGen (G : Type) := {
  (** the generator state after [random.seed(a)] *)
  rng_seed : Z → G;
  (** [random.random()] *)
  rng_random : G → float * G;
  (** [Random._randbelow(n)], called with [n > 0] *)
  rng_randbelow : Z → G → Z * G;
  rng_randbelow_range : ∀ n g, 0 < n → 0 ≤ (rng_randbelow n g).1 < n
}.

(** ** The world and the monad of the generators *)

(** The state a run touches: the state of the global generator of the
    [random] module, the [IdFactory] created by [build_mock_data], and the
    wall clock, given as its successive readings together with the number of
    readings already taken. *)
Record World (G : Type) := mkWorld {
  w_rng : G;
  w_idf : IdFactory.t;
  w_clock : nat → Z;
  w_ticks : nat }.
Arguments mkWorld {G}.
Arguments w_rng {G}.
Arguments w_idf {G}.
Arguments w_clock {G}.
Arguments w_ticks {G}.

Definition M (G A : Type) : Type := World G → Result (A * World G).

Definition ret {G A} (a : A) : M G A := fun w => Ok (a, w).

Definition bind {G A B} (m : M G A) (k : A → M G B) : M G B :=
  fun w => match m w with
           | Ok (a, w') => k a w'
           | Raise e => Raise e
           end.

Definition raise {G A} (e : Exn) : M G A := fun _ => Raise e.

Notation "x <- m ;; k" := (bind m (fun x => k))
  (at level 100, m at next level, right associativity,
   format "'[v' x  <-  m  ;;  '/' k ']'").
Notation "'let*' p := m 'in' k" := (bind m (fun x => match x with p => k end))
  (at level 100, p pattern, m at next level, right associativity,
   format "'[v' 'let*'  p  :=  m  'in'  '/' k ']'").

(** [for x in xs: s = body(x, s)], the loop's variables being [s]. *)
Fixpoint for_ {G X S} (xs : list X) (body : X → S → M G S) (s : S) : M G S :=
  match xs with
  | [] => ret s
  | x :: xs' => s' <- body x s ;; for_ xs' body s'
  end.

(** [while cond(cur) and tries < budget: cur = draw(); tries += 1], with
    [budget - tries] as the recursion argument. *)
Fixpoint retry {G A} (budget : nat) (cond : A → bool) (draw : M G A) (cur : A) : M G A :=
  match budget with
  | O => ret cur
  | S b => if cond cur then x <- draw ;; retry b cond draw x else ret cur
  end.

(** [seq[i]], a negative index counting from the end. *)
Definition subscript {G A} (l : list A) (i : Z) : M G A :=
  let j := if i <? 0 then i + len l else i in
  if j <? 0 then raise IndexError
  else match l !! Z.to_nat j with
       | Some x => ret x
       | None => raise IndexError
       end.

(** [a % b] for Python integers. *)
Definition pymod {G} (a b : Z) : M G Z :=
  if b =? 0 then raise ZeroDivisionError else ret (a mod b).

(** [d.setdefault(key(x), []).append(x)] for every [x], from an empty
    dictionary. *)
Definition group_by {A} (key : A → string) (xs : list A) : gmap string (list A) :=
  foldl (fun d x => <[key x := default [] (d !! key x) ++ [x]]> d) ∅ xs.

(** [d.get(k, [])]. *)
Definition get_list {A} (d : gmap string (list A)) (k : string) : list A :=
  default [] (d !! k).

(** [timedelta(days=days, minutes=minutes)], in microseconds. *)
Definition timedelta {G} (days minutes : Z) : M G Z :=
  let us := (days * 86400 + minutes * 60) * 1000000 in
  if Z.abs (us / US_PER_DAY) >? MAX_DELTA_DAYS then raise OverflowError
  else ret us.

(** [dt - delta] on [datetime]. *)
Definition datetime_sub {G} (dt delta : Z) : M G Z :=
  let r := dt - delta in
  if (0 <=? r) && (r <? MAXORDINAL * US_PER_DAY) then ret r
  else raise OverflowError.

(** [dt + delta] on [datetime]. *)
Definition datetime_add {G} (dt delta : Z) : M G Z :=
  let r := dt + delta in
  if (0 <=? r) && (r <? MAXORDINAL * US_PER_DAY) then ret r
  else raise OverflowError.

(** [d - delta] on [date]: only [delta.days] counts. *)
Definition date_sub {G} (d delta : Z) : M G Z :=
  let o := d - delta / US_PER_DAY in
  if (0 <? o) && (o <=? MAXORDINAL) then ret o
  else raise OverflowError.

Section Model.
Context {G : Type} `{!RandomGen G}.

Local Abbreviation M := (M G).

(** *** State primitives *)

(** [now_utc()]: the next reading of the clock. *)
Definition now_utc : M Z :=
  fun w => Ok (w_clock w (w_ticks w),
               mkWorld (w_rng w) (w_idf w) (w_clock w) (S (w_ticks w))).

(** [idf.next(prefix)] on the run's factory. *)
Definition idf_next (prefix : string) : M string :=
  fun w => let '(id, idf) := IdFactory.next prefix (w_idf w) in
           Ok (id, mkWorld (w_rng w) idf (w_clock w) (w_ticks w)).

(** [random.seed(a)]. *)
Definition seed (a : Z) : M unit :=
  fun w => Ok (tt, mkWorld (rng_seed a) (w_idf w) (w_clock w) (w_ticks w)).

(** [idf = IdFactory()]. *)
Definition new_IdFactory : M unit :=
  fun w => Ok (tt, mkWorld (w_rng w) IdFactory.init (w_clock w) (w_ticks w)).

(** [random.random()]. *)
Definition random : M float :=
  fun w => let '(r, g) := rng_random (w_rng w) in
           Ok (r, mkWorld g (w_idf w) (w_clock w) (w_ticks w)).

(** [Random._randbelow(n)]. *)
Definition randbelow (n : Z) : M Z :=
  fun w => let '(r, g) := rng_randbelow n (w_rng w) in
           Ok (r, mkWorld g (w_idf w) (w_clock w) (w_ticks w)).

(** *** The [random] module, after [Lib/random.py] *)

(** [random.choice(seq)]. *)
Definition choice {A} (seq : list A) : M A :=
  match seq with
  | [] => raise IndexError
  | _ => i <- randbelow (len seq) ;; subscript seq i
  end.

(** [random.shuffle(x)], returning the list it leaves in [x]:
    [for i in reversed(range(1, len(x))): j = randbelow(i + 1);
     x[i], x[j] = x[j], x[i]]. *)
Definition shuffle {A} (x : list A) : M (list A) :=
  for_ (reverse (seqZ 1 (len x - 1))) (fun i x =>
    j <- randbelow (i + 1) ;;
    xj <- subscript x j ;;
    xi <- subscript x i ;;
    ret (<[Z.to_nat j := xi]> (<[Z.to_nat i := xj]> x))) x.

(** [random.randint(a, b)], that is [randrange(a, b + 1)]. *)
Definition randint (a b : Z) : M Z :=
  let width := b + 1 - a in
  if 0 <? width then r <- randbelow width ;; ret (a + r)
  else raise ValueError.

(** [random.uniform(a, b)] on integer bounds. *)
Definition uniform (a b : Z) : M float :=
  r <- random ;;
  ret (float_of_Z a + float_of_Z (b - a) * r)%float.

(** [random.sample(population, k)] for a population of at most 21
    elements, where the selection runs over a copy of the population:
    [for i in range(k): j = randbelow(n - i); result[i] = pool[j];
     pool[j] = pool[n - i - 1]]. *)
Definition sample {A} (population : list A) (k : Z) : M (list A) :=
  let n := len population in
  if (0 <=? k) && (k <=? n) then
    let* (result, _) := for_ (range k) (fun i '(result, pool) =>
        j <- randbelow (n - i) ;;
        x <- subscript pool j ;;
        y <- subscript pool (n - i - 1) ;;
        ret (result ++ [x], <[Z.to_nat j := y]> pool)) ([], population) in
    ret result
  else raise ValueError.

(** [pick(seq)]. *)
Definition pick {A} (seq : list A) : M A := choice seq.

(** *** The generators *)

Definition gen_orgs (n : Z) : M (list Org) :=
  names <- shuffle ORG_NAMES ;;
  for_ (range n) (fun i orgs =>
    name <- (if i <? len names
             then (k <- pymod i (len names) ;; subscript names k)
             else ret ("Org " +:+ pretty (i + 1))) ;;
    id <- idf_next "org" ;;
    plan <- pick PLANS ;;
    r <- random ;;
    ret (orgs ++ [mkOrg id name plan (0.03 <? r)%float])) [].

Definition gen_users (orgs : list Org) (users_per_org : Z) : M (list User) :=
  name_pool <- shuffle FIRST_NAMES ;;
  let* (users, _) := for_ orgs (fun org st =>
    let domain := slugify (org_name org) +:+ ".com" in
    for_ (range users_per_org) (fun u '(users, name_idx) =>
      user_id <- idf_next "usr" ;;
      k <- pymod name_idx (len name_pool) ;;
      first <- subscript name_pool k ;;
      let name_idx := name_idx + 1 in
      let email_local := lower first +:+ pretty name_idx in
      role <- (if u =? 0 then ret "admin"
               else r <- random ;; ret (if (0.2 <? r)%float then "member" else "viewer")) ;;
      r <- random ;;
      ret (users ++ [mkUser user_id (org_id org) (email_local +:+ "@" +:+ domain)
                            first role (0.02 <? r)%float],
           name_idx)) st) ([], 0) in
  ret users.

Definition gen_projects (orgs : list Org) (projects_per_org : Z) : M (list Project) :=
  for_ orgs (fun org projects =>
    for_ (range projects_per_org) (fun p projects =>
      id <- idf_next "prj" ;;
      name <- pick PROJECT_NAMES ;;
      r1 <- random ;;
      r2 <- random ;;
      ret (projects ++ [mkProject id (org_id org) name
                          (if (0.25 <? r1)%float then "private" else "public")
                          (0.05 <? r2)%float])) projects) [].

Definition gen_dashboards (projects : list Project) (users : list User)
    (dashboards_per_project : Z) : M (list Dashboard) :=
  let users_by_org := group_by usr_org_id users in
  for_ projects (fun prj dashboards =>
    let org_users := get_list users_by_org (prj_org_id prj) in
    for_ (range dashboards_per_project) (fun _ dashboards =>
      owner <- (match org_users with
                | [] => ret None
                | _ => u <- pick org_users ;; ret (Some u)
                end) ;;
      id <- idf_next "db" ;;
      name <- pick DASHBOARD_NAMES ;;
      r <- random ;;
      ret (dashboards ++ [mkDashboard id (prj_id prj) name (usr_id <$> owner)
                            (0.05 <? r)%float])) dashboards) [].

Definition gen_metrics (projects : list Project) (metrics_per_project : Z)
    : M (list Metric) :=
  for_ projects (fun prj metrics =>
    let* (metrics, _) := for_ (range metrics_per_project) (fun _ '(metrics, used) =>
      c <- pick METRIC_CATALOG ;;
      let* (name, retention, status) :=
        retry 10 (fun c : string * Z * string => bool_decide (c.1.1 ∈ used))
              (pick METRIC_CATALOG) c in
      let used : gset string := used ∪ {[name]} in
      id <- idf_next "m" ;;
      ret (metrics ++ [mkMetric id (prj_id prj) name retention status], used))
      (metrics, ∅) in
    ret metrics) [].

Definition gen_metric_samples (metrics : list Metric) (samples_per_metric : Z)
    : M (list MetricSample) :=
  now <- now_utc ;;
  let base_date := dt_date now in
  for_ metrics (fun m samples =>
    for_ (range samples_per_metric) (fun i samples =>
      delta <- timedelta (samples_per_metric - 1 - i) 0 ;;
      day <- date_sub base_date delta ;;
      c <- uniform 80 200000 ;;
      ret (samples ++ [mkMetricSample (m_id m) (IsoDate day) (py_int c)])) samples) [].

Definition gen_widgets (dashboards : list Dashboard) (metrics : list Metric)
    (widgets_per_dashboard : Z) : M (list Widget) :=
  let metrics_by_project := group_by m_project_id metrics in
  for_ dashboards (fun db widgets =>
    let prj_metrics := get_list metrics_by_project (db_project_id db) in
    for_ (range widgets_per_dashboard) (fun _ widgets =>
      m <- (match prj_metrics with
            | [] => ret None
            | _ => m <- pick prj_metrics ;; ret (Some m)
            end) ;;
      id <- idf_next "w" ;;
      type <- pick WIDGET_TYPES ;;
      title <- pick WIDGET_TITLES ;;
      env <- pick ENVS ;;
      region <- pick REGIONS ;;
      r1 <- random ;;
      r2 <- random ;;
      ret (widgets ++ [mkWidget id (db_id db) type (m_id <$> m) title
                         (mkFilters env [region])
                         (0.05 <? r1)%float (r2 <? 0.05)%float])) widgets) [].

Definition gen_alerts (projects : list Project) (metrics : list Metric)
    (alerts_per_project : Z) : M (list Alert) :=
  let metrics_by_project := group_by m_project_id metrics in
  for_ projects (fun prj alerts =>
    let prj_metrics := get_list metrics_by_project (prj_id prj) in
    for_ (range alerts_per_project) (fun _ alerts =>
      m <- (match prj_metrics with
            | [] => ret None
            | _ => m <- pick prj_metrics ;; ret (Some m)
            end) ;;
      now <- now_utc ;;
      d <- randint 0 7 ;;
      mi <- randint 0 1440 ;;
      delta <- timedelta d mi ;;
      last_fire <- datetime_sub now delta ;;
      id <- idf_next "al" ;;
      name <- pick ALERT_NAMES ;;
      th <- uniform 50 1000 ;;
      window <- pick WINDOWS ;;
      r1 <- random ;;
      r2 <- random ;;
      ret (alerts ++ [mkAlert id (prj_id prj) name (m_id <$> m) (py_int th) window
                        (0.1 <? r1)%float
                        (if (0.4 <? r2)%float then Some (iso last_fire) else None)]))
      alerts) [].

Definition gen_incidents (alerts : list Alert) (incidents_per_alert : Z)
    : M (list Incident) :=
  for_ alerts (fun al incidents =>
    for_ (range incidents_per_alert) (fun _ incidents =>
      now <- now_utc ;;
      d <- randint 0 10 ;;
      mi <- randint 10 10000 ;;
      delta <- timedelta d mi ;;
      opened <- datetime_sub now delta ;;
      r <- random ;;
      let* (resolved, status) :=
        (if (0.5 <? r)%float
         then (mi <- randint 5 180 ;;
               delta <- timedelta 0 mi ;;
               resolved <- datetime_add opened delta ;;
               ret (Some resolved, "resolved"))
         else ret (None, "open")) in
      id <- idf_next "inc" ;;
      ret (incidents ++ [mkIncident id (al_id al) status (iso opened)
                           (iso <$> resolved)])) incidents) [].

Definition gen_eval_suites (projects : list Project) (suites_per_project : Z)
    : M (list EvalSuite) :=
  for_ projects (fun prj suites =>
    for_ (range suites_per_project) (fun _ suites =>
      id <- idf_next "es" ;;
      name <- pick EVAL_SUITE_NAMES ;;
      r <- random ;;
      ret (suites ++ [mkEvalSuite id (prj_id prj) name
                        (if (0.1 <? r)%float then "active" else "disabled")]))
      suites) [].

Definition gen_eval_runs (suites : list EvalSuite) (runs_per_suite : Z)
    : M (list EvalRun) :=
  for_ suites (fun s runs =>
    for_ (range runs_per_suite) (fun _ runs =>
      now <- now_utc ;;
      d <- randint 0 5 ;;
      mi <- randint 0 (60 * 12) ;;
      delta <- timedelta d mi ;;
      created <- datetime_sub now delta ;;
      status <- pick RUN_STATUSES ;;
      id <- idf_next "er" ;;
      ret (runs ++ [mkEvalRun id (es_id s) status (iso created)])) runs) [].

(** The body of the inner loop of [gen_permissions]: one more binding for
    user [u], drawn among [available_projects].  The loop's variables are
    the list [perms] and the set [chosen]. *)
Definition grant_permission (u : User) (available_projects : list Project)
    (st : list Permission * gset string) : M (list Permission * gset string) :=
  let '(perms, chosen) := st in
  prj <- choice available_projects ;;
  prj <- retry 10 (fun p => bool_decide (prj_id p ∈ chosen))
           (choice available_projects) prj ;;
  let chosen : gset string := chosen ∪ {[prj_id prj]} in
  k <- randint 1 (Z.min 3 (len SCOPES)) ;;
  scopes <- sample SCOPES k ;;
  ret (perms ++ [mkPermission (usr_id u) (prj_id prj) scopes], chosen).

Definition gen_permissions (projects : list Project) (users : list User)
    (permissions_per_user : Z) : M (list Permission) :=
  let projects_by_org := group_by prj_org_id projects in
  for_ users (fun u perms =>
    let available_projects := get_list projects_by_org (usr_org_id u) in
    let* (perms, _) :=
      for_ (range (Z.min permissions_per_user (len available_projects)))
        (fun _ st => grant_permission u available_projects st)
        (perms, ∅) in
    ret perms) [].

Definition gen_feature_flags (orgs : list Org) (feature_flags_count : Z)
    : M (list FeatureFlag) :=
  let keys := FLAG_KEYS in
  for_ (range feature_flags_count) (fun i flags =>
    key <- (if i <? len keys
            then (k <- pymod i (len keys) ;; subscript keys k)
            else ret ("custom.flag_" +:+ pretty (i + 1))) ;;
    enabled_for_orgs <- for_ orgs (fun o acc =>
        r <- random ;;
        ret (if (0.6 <? r)%float then acc ++ [org_id o] else acc)) [] ;;
    r <- random ;;
    ret (flags ++ [mkFeatureFlag key enabled_for_orgs (0.4 <? r)%float])) [].

Definition gen_audit_logs (orgs : list Org) (users : list User)
    (projects : list Project) (dashboards : list Dashboard)
    (widgets : list Widget) (alerts : list Alert) (audit_logs_count : Z)
    : M (list AuditLog) :=
  let actions := ACTIONS in
  let ids_pool :=
    ((fun p => ("project", prj_id p)) <$> projects)
    ++ ((fun d => ("dashboard", db_id d)) <$> dashboards)
    ++ ((fun w => ("widget", w_id w)) <$> widgets)
    ++ ((fun a => ("alert", al_id a)) <$> alerts) in
  for_ (range audit_logs_count) (fun _ logs =>
    actor <- (match users with
              | [] => ret None
              | _ => u <- pick users ;; ret (Some u)
              end) ;;
    let* (target_type, target_id) :=
      (match ids_pool with
       | [] => ret (None, None)
       | _ => let* (t, i) := pick ids_pool in ret (Some t, Some i)
       end) in
    act <- pick actions ;;
    now <- now_utc ;;
    mi <- randint 0 10000 ;;
    delta <- timedelta 0 mi ;;
    at_ <- datetime_sub now delta ;;
    id <- idf_next "aud" ;;
    let org := match actor with
               | Some a => Some (usr_org_id a)
               | None => match orgs with
                         | o :: _ => Some (org_id o)
                         | [] => None
                         end
               end in
    ret (logs ++ [mkAuditLog id org (usr_id <$> actor) act target_id (iso at_)]))
    [].

Definition build_mock_data (seed_ : Z) (c : Config) : M MockData :=
  _ <- seed seed_ ;;
  _ <- new_IdFactory ;;
  orgs <- gen_orgs (orgs_count c) ;;
  users <- gen_users orgs (users_per_org c) ;;
  projects <- gen_projects orgs (projects_per_org c) ;;
  dashboards <- gen_dashboards projects users (dashboards_per_project c) ;;
  metrics <- gen_metrics projects (metrics_per_project c) ;;
  metric_samples <- gen_metric_samples metrics (samples_per_metric c) ;;
  widgets <- gen_widgets dashboards metrics (widgets_per_dashboard c) ;;
  alerts <- gen_alerts projects metrics (alerts_per_project c) ;;
  incidents <- gen_incidents alerts (incidents_per_alert c) ;;
  eval_suites <- gen_eval_suites projects (suites_per_project c) ;;
  eval_runs <- gen_eval_runs eval_suites (runs_per_suite c) ;;
  permissions <- gen_permissions projects users (permissions_per_user c) ;;
  feature_flags <- gen_feature_flags orgs (feature_flags_count c) ;;
  audit_logs <- gen_audit_logs orgs users projects dashboards widgets alerts
                  (audit_logs_count c) ;;
  ret (mkMockData orgs users projects permissions feature_flags dashboards
         widgets metrics metric_samples alerts incidents eval_suites eval_runs
         audit_logs).
End Model.

(** ** CPython's generator *)

(** The Mersenne Twister of [Modules/_randommodule.c], behind the [random]
    module of CPython: the 624 words of its state with the position of the
    next word to use, seeding from an integer as [random.seed] does,
    [random()] from two words, and [_randbelow] by rejection over
    [getrandbits]. *)
Module MT19937.
Record state := mk { mt : list Z; mti : nat }.

Definition N : nat := 624.
Definition M : nat := 397.
Definition MATRIX_A : Z := 0x9908b0df.
Definition UPPER_MASK : Z := 0x80000000.
Definition LOWER_MASK : Z := 0x7fffffff.

Definition u32 (x : Z) : Z := x mod 4294967296.

(** [mt[i]]. *)
Definition word (mt : list Z) (i : nat) : Z := default 0 (mt !! i).

(** [init_genrand(s)]: the words after the first, each from the previous. *)
Fixpoint init_words (n : nat) (i : Z) (prev : Z) : list Z :=
  match n with
  | O => []
  | S n' =>
      let x := u32 (1812433253 * Z.lxor prev (Z.shiftr prev 30) + i) in
      x :: init_words n' (i + 1) x
  end.

Definition init_genrand (s : Z) : list Z :=
  u32 s :: init_words (N - 1) 1 (u32 s).

(** The first loop of [init_by_array]: [k] rounds over the words and the
    key. *)
Fixpoint mix_key (k : nat) (key : list Z) (mt : list Z) (i j : nat) : list Z * nat :=
  match k with
  | O => (mt, i)
  | S k' =>
      let prev := word mt (i - 1) in
      let x := u32 (Z.lxor (word mt i) (Z.lxor prev (Z.shiftr prev 30) * 1664525)
                    + word key j + Z.of_nat j) in
      let mt := <[i := x]> mt in
      let i := S i in
      let j := S j in
      let '(mt, i) := if (N <=? i)%nat then (<[0%nat := word mt (N - 1)]> mt, 1%nat)
                      else (mt, i) in
      let j := if (length key <=? j)%nat then 0%nat else j in
      mix_key k' key mt i j
  end.

(** The second loop of [init_by_array]: [N - 1] rounds over the words. *)
Fixpoint mix_index (k : nat) (mt : list Z) (i : nat) : list Z :=
  match k with
  | O => mt
  | S k' =>
      let prev := word mt (i - 1) in
      let x := u32 (Z.lxor (word mt i) (Z.lxor prev (Z.shiftr prev 30) * 1566083941)
                    - Z.of_nat i) in
      let mt := <[i := x]> mt in
      let i := S i in
      let '(mt, i) := if (N <=? i)%nat then (<[0%nat := word mt (N - 1)]> mt, 1%nat)
                      else (mt, i) in
      mix_index k' mt i
  end.

Definition init_by_array (key : list Z) : state :=
  let mt := init_genrand 19650218 in
  let '(mt, i) := mix_key (Nat.max N (length key)) key mt 1 0 in
  let mt := mix_index (N - 1) mt i in
  mk (<[0%nat := 0x80000000]> mt) N.

(** The 32-bit words of a non-negative integer, least significant first; at
    least one. *)
Fixpoint key_words (fuel : nat) (a : Z) : list Z :=
  match fuel with
  | O => []
  | S f => u32 a :: (if a / 4294967296 =? 0 then [] else key_words f (a / 4294967296))
  end.

(** [random.seed(a)] for an integer [a]: the key is [abs(a)]. *)
Definition seed (a : Z) : state :=
  let a := Z.abs a in
  init_by_array (key_words (S (Z.to_nat (Z.log2 a / 32))) a).

(** One round of the regeneration of the words, at position [kk].  The
    words before [kk] are already the new ones. *)
Definition twist_at (mt : list Z) (kk : nat) : list Z :=
  let y := Z.lor (Z.land (word mt kk) UPPER_MASK)
                 (Z.land (word mt ((kk + 1) mod N)) LOWER_MASK) in
  let mag := if Z.odd y then MATRIX_A else 0 in
  <[kk := Z.lxor (Z.lxor (word mt ((kk + M) mod N)) (Z.shiftr y 1)) mag]> mt.

Definition twist (mt : list Z) : list Z := foldl twist_at mt (seq 0 N).

Definition temper (y : Z) : Z :=
  let y := Z.lxor y (Z.shiftr y 11) in
  let y := Z.lxor y (Z.land (Z.shiftl y 7) 0x9d2c5680) in
  let y := Z.lxor y (Z.land (Z.shiftl y 15) 0xefc60000) in
  Z.lxor y (Z.shiftr y 18).

(** [genrand_uint32]. *)
Definition genrand (s : state) : Z * state :=
  let '(mt, i) := if (N <=? mti s)%nat then (twist (mt s), 0%nat) else (mt s, mti s) in
  (temper (word mt i), mk mt (S i)).

(** [random()]: 53 bits from two words. *)
Definition random (s : state) : float * state :=
  let '(a, s) := genrand s in
  let '(b, s) := genrand s in
  ((float_of_Z (Z.shiftr a 5 * 67108864 + Z.shiftr b 6) / 9007199254740992)%float, s).

(** [getrandbits(k)] for [0 < k <= 32]. *)
Definition getrandbits (k : Z) (s : state) : Z * state :=
  let '(y, s) := genrand s in (Z.shiftr y (32 - k), s).

(** [r = getrandbits(k); while r >= n: r = getrandbits(k)], given up after
    [fuel] rounds. *)
Fixpoint randbelow_loop (fuel : nat) (n k : Z) (s : state) : Z * state :=
  match fuel with
  | O => (0, s)
  | S f =>
      let '(r, s) := getrandbits k s in
      if r <? n then (r, s) else randbelow_loop f n k s
  end.

(** [_randbelow(n)] for [0 < n < 2 ** 32]. *)
Definition randbelow (n : Z) (s : state) : Z * state :=
  let '(r, s') := randbelow_loop 1000 n (Z.log2 n + 1) s in
  if (0 <=? r) && (r <? n) then (r, s') else (0, s').
End MT19937.

Lemma mt_randbelow_range n g : 0 < n → 0 ≤ (MT19937.randbelow n g).1 < n.
Proof.
  intros Hn. unfold MT19937.randbelow.
  destruct (MT19937.randbelow_loop 1000 n (Z.log2 n + 1) g) as [r s].
  destruct ((0 <=? r) && (r <? n)) eqn:Hr; simpl; lia.
Qed.

Global Instance mt19937 : RandomGen MT19937.state := {|
  rng_seed := MT19937.seed;
  rng_random := MT19937.random;
  rng_randbelow := MT19937.randbelow;
  rng_randbelow_range := mt_randbelow_range |}.


(** A clock that stands still at 2026-01-02T12:00:00.250000Z (the date of
    ordinal 739618). *)
Definition noon_2026 : Z := (739617 * 86400 + 43200) * 1000000 + 250000.

(** A world to run in: the generator not yet seeded, no identifier issued,
    the clock at [noon_2026]. *)
Definition world0 : World MT19937.state :=
  mkWorld (MT19937.mk [] 0) IdFactory.init (fun _ => noon_2026) 0.

(** The defaults of the command line. *)
Definition default_config : Config :=
  mkConfig 2 3 2 1 2 2 5 1 1 1 2 2 3 10.

(** ** Reasoning about runs *)

(** [wp E m Q w]: run from [w], [m] either returns a value and a world that
    satisfy [Q], the wall clock being the same sequence of readings as
    before, or raises an exception allowed by [E].  With [E] everywhere true
    this is partial correctness; with [E] everywhere false, [m] returns. *)
Definition wp {G A} (E : Exn → Prop) (m : M G A) (Q : A → World G → Prop)
    (w : World G) : Prop :=
  match m w with
  | Ok (a, w') => w_clock w' = w_clock w ∧ Q a w'
  | Raise e => E e
  end.

(** Every exception is allowed. *)
Definition any_exn : Exn → Prop := fun _ => True.
(** No exception is allowed. *)
Definition no_exn : Exn → Prop := fun _ => False.

(** The world after an operation that only draws from the generator. *)
Definition set_rng {G} (g : G) (w : World G) : World G :=
  mkWorld g (w_idf w) (w_clock w) (w_ticks w).

(** The world after [idf.next]. *)
Definition set_idf {G} (idf : IdFactory.t) (w : World G) : World G :=
  mkWorld (w_rng w) idf (w_clock w) (w_ticks w).

(** The identifiers returned by successive calls of [next], one per prefix
    of [prefixes], with the factory left behind. *)
Fixpoint issue (prefixes : list string) (idf : IdFactory.t)
    : list string * IdFactory.t :=
  match prefixes with
  | [] => ([], idf)
  | p :: ps =>
      let '(id, idf1) := IdFactory.next p idf in
      let '(ids, idf2) := issue ps idf1 in
      (id :: ids, idf2)
  end.

(** How many of [prefixes] are [p]. *)
Definition occurrences (p : string) (prefixes : list string) : Z :=
  len (filter (fun q => q = p) prefixes).

(** [ids] are distinct identifiers that the factory [idf] has issued for
    [prefix]. *)
Definition issued (prefix : string) (idf : IdFactory.t) (ids : list string) : Prop :=
  NoDup ids ∧
  ∀ s, s ∈ ids → ∃ k, k ≤ IdFactory.get idf prefix ∧ s = IdFactory.fmt prefix k.

(** [ids] are distinct and all of the form [prefix_k]. *)
Definition ids_with_prefix (prefix : string) (ids : list string) : Prop :=
  NoDup ids ∧ ∀ s, s ∈ ids → ∃ k, s = IdFactory.fmt prefix k.

Fixpoint has_char (c : ascii) (s : string) : bool :=
  match s with
  | EmptyString => false
  | String a s' => Ascii.eqb a c || has_char c s'
  end.

(** Every identifier carried by a record of the data set. *)
Definition all_ids (d : MockData) : list string :=
  (org_id <$> orgs d) ++ (usr_id <$> users d) ++ (prj_id <$> projects d)
  ++ (db_id <$> dashboards d) ++ (w_id <$> widgets d) ++ (m_id <$> metrics d)
  ++ (al_id <$> alerts d) ++ (inc_id <$> incidents d)
  ++ (es_id <$> eval_suites d) ++ (er_id <$> eval_runs d)
  ++ (aud_id <$> audit_logs d).

(** The condition under which no date computation of the generators leaves
    the range of [datetime]: every reading of the clock is at least 17 days
    after [datetime.min] and at least a day before [datetime.max]. *)
Definition clock_ok (clock : nat → Z) : Prop :=
  ∀ i, 17 * US_PER_DAY ≤ clock i < (MAXORDINAL - 1) * US_PER_DAY.

(** Either [OverflowError] is allowed, or the clock rules it out. *)
Definition overflow_safe (E : Exn → Prop) (clock : nat → Z) : Prop :=
  E OverflowError ∨ clock_ok clock.



(** ** What the generators establish *)

Ltac Zify.zify_post_hook ::= Z.div_mod_to_equations.

(** [out] is made of one block of records per parent, in the order of the
    parents, each block satisfying [row] for its parent. *)
Definition blocks_of {P C} (row : P → list C → Prop) (parents : list P)
    (out : list C) : Prop :=
  ∃ blocks, out = concat blocks ∧ Forall2 row parents blocks.

(** The first [n] users generated for [org]: they carry its id, and the
    administrator is the first of them and only the first. *)
Definition user_rows (org : Org) (n : nat) (blk : list User) : Prop :=
  length blk = n
  ∧ (∀ u, u ∈ blk → usr_org_id u = org_id org)
  ∧ (∀ j u, blk !! j = Some u → usr_role u = "admin" ↔ j = 0%nat).

(** The projects of the organisation of [u]. *)
Definition org_projects (projects : list Project) (u : User) : list Project :=
  filter (fun p => prj_org_id p = usr_org_id u) projects.

(** The permissions generated for [u]: [n] records that bind [u] to projects
    of its organisation. *)
Definition perm_rows (projects : list Project) (u : User) (n : nat)
    (blk : list Permission) : Prop :=
  length blk = n
  ∧ ∀ p, p ∈ blk →
      perm_user_id p = usr_id u
      ∧ ∃ prj, prj ∈ projects ∧ perm_project_id p = prj_id prj
               ∧ prj_org_id prj = usr_org_id u.

(** The first [n] samples of metric [m] when [total] are asked for and the
    run's date is [today]: the [j]-th is dated [total - 1 - j] days back. *)
Definition sample_rows (today total : Z) (m : Metric) (n : nat)
    (blk : list MetricSample) : Prop :=
  length blk = n
  ∧ ∀ j s, blk !! j = Some s →
      ms_metric_id s = m_id m
      ∧ ms_date s = IsoDate (today - (total - 1 - Z.of_nat j)).

Definition dashboard_ok (projects : list Project) (users : list User)
    (d : Dashboard) : Prop :=
  ∃ prj, prj ∈ projects ∧ db_project_id d = prj_id prj
    ∧ ∀ uid, db_owner_user_id d = Some uid →
        ∃ u, u ∈ users ∧ usr_id u = uid ∧ usr_org_id u = prj_org_id prj.

Definition widget_ok (dashboards : list Dashboard) (metrics : list Metric)
    (x : Widget) : Prop :=
  ∃ db, db ∈ dashboards ∧ w_dashboard_id x = db_id db
    ∧ ∀ mid, w_metric_id x = Some mid →
        ∃ m, m ∈ metrics ∧ m_id m = mid ∧ m_project_id m = db_project_id db.

Definition alert_ok (projects : list Project) (metrics : list Metric)
    (a : Alert) : Prop :=
  al_project_id a ∈ prj_id <$> projects
  ∧ ∀ mid, al_metric_id a = Some mid →
      ∃ m, m ∈ metrics ∧ m_id m = mid ∧ m_project_id m = al_project_id a.

(** Status and resolution time of an incident agree, and the resolution
    comes after the opening. *)
Definition incident_ok (i : Incident) : Prop :=
  (inc_status i = "resolved" ↔ is_Some (inc_resolved_at i))
  ∧ (inc_status i = "open" ↔ inc_resolved_at i = None)
  ∧ ∀ t0 t1, inc_opened_at i = IsoDateTime t0 →
      inc_resolved_at i = Some (IsoDateTime t1) →
      t0 < t1 ∧ t0 mod 1000000 = 0 ∧ t1 mod 1000000 = 0.

Definition audit_log_ok (orgs : list Org) (users : list User)
    (targets : list string) (l : AuditLog) : Prop :=
  (∀ uid, aud_actor_user_id l = Some uid →
     ∃ u, u ∈ users ∧ usr_id u = uid ∧ aud_org_id l = Some (usr_org_id u))
  ∧ (aud_actor_user_id l = None →
     users = [] ∧ aud_org_id l = org_id <$> head orgs)
  ∧ (∀ t, aud_target_id l = Some t → t ∈ targets).

(** The identifiers an audit log may target. *)
Definition target_ids (projects : list Project) (dashboards : list Dashboard)
    (widgets : list Widget) (alerts : list Alert) : list string :=
  (prj_id <$> projects) ++ (db_id <$> dashboards) ++ (w_id <$> widgets)
  ++ (al_id <$> alerts).

(** ** The data set as a whole *)

(** Under [E], a run over configuration [c] with this clock cannot leave the
    range of dates: [OverflowError] is allowed, or the clock is sane and no
    metric is asked for more samples than there are days before today. *)
Definition build_safe (E : Exn → Prop) (c : Config) (clock : nat → Z) : Prop :=
  E OverflowError
  ∨ (clock_ok clock ∧ ∀ i, samples_per_metric c ≤ dt_date (clock i)).

(** What [build_mock_data] establishes, collection by collection. *)
Record dataset_ok (c : Config) (clock : nat → Z) (d : MockData) : Prop := {
  ok_org_ids : ids_with_prefix "org" (org_id <$> orgs d);
  ok_usr_ids : ids_with_prefix "usr" (usr_id <$> users d);
  ok_prj_ids : ids_with_prefix "prj" (prj_id <$> projects d);
  ok_db_ids : ids_with_prefix "db" (db_id <$> dashboards d);
  ok_m_ids : ids_with_prefix "m" (m_id <$> metrics d);
  ok_w_ids : ids_with_prefix "w" (w_id <$> widgets d);
  ok_al_ids : ids_with_prefix "al" (al_id <$> alerts d);
  ok_inc_ids : ids_with_prefix "inc" (inc_id <$> incidents d);
  ok_es_ids : ids_with_prefix "es" (es_id <$> eval_suites d);
  ok_er_ids : ids_with_prefix "er" (er_id <$> eval_runs d);
  ok_aud_ids : ids_with_prefix "aud" (aud_id <$> audit_logs d);
  ok_orgs : length (orgs d) = Z.to_nat (orgs_count c);
  ok_users :
    blocks_of (fun org => user_rows org (Z.to_nat (users_per_org c)))
      (orgs d) (users d);
  ok_projects : Forall (fun p => prj_org_id p ∈ org_id <$> orgs d) (projects d);
  ok_dashboards : Forall (dashboard_ok (projects d) (users d)) (dashboards d);
  ok_metrics : Forall (fun m => m_project_id m ∈ prj_id <$> projects d) (metrics d);
  ok_samples :
    ∃ i, blocks_of (fun m => sample_rows (dt_date (clock i)) (samples_per_metric c)
                               m (Z.to_nat (samples_per_metric c)))
           (metrics d) (metric_samples d);
  ok_widgets : Forall (widget_ok (dashboards d) (metrics d)) (widgets d);
  ok_alerts : Forall (alert_ok (projects d) (metrics d)) (alerts d);
  ok_incidents :
    Forall (fun i => inc_alert_id i ∈ al_id <$> alerts d ∧ incident_ok i)
      (incidents d);
  ok_suites :
    Forall (fun s => es_project_id s ∈ prj_id <$> projects d) (eval_suites d);
  ok_runs : Forall (fun r => er_suite_id r ∈ es_id <$> eval_suites d) (eval_runs d);
  ok_permissions :
    blocks_of (fun u => perm_rows (projects d) u
                 (Z.to_nat (Z.min (permissions_per_user c)
                              (len (org_projects (projects d) u)))))
      (users d) (permissions d);
  ok_flags :
    Forall (fun f => Forall (fun o => o ∈ org_id <$> orgs d)
                       (ff_enabled_for_orgs f)) (feature_flags d);
  ok_audit :
    Forall (audit_log_ok (orgs d) (users d)
              (target_ids (projects d) (dashboards d) (widgets d) (alerts d)))
      (audit_logs d) }.

(** ** The claims, stated *)

(** A reference that is absent or is one of [ids]. *)
Definition ref_ok (r : option string) (ids : list string) : Prop :=
  ∀ x, r = Some x → x ∈ ids.

(** Every foreign key of the data set is absent or names a record of the
    collection it points to. *)
Record referential_integrity (d : MockData) : Prop := {
  ri_users : Forall (fun u => usr_org_id u ∈ org_id <$> orgs d) (users d);
  ri_projects : Forall (fun p => prj_org_id p ∈ org_id <$> orgs d) (projects d);
  ri_dashboards :
    Forall (fun x => db_project_id x ∈ prj_id <$> projects d
                     ∧ ref_ok (db_owner_user_id x) (usr_id <$> users d))
      (dashboards d);
  ri_metrics : Forall (fun m => m_project_id m ∈ prj_id <$> projects d) (metrics d);
  ri_samples :
    Forall (fun s => ms_metric_id s ∈ m_id <$> metrics d) (metric_samples d);
  ri_widgets :
    Forall (fun x => w_dashboard_id x ∈ db_id <$> dashboards d
                     ∧ ref_ok (w_metric_id x) (m_id <$> metrics d))
      (widgets d);
  ri_alerts :
    Forall (fun a => al_project_id a ∈ prj_id <$> projects d
                     ∧ ref_ok (al_metric_id a) (m_id <$> metrics d))
      (alerts d);
  ri_incidents :
    Forall (fun i => inc_alert_id i ∈ al_id <$> alerts d) (incidents d);
  ri_suites :
    Forall (fun s => es_project_id s ∈ prj_id <$> projects d) (eval_suites d);
  ri_runs : Forall (fun r => er_suite_id r ∈ es_id <$> eval_suites d) (eval_runs d);
  ri_permissions :
    Forall (fun p => perm_user_id p ∈ usr_id <$> users d
                     ∧ perm_project_id p ∈ prj_id <$> projects d)
      (permissions d);
  ri_flags :
    Forall (fun f => Forall (fun o => o ∈ org_id <$> orgs d)
                       (ff_enabled_for_orgs f)) (feature_flags d);
  ri_audit :
    Forall (fun l => ref_ok (aud_org_id l) (org_id <$> orgs d)
                     ∧ ref_ok (aud_actor_user_id l) (usr_id <$> users d)
                     ∧ ref_ok (aud_target_id l)
                         (target_ids (projects d) (dashboards d) (widgets d)
                            (alerts d)))
      (audit_logs d) }.

(** [x] is the one element of [l] whose key is [k]. *)
Definition the_one {A} (key : A → string) (l : list A) (k : string) (x : A) : Prop :=
  x ∈ l ∧ key x = k ∧ ∀ y, y ∈ l → key y = k → y = x.

(** A widget's metric belongs to the project of the widget's dashboard, a
    dashboard's owner to the organisation of the dashboard's project, and an
    alert's metric to the alert's project. *)
Record scoped_consistency (d : MockData) : Prop := {
  sc_widgets :
    ∀ x mid, x ∈ widgets d → w_metric_id x = Some mid →
      ∃ m db, the_one m_id (metrics d) mid m
              ∧ the_one db_id (dashboards d) (w_dashboard_id x) db
              ∧ m_project_id m = db_project_id db;
  sc_dashboards :
    ∀ x uid, x ∈ dashboards d → db_owner_user_id x = Some uid →
      ∃ u prj, the_one usr_id (users d) uid u
               ∧ the_one prj_id (projects d) (db_project_id x) prj
               ∧ usr_org_id u = prj_org_id prj;
  sc_alerts :
    ∀ a mid, a ∈ alerts d → al_metric_id a = Some mid →
      ∃ m, the_one m_id (metrics d) mid m
           ∧ m_project_id m = al_project_id a }.

(** The dates end today and grow by one day from each to the next. *)
Definition daily_until (today : Z) (dates : list isodate) : Prop :=
  last dates = Some (IsoDate today)
  ∧ ∀ j a b, dates !! j = Some (IsoDate a) → dates !! S j = Some (IsoDate b) →
      b = a + 1.

(** The samples of one metric: [total] of them, dated day by day up to
    [today]. *)
Definition metric_series (today total : Z) (m : Metric) (blk : list MetricSample)
    : Prop :=
  len blk = total
  ∧ Forall (fun s => ms_metric_id s = m_id m) blk
  ∧ daily_until today (ms_date <$> blk).

(** The users of organisation [o], in generation order. *)
Definition org_users (us : list User) (o : Org) : list User :=
  filter (fun u => usr_org_id u = org_id o) us.

(** The permissions of user [u], in generation order. *)
Definition user_permissions (ps : list Permission) (u : User) : list Permission :=
  filter (fun p => perm_user_id p = usr_id u) ps.

Definition is_admin (u : User) : Prop := usr_role u = "admin".

(** The configuration with every negative count replaced by 0. *)
Definition clamp (c : Config) : Config :=
  mkConfig (Z.max 0 (orgs_count c)) (Z.max 0 (users_per_org c))
    (Z.max 0 (projects_per_org c)) (Z.max 0 (dashboards_per_project c))
    (Z.max 0 (widgets_per_dashboard c)) (Z.max 0 (metrics_per_project c))
    (Z.max 0 (samples_per_metric c)) (Z.max 0 (alerts_per_project c))
    (Z.max 0 (incidents_per_alert c)) (Z.max 0 (suites_per_project c))
    (Z.max 0 (runs_per_suite c)) (Z.max 0 (permissions_per_user c))
    (Z.max 0 (feature_flags_count c)) (Z.max 0 (audit_logs_count c)).

(** Some count of the configuration is negative. *)
Definition has_negative_count (c : Config) : Prop := clamp c ≠ c.

(** A configuration with every count negative. *)
Definition negative_config : Config :=
  mkConfig (-1) (-1) (-1) (-1) (-1) (-1) (-1) (-1) (-1) (-1) (-1) (-1) (-1) (-1).

(** The data set with every collection empty. *)
Definition empty_data : MockData :=
  mkMockData [] [] [] [] [] [] [] [] [] [] [] [] [] [].

(** ** Two runs side by side *)

(** Two worlds agree on everything but the clock. *)
Definition same_draws {G} (w1 w2 : World G) : Prop :=
  w_rng w1 = w_rng w2 ∧ w_idf w1 = w_idf w2.

(** [rwp m1 m2 R w1 w2]: if [m1] returns from [w1] and [m2] from [w2], the
    values returned are related by [R] and the worlds left still agree on
    everything but the clock. *)
Definition rwp {G A B} (m1 : M G A) (m2 : M G B) (R : A → B → Prop)
    (w1 w2 : World G) : Prop :=
  match m1 w1, m2 w2 with
  | Ok (a, w1'), Ok (b, w2') => same_draws w1' w2' ∧ R a b
  | _, _ => True
  end.

(** [m] never looks at the clock: run from worlds that agree on everything
    else, it returns the same value. *)
Definition clock_free {G A} (m : M G A) : Prop :=
  ∀ w1 w2, same_draws w1 w2 → rwp m m eq w1 w2.

(** The placeholders that hide what a record takes from the clock. *)
Definition NO_TIME : isodatetime := IsoDateTime 0.
Definition NO_DATE : isodate := IsoDate 0.

Definition mask_sample (s : MetricSample) : MetricSample :=
  mkMetricSample (ms_metric_id s) NO_DATE (ms_count s).

Definition mask_alert (a : Alert) : Alert :=
  mkAlert (al_id a) (al_project_id a) (al_name a) (al_metric_id a)
    (al_threshold a) (al_window a) (al_enabled a)
    ((fun _ => NO_TIME) <$> al_last_fired_at a).

Definition mask_incident (i : Incident) : Incident :=
  mkIncident (inc_id i) (inc_alert_id i) (inc_status i) NO_TIME
    ((fun _ => NO_TIME) <$> inc_resolved_at i).

Definition mask_run (r : EvalRun) : EvalRun :=
  mkEvalRun (er_id r) (er_suite_id r) (er_status r) NO_TIME.

Definition mask_log (l : AuditLog) : AuditLog :=
  mkAuditLog (aud_id l) (aud_org_id l) (aud_actor_user_id l) (aud_action l)
    (aud_target_id l) NO_TIME.

(** The data set with the value of every date and time hidden; whether an
    optional time is present stays visible. *)
Definition mask_data (d : MockData) : MockData :=
  mkMockData (orgs d) (users d) (projects d) (permissions d) (feature_flags d)
    (dashboards d) (widgets d) (metrics d) (mask_sample <$> metric_samples d)
    (mask_alert <$> alerts d) (mask_incident <$> incidents d) (eval_suites d)
    (mask_run <$> eval_runs d) (mask_log <$> audit_logs d).

(** The world in which [build_mock_data] runs its generators: the generator
    seeded with [a] and a new factory. *)
Definition fresh_world {G} `{!RandomGen G} (a : Z) (w : World G) : World G :=
  mkWorld (rng_seed a) IdFactory.init (w_clock w) (w_ticks w).

(** ** The retry budget of [gen_permissions] *)

(** The values returned by [n] successive calls of [random.choice(seq)], the
    generator being in state [g] before the first. *)
Fixpoint choices {G} `{!RandomGen G} {A} (n : nat) (seq : list A) (g : G) : list A :=
  match n with
  | O => []
  | S n' =>
      let '(i, g') := rng_randbelow (len seq) g in
      match seq !! Z.to_nat i with
      | Some x => x :: choices n' seq g'
      | None => []
      end
  end.

(** The inner loop of [gen_permissions] for user [u], run [n] times. *)
Definition grant_loop {G} `{!RandomGen G} (u : User) (available : list Project)
    (n : Z) (perms : list Permission) : M G (list Permission * gset string) :=
  for_ (range n) (fun _ st => grant_permission u available st) (perms, ∅).

(** The identifiers of the projects bound by [blk]. *)
Definition bound_projects (blk : list Permission) : list string :=
  perm_project_id <$> blk.

(** The [(user_id, project_id)] pairs of [blk]. *)
Definition bindings (blk : list Permission) : list (string * string) :=
  (fun p => (perm_user_id p, perm_project_id p)) <$> blk.

(** In state [g], the draw of a project and its 10 re-draws all return a
    project whose identifier is in [taken]. *)
Definition budget_exhausted {G} `{!RandomGen G} (available : list Project)
    (taken : list string) (g : G) : Prop :=
  length (choices 11 available g) = 11%nat
  ∧ Forall (fun q => prj_id q ∈ taken) (choices 11 available g).

(** ** Worlds and inputs of the examples *)

(** [world0] a day later. *)
Definition world_next_day : World MT19937.state :=
  mkWorld (MT19937.mk [] 0) IdFactory.init (fun _ => noon_2026 + US_PER_DAY) 0.

(** The user and the two projects of a run that binds one user twice. *)
Definition some_user : User :=
  mkUser "usr_1" "org_1" "sam1@acme.com" "Sam" "admin" true.
Definition two_projects : list Project :=
  [mkProject "prj_1" "org_1" "Checkout" "private" true;
   mkProject "prj_2" "org_1" "Billing" "private" true].

(** An alert and a metric to generate incidents and samples for. *)
Definition one_alert : Alert :=
  mkAlert "al_1" "prj_1" "High CPU" None 100 "5m" true None.
Definition one_metric : Metric :=
  mkMetric "m_1" "prj_1" "cpu_usage_pct" 7 "active".
(** ** Texts *)

(** Every character of [s] satisfies [P]. *)
Fixpoint string_forall (P : ascii → bool) (s : string) : bool :=
  match s with
  | EmptyString => true
  | String c s' => P c && string_forall P s'
  end.

(** A lowercase letter, a digit or a space. *)
Definition is_slug_or_space (c : ascii) : bool :=
  is_lower_alnum c || Ascii.eqb c " ".

(** A character of ASCII.  On texts of such characters [lower], [is_word]
    and [is_space], and with them [slugify], are [str.lower()], [\w] and
    [\s] of the source; on other characters Python follows Unicode. *)
Definition is_ascii (c : ascii) : bool := (nat_of_ascii c <? 128)%nat.

(** ** Identifiers in sequence *)

(** [prefix_(from+1)], ..., [prefix_(from+n)]. *)
Definition ids_from (prefix : string) (from n : Z) : list string :=
  IdFactory.fmt prefix <$> seqZ (from + 1) n.

(** Between the factories [idf0] and [idf], the identifiers [ids] were
    issued for [prefix], in this order, and no other. *)
Definition numbered_from (prefix : string) (idf0 idf : IdFactory.t)
    (ids : list string) : Prop :=
  ids = ids_from prefix (IdFactory.get idf0 prefix) (len ids)
  ∧ IdFactory.get idf prefix = IdFactory.get idf0 prefix + len ids
  ∧ ∀ q, q ≠ prefix → IdFactory.get idf q = IdFactory.get idf0 q.

(** ** Names from a catalog *)

(** [x] is the [i]-th name of a series that uses up [catalog] and then goes
    on with [prefix] followed by [i + 1]. *)
Definition series_name (catalog : list string) (prefix : string) (i : nat)
    (x : string) : Prop :=
  if decide (i < length catalog)%nat then catalog !! i = Some x
  else x = prefix +:+ pretty (Z.of_nat i + 1).

(** ** Users *)

(** [[0-9]]. *)
Definition is_digit (c : ascii) : bool :=
  let n := nat_of_ascii c in ((48 <=? n) && (n <=? 57))%nat.

(** [[a-z]]. *)
Definition is_lower_letter (c : ascii) : bool :=
  let n := nat_of_ascii c in ((97 <=? n) && (n <=? 122))%nat.

(** The [j]-th user generated, [pool] being the shuffled first names: the
    first name is the [j mod 30]-th of the pool, and the e-mail address is
    made of the first name in lower case, the number [j + 1] and the slug of
    the name of the user's organisation, which is one of [orgs]. *)
Definition user_named (pool : list string) (orgs : list Org) (j : nat) (u : User)
    : Prop :=
  pool !! (j mod length pool)%nat = Some (usr_name u)
  ∧ ∃ org, org ∈ orgs ∧ usr_org_id u = org_id org
      ∧ usr_email u
        = (lower (usr_name u) +:+ pretty (Z.of_nat j + 1))
          +:+ "@" +:+ (slugify (org_name org) +:+ ".com").

(** ** Children and their parents *)

(** A reference drawn among [candidates]: absent exactly when there is no
    candidate, and otherwise one of them. *)
Definition drawn_from (candidates : list string) (r : option string) : Prop :=
  match r with
  | None => candidates = []
  | Some x => x ∈ candidates
  end.

(** The text [t] is a reading of [clock], not before the [from]-th, cut to
    the whole second and moved back by a whole number of minutes between
    [lo] and [hi]. *)
Definition minutes_before (clock : nat → Z) (from : nat) (lo hi : Z)
    (t : isodatetime) : Prop :=
  ∃ i m, (from ≤ i)%nat ∧ lo ≤ m ≤ hi
    ∧ t = IsoDateTime (clock i - clock i mod 1000000 - m * 60000000).

(** The users of the organisation of project [prj]. *)
Definition project_users (users : list User) (prj : Project) : list User :=
  filter (fun u => usr_org_id u = prj_org_id prj) users.

(** The metrics of the project whose identifier is [pid]. *)
Definition project_metrics (metrics : list Metric) (pid : string) : list Metric :=
  filter (fun m => m_project_id m = pid) metrics.

(** A project generated for [org]. *)
Definition project_of (org : Org) (p : Project) : Prop :=
  prj_org_id p = org_id org
  ∧ prj_name p ∈ PROJECT_NAMES
  ∧ prj_visibility p ∈ ["private"; "public"].

(** A dashboard generated for [prj]: its owner is drawn among the users of
    the organisation of [prj]. *)
Definition dashboard_of (users : list User) (prj : Project) (d : Dashboard) : Prop :=
  db_project_id d = prj_id prj
  ∧ db_name d ∈ DASHBOARD_NAMES
  ∧ drawn_from (usr_id <$> project_users users prj) (db_owner_user_id d).

(** A widget generated for [db]: its metric is drawn among the metrics of
    the project of [db], and it is filtered on one region. *)
Definition widget_of (metrics : list Metric) (db : Dashboard) (x : Widget) : Prop :=
  w_dashboard_id x = db_id db
  ∧ drawn_from (m_id <$> project_metrics metrics (db_project_id db)) (w_metric_id x)
  ∧ w_type x ∈ WIDGET_TYPES
  ∧ w_title x ∈ WIDGET_TITLES
  ∧ f_env (w_filters x) ∈ ENVS
  ∧ ∃ r, r ∈ REGIONS ∧ f_region (w_filters x) = [r].

(** An alert generated for [prj]: its metric is drawn among the metrics of
    [prj], and it last fired, if ever, within the 8 days before the run. *)
Definition alert_of (clock : nat → Z) (from : nat) (metrics : list Metric)
    (prj : Project) (a : Alert) : Prop :=
  al_project_id a = prj_id prj
  ∧ drawn_from (m_id <$> project_metrics metrics (prj_id prj)) (al_metric_id a)
  ∧ al_name a ∈ ALERT_NAMES
  ∧ al_window a ∈ WINDOWS
  ∧ ∀ t, al_last_fired_at a = Some t → minutes_before clock from 0 11520 t.

(** An incident generated for [al]: opened between 10 minutes and 10 days
    and 10000 minutes before the run, and either open, or resolved between 5
    and 180 minutes after it was opened. *)
Definition incident_of (clock : nat → Z) (from : nat) (al : Alert) (i : Incident)
    : Prop :=
  inc_alert_id i = al_id al
  ∧ minutes_before clock from 10 24400 (inc_opened_at i)
  ∧ ((inc_status i = "open" ∧ inc_resolved_at i = None)
     ∨ (inc_status i = "resolved"
        ∧ ∃ t0 m, 5 ≤ m ≤ 180 ∧ inc_opened_at i = IsoDateTime t0
            ∧ inc_resolved_at i = Some (IsoDateTime (t0 + m * 60000000)))).

(** An evaluation suite generated for [prj]. *)
Definition suite_of (prj : Project) (s : EvalSuite) : Prop :=
  es_project_id s = prj_id prj
  ∧ es_name s ∈ EVAL_SUITE_NAMES
  ∧ es_status s ∈ ["active"; "disabled"].

(** A run generated for suite [s]: created within the 5 days and 12 hours
    before the run of the program. *)
Definition run_of (clock : nat → Z) (from : nat) (s : EvalSuite) (r : EvalRun) : Prop :=
  er_suite_id r = es_id s
  ∧ er_status r ∈ RUN_STATUSES
  ∧ minutes_before clock from 0 7920 (er_created_at r).

(** [k] children per parent, each satisfying [R] for its parent. *)
Definition fan_out {P C} (R : P → C → Prop) (k : Z) (parents : list P)
    (out : list C) : Prop :=
  blocks_of (fun p blk => length blk = Z.to_nat k ∧ Forall (R p) blk) parents out.

(** A metric generated for [prj]: its name, retention and status are those
    of one row of the catalog. *)
Definition metric_of (prj : Project) (m : Metric) : Prop :=
  m_project_id m = prj_id prj
  ∧ (m_name m, m_retention_days m, m_status m) ∈ METRIC_CATALOG.

(** The scopes of a permission: between 1 and 3 of [SCOPES], none twice. *)
Definition scopes_ok (scopes : list string) : Prop :=
  1 ≤ len scopes ≤ 3 ∧ NoDup scopes ∧ scopes ⊆ SCOPES.

(** The [i]-th feature flag generated for [orgs]. *)
Definition flag_at (orgs : list Org) (i : nat) (f : FeatureFlag) : Prop :=
  series_name FLAG_KEYS "custom.flag_" i (ff_key f)
  ∧ ff_enabled_for_orgs f `sublist_of` (org_id <$> orgs).

(** An audit log: its actor is drawn among [users], its target among
    [targets], and it is dated within the 10000 minutes before the run. *)
Definition log_of (clock : nat → Z) (from : nat) (users : list User)
    (targets : list string) (l : AuditLog) : Prop :=
  aud_action l ∈ ACTIONS
  ∧ drawn_from (usr_id <$> users) (aud_actor_user_id l)
  ∧ drawn_from targets (aud_target_id l)
  ∧ minutes_before clock from 0 10000 (aud_at l).

(** ** The shape of the data set *)

(** No identifier was issued for a prefix outside [used]. *)
Definition unused (used : list string) (idf : IdFactory.t) : Prop :=
  ∀ q, q ∉ used → IdFactory.get idf q = 0.

(** The identifiers of [l] are [prefix_1], [prefix_2], ... in this order. *)
Definition numbered {A} (prefix : string) (id_of : A → string) (l : list A) : Prop :=
  id_of <$> l = ids_from prefix 0 (len l).

(** What [build_mock_data] establishes beyond [dataset_ok]: the identifiers
    of every collection, and the children of every parent. *)
Record dataset_shape (c : Config) (clock : nat → Z) (d : MockData) : Prop := {
  sh_org_ids : numbered "org" org_id (orgs d);
  sh_usr_ids : numbered "usr" usr_id (users d);
  sh_prj_ids : numbered "prj" prj_id (projects d);
  sh_db_ids : numbered "db" db_id (dashboards d);
  sh_m_ids : numbered "m" m_id (metrics d);
  sh_w_ids : numbered "w" w_id (widgets d);
  sh_al_ids : numbered "al" al_id (alerts d);
  sh_inc_ids : numbered "inc" inc_id (incidents d);
  sh_es_ids : numbered "es" es_id (eval_suites d);
  sh_er_ids : numbered "er" er_id (eval_runs d);
  sh_aud_ids : numbered "aud" aud_id (audit_logs d);
  sh_orgs : length (orgs d) = Z.to_nat (orgs_count c);
  sh_projects : fan_out project_of (projects_per_org c) (orgs d) (projects d);
  sh_dashboards :
    fan_out (dashboard_of (users d)) (dashboards_per_project c) (projects d)
      (dashboards d);
  sh_metrics : fan_out metric_of (metrics_per_project c) (projects d) (metrics d);
  sh_widgets :
    fan_out (widget_of (metrics d)) (widgets_per_dashboard c) (dashboards d)
      (widgets d);
  sh_alerts :
    fan_out (alert_of clock 0 (metrics d)) (alerts_per_project c) (projects d)
      (alerts d);
  sh_incidents :
    fan_out (incident_of clock 0) (incidents_per_alert c) (alerts d) (incidents d);
  sh_suites :
    fan_out suite_of (suites_per_project c) (projects d) (eval_suites d);
  sh_runs :
    fan_out (run_of clock 0) (runs_per_suite c) (eval_suites d) (eval_runs d);
  sh_permissions : Forall (fun p => scopes_ok (perm_scopes p)) (permissions d);
  sh_flags :
    length (feature_flags d) = Z.to_nat (feature_flags_count c)
    ∧ ∀ i f, feature_flags d !! i = Some f → flag_at (orgs d) i f;
  sh_logs :
    length (audit_logs d) = Z.to_nat (audit_logs_count c)
    ∧ Forall (log_of clock 0 (users d)
                (target_ids (projects d) (dashboards d) (widgets d) (alerts d)))
        (audit_logs d) }.

(** ** The bindings of every user of a run *)

(** The run of [build_mock_data] up to its call of [gen_permissions]: the
    generators that come before it, in their order, and the projects and
    users they return. *)
Definition build_until_permissions {G} `{!RandomGen G} (seed_ : Z) (c : Config)
    : M G (list Project * list User) :=
  _ <- seed seed_ ;;
  _ <- new_IdFactory ;;
  orgs <- gen_orgs (orgs_count c) ;;
  users <- gen_users orgs (users_per_org c) ;;
  projects <- gen_projects orgs (projects_per_org c) ;;
  dashboards <- gen_dashboards projects users (dashboards_per_project c) ;;
  metrics <- gen_metrics projects (metrics_per_project c) ;;
  metric_samples <- gen_metric_samples metrics (samples_per_metric c) ;;
  widgets <- gen_widgets dashboards metrics (widgets_per_dashboard c) ;;
  alerts <- gen_alerts projects metrics (alerts_per_project c) ;;
  incidents <- gen_incidents alerts (incidents_per_alert c) ;;
  eval_suites <- gen_eval_suites projects (suites_per_project c) ;;
  eval_runs <- gen_eval_runs eval_suites (runs_per_suite c) ;;
  ret (projects, users).

(** In the run of [gen_permissions projects users k] from [w] that returned
    [out], a record of a user repeats the [(user_id, project_id)] pair of
    an earlier record of that user only after the budget of re-draws was
    used up.  The records of the [i]-th user [u] are those that carry its
    identifier; if the [j]-th of them repeats a pair then, in the state the
    generator was in when that record was drawn, which is the state after
    the records of the first [i] users and the first [j] records of [u],
    the draw of the project and the 10 re-draws all returned projects
    already bound to [u]. *)
Definition repeats_only_after_retries {G} `{!RandomGen G}
    (projects : list Project) (users : list User) (k : Z) (w : World G)
    (out : list Permission) : Prop :=
  ∀ (i : nat) u (j : nat) p,
    users !! i = Some u →
    user_permissions out u !! j = Some p →
    (perm_user_id p, perm_project_id p)
      ∈ bindings (take j (user_permissions out u)) →
    ∃ before w1 wj,
      gen_permissions projects (take i users) k w = Ok (before, w1)
      ∧ grant_loop u (org_projects projects u) (Z.of_nat j) before w1
        = Ok ((before ++ take j (user_permissions out u),
               list_to_set (bound_projects (take j (user_permissions out u)))),
              wj)
      ∧ budget_exhausted (org_projects projects u)
          (bound_projects (take j (user_permissions out u))) (w_rng wj).

(** The iteration of the outer loop of [gen_permissions] for user [u]: the
    inner loop, over the projects of the organisation of [u]. *)
Definition bind_user {G} `{!RandomGen G} (projects : list Project) (k : Z)
    (u : User) (perms : list Permission) : M G (list Permission) :=
  let* (perms, _) :=
    grant_loop u (org_projects projects u)
      (Z.min k (len (org_projects projects u))) perms in
  ret perms.

(** ** Records dated from the clock *)

(** The time [t] is [now] cut to the whole second and moved back by a whole
    number of minutes between [lo] and [hi]; it is not after [now]. *)
Definition minutes_back (now lo hi : Z) (t : isodatetime) : Prop :=
  ∃ m, lo ≤ m ≤ hi ∧ t = IsoDateTime (now - now mod 1000000 - m * 60000000).

(** The [n]-th record of [out] that has a time has it from the [n]-th
    reading of [clock] after the first [from]: the call that returned [out]
    read the clock once for every record, in the order of the records. *)
Definition dated_in_turn {C} (clock : nat → Z) (from : nat) (lo hi : Z)
    (time_of : C → option isodatetime) (out : list C) : Prop :=
  ∀ (n : nat) x t, out !! n = Some x → time_of x = Some t →
    minutes_back (clock (from + n)%nat) lo hi t.
(** ** Reasoning about runs *)

Section Logic.
Context {G : Type} `{!RandomGen G}.
Implicit Types (E : Exn → Prop) (w : World G).

Lemma wp_ret {A} E (a : A) (Q : A → World G → Prop) w :
  Q a w → wp E (ret a) Q w.
Proof. intros HQ. unfold wp, ret. auto. Qed.

Lemma wp_raise {A} E e (Q : A → World G → Prop) w :
  E e → wp E (raise e) Q w.
Proof. intros He. exact He. Qed.

Lemma wp_bind {A B} E (m : M G A) (k : A → M G B) (Q : B → World G → Prop) w :
  wp E m (fun a w' => wp E (k a) Q w') w → wp E (bind m k) Q w.
Proof.
  unfold wp, bind. destruct (m w) as [[a w1]|e]; [|done].
  intros [Hc Hk]. destruct (k a w1) as [[b w2]|e]; [|done].
  destruct Hk as [Hc' HQ]. split; [congruence|done].
Qed.

Lemma wp_mono {A} E (m : M G A) (Q Q' : A → World G → Prop) w :
  wp E m Q w → (∀ a w', w_clock w' = w_clock w → Q a w' → Q' a w') → wp E m Q' w.
Proof.
  unfold wp. destruct (m w) as [[a w1]|e]; [|done].
  intros [Hc HQ] Himp. auto.
Qed.

(** A partial-correctness statement read on a run that returned. *)
Lemma wp_returned {A} E (m : M G A) (Q : A → World G → Prop) w a w' :
  wp E m Q w → m w = Ok (a, w') → Q a w'.
Proof. unfold wp. intros Hwp Hrun. rewrite Hrun in Hwp. tauto. Qed.

(** A total-correctness statement gives the run. *)
Lemma wp_returns {A} (m : M G A) (Q : A → World G → Prop) w :
  wp no_exn m Q w → ∃ a w', m w = Ok (a, w') ∧ Q a w'.
Proof.
  unfold wp. destruct (m w) as [[a w1]|e]; [|done].
  intros [_ HQ]. eauto.
Qed.

(** The loop rule: [I] holds of the loop variables and the world before and
    after every iteration. *)
Lemma wp_for {X S} E (I : S → World G → Prop) (xs : list X)
    (body : X → S → M G S) s w :
  I s w →
  (∀ x s' w', x ∈ xs → w_clock w' = w_clock w → I s' w' →
     wp E (body x s') I w') →
  wp E (for_ xs body s) I w.
Proof.
  revert s w. induction xs as [|x xs IH]; intros s w HI Hbody; simpl.
  - by apply wp_ret.
  - apply wp_bind. eapply wp_mono.
    + apply Hbody; [left|done|done].
    + intros s1 w1 Hc HI1. apply IH; [done|].
      intros y s2 w2 Hy Hc2 HI2. apply Hbody; [by right|congruence|done].
Qed.

(** The loop rule with an invariant that also sees the elements already
    visited. *)
Lemma wp_for_done {X S} E (I : list X → S → World G → Prop) (xs : list X)
    (body : X → S → M G S) s w :
  I [] s w →
  (∀ done x rest s' w', xs = done ++ x :: rest → w_clock w' = w_clock w →
     I done s' w' → wp E (body x s') (I (done ++ [x])) w') →
  wp E (for_ xs body s) (I xs) w.
Proof.
  intros HI Hbody.
  cut (∀ done rest s' w', xs = done ++ rest → w_clock w' = w_clock w →
         I done s' w' → wp E (for_ rest body s') (I xs) w').
  { intros Hcut. by apply (Hcut [] xs). }
  intros done rest. revert done.
  induction rest as [|x rest IH]; intros done s1 w1 Hxs Hc HI1; simpl.
  - apply wp_ret. by rewrite Hxs, app_nil_r.
  - apply wp_bind. eapply wp_mono; [by eapply Hbody|].
    intros s2 w2 Hc2 HI2. apply (IH (done ++ [x])); [|congruence|done].
    by rewrite <- app_assoc.
Qed.
End Logic.

(** ** The primitives *)

Section Primitives.
Context {G : Type} `{!RandomGen G}.
Implicit Types (E : Exn → Prop) (w : World G).

Lemma set_rng_twice (g g' : G) w : set_rng g' (set_rng g w) = set_rng g' w.
Proof. reflexivity. Qed.

Lemma wp_now_utc E (Q : Z → World G → Prop) w :
  Q (w_clock w (w_ticks w))
    (mkWorld (w_rng w) (w_idf w) (w_clock w) (S (w_ticks w))) →
  wp E now_utc Q w.
Proof. intros HQ. unfold wp, now_utc. auto. Qed.

Lemma wp_idf_next E prefix (Q : string → World G → Prop) w :
  Q (IdFactory.next prefix (w_idf w)).1
    (set_idf (IdFactory.next prefix (w_idf w)).2 w) →
  wp E (idf_next prefix) Q w.
Proof.
  intros HQ. unfold wp, idf_next.
  destruct (IdFactory.next prefix (w_idf w)) as [id idf]. auto.
Qed.

Lemma wp_random E (Q : float → World G → Prop) w :
  (∀ r g, Q r (set_rng g w)) → wp E random Q w.
Proof.
  intros HQ. unfold wp, random.
  destruct (rng_random (w_rng w)) as [r g]. split; [done|apply HQ].
Qed.

Lemma wp_randbelow E n (Q : Z → World G → Prop) w :
  (∀ r g, (0 < n → 0 ≤ r < n) → Q r (set_rng g w)) → wp E (randbelow n) Q w.
Proof.
  intros HQ. unfold wp, randbelow.
  pose proof (rng_randbelow_range n (w_rng w)) as Hr.
  destruct (rng_randbelow n (w_rng w)) as [r g]. split; [done|by apply HQ].
Qed.

Lemma wp_subscript {A} E (l : list A) i (Q : A → World G → Prop) w :
  0 ≤ i →
  (len l ≤ i → E IndexError) →
  (∀ x, l !! Z.to_nat i = Some x → Q x w) →
  wp E (subscript l i) Q w.
Proof.
  intros Hi Herr HQ. unfold subscript.
  destruct (i <? 0) eqn:Hneg; [lia|]. rewrite Hneg.
  destruct (l !! Z.to_nat i) as [x|] eqn:Hl.
  - apply wp_ret. by apply HQ.
  - apply wp_raise, Herr. apply lookup_ge_None in Hl. unfold len. lia.
Qed.

Lemma wp_pymod E a b (Q : Z → World G → Prop) w :
  (b = 0 → E ZeroDivisionError) → Q (a mod b) w → wp E (pymod a b) Q w.
Proof.
  intros Herr HQ. unfold pymod. destruct (b =? 0) eqn:Hb.
  - apply wp_raise, Herr. lia.
  - by apply wp_ret.
Qed.

Lemma wp_choice {A} E (seq : list A) (Q : A → World G → Prop) w :
  (seq = [] → E IndexError) →
  (∀ x g, x ∈ seq → Q x (set_rng g w)) →
  wp E (choice seq) Q w.
Proof.
  intros Herr HQ. unfold choice. destruct seq as [|a seq'] eqn:Hseq.
  { by apply wp_raise, Herr. }
  rewrite <- Hseq in *. assert (0 < len seq) by (rewrite Hseq; unfold len; simpl; lia).
  apply wp_bind, wp_randbelow. intros r g Hr. specialize (Hr ltac:(done)).
  apply wp_subscript; [lia|lia|].
  intros x Hx. apply HQ. by eapply list_elem_of_lookup_2.
Qed.

Lemma wp_pick {A} E (seq : list A) (Q : A → World G → Prop) w :
  (seq = [] → E IndexError) →
  (∀ x g, x ∈ seq → Q x (set_rng g w)) →
  wp E (pick seq) Q w.
Proof. apply wp_choice. Qed.

Lemma wp_randint E a b (Q : Z → World G → Prop) w :
  (b < a → E ValueError) →
  (∀ r g, a ≤ r ≤ b → Q r (set_rng g w)) →
  wp E (randint a b) Q w.
Proof.
  intros Herr HQ. unfold randint. destruct (0 <? b + 1 - a) eqn:Hw.
  - apply wp_bind, wp_randbelow. intros r g Hr. apply wp_ret, HQ. lia.
  - apply wp_raise, Herr. lia.
Qed.

Lemma wp_uniform E a b (Q : float → World G → Prop) w :
  (∀ r g, Q r (set_rng g w)) → wp E (uniform a b) Q w.
Proof.
  intros HQ. unfold uniform. apply wp_bind, wp_random. intros r g.
  apply wp_ret, HQ.
Qed.

Lemma wp_shuffle {A} E (x : list A) (Q : list A → World G → Prop) w :
  (∀ y g, length y = length x → Q y (set_rng g w)) → wp E (shuffle x) Q w.
Proof.
  intros HQ. unfold shuffle.
  eapply wp_mono.
  - apply (wp_for E (fun y w' => length y = length x ∧ ∃ g, w' = set_rng g w)).
    { split; [done|]. exists (w_rng w). by destruct w. }
    intros i y w' Hi _ [Hlen [g ->]].
    apply elem_of_reverse, elem_of_seqZ in Hi. unfold len in Hi.
    apply wp_bind, wp_randbelow. intros j g1 Hj. specialize (Hj ltac:(lia)).
    apply wp_bind, wp_subscript; [lia|unfold len; lia|]. intros xj _.
    apply wp_bind, wp_subscript; [lia|unfold len; lia|]. intros xi _.
    apply wp_ret. split; [by rewrite !length_insert|by exists g1].
  - intros y w' _ [Hlen [g ->]]. by apply HQ.
Qed.

Lemma wp_sample {A} E (population : list A) k (Q : list A → World G → Prop) w :
  (¬ (0 ≤ k ≤ len population) → E ValueError) →
  (∀ r g, Q r (set_rng g w)) →
  wp E (sample population k) Q w.
Proof.
  intros Herr HQ. unfold sample.
  destruct ((0 <=? k) && (k <=? len population)) eqn:Hk; cycle 1.
  { apply wp_raise, Herr. lia. }
  apply wp_bind. eapply wp_mono.
  - apply (wp_for E (fun s w' => length s.2 = length population
                                ∧ ∃ g, w' = set_rng g w)).
    { split; [done|]. exists (w_rng w). by destruct w. }
    intros i [result pool] w' Hi _ [Hlen [g ->]]. simpl in Hlen.
    apply elem_of_seqZ in Hi. unfold len in *.
    apply wp_bind, wp_randbelow. intros j g1 Hj. specialize (Hj ltac:(lia)).
    apply wp_bind, wp_subscript; [lia|unfold len; lia|]. intros x _.
    apply wp_bind, wp_subscript; [lia|unfold len; lia|]. intros y _.
    apply wp_ret. split; [by simpl; rewrite length_insert|by exists g1].
  - intros [result pool] w' _ [_ [g ->]]. apply wp_ret, HQ.
Qed.

(** The bounded re-draw: the value kept is the first one that passes, or the
    last one drawn. *)
Lemma wp_retry {A} E budget (cond : A → bool) (draw : M G A) (P : A → Prop)
    cur (Q : A → World G → Prop) w :
  P cur →
  (∀ g (Q' : A → World G → Prop),
     (∀ x g', P x → Q' x (set_rng g' w)) → wp E draw Q' (set_rng g w)) →
  (∀ x g, P x → Q x (set_rng g w)) →
  wp E (retry budget cond draw cur) Q w.
Proof.
  intros Hcur Hdraw HQ.
  cut (∀ g, wp E (retry budget cond draw cur) Q (set_rng g w)).
  { intros Hcut. specialize (Hcut (w_rng w)). by destruct w. }
  revert cur Hcur. induction budget as [|b IH]; intros cur Hcur g; simpl.
  - apply wp_ret, HQ, Hcur.
  - destruct (cond cur).
    + apply wp_bind, Hdraw. intros x g' Hx. by apply IH.
    + apply wp_ret, HQ, Hcur.
Qed.

Lemma wp_timedelta E days minutes (Q : Z → World G → Prop) w :
  let us := (days * 86400 + minutes * 60) * 1000000 in
  (Z.abs (us / US_PER_DAY) > MAX_DELTA_DAYS → E OverflowError) →
  Q us w →
  wp E (timedelta days minutes) Q w.
Proof.
  intros us Herr HQ. unfold timedelta. fold us.
  destruct (Z.abs (us / US_PER_DAY) >? MAX_DELTA_DAYS) eqn:Hov.
  - apply wp_raise, Herr. lia.
  - by apply wp_ret.
Qed.

Lemma wp_datetime_sub E dt delta (Q : Z → World G → Prop) w :
  (¬ (0 ≤ dt - delta < MAXORDINAL * US_PER_DAY) → E OverflowError) →
  Q (dt - delta) w →
  wp E (datetime_sub dt delta) Q w.
Proof.
  intros Herr HQ. unfold datetime_sub.
  destruct ((0 <=? dt - delta) && (dt - delta <? MAXORDINAL * US_PER_DAY)) eqn:Hr.
  - by apply wp_ret.
  - apply wp_raise, Herr. lia.
Qed.

Lemma wp_datetime_add E dt delta (Q : Z → World G → Prop) w :
  (¬ (0 ≤ dt + delta < MAXORDINAL * US_PER_DAY) → E OverflowError) →
  Q (dt + delta) w →
  wp E (datetime_add dt delta) Q w.
Proof.
  intros Herr HQ. unfold datetime_add.
  destruct ((0 <=? dt + delta) && (dt + delta <? MAXORDINAL * US_PER_DAY)) eqn:Hr.
  - by apply wp_ret.
  - apply wp_raise, Herr. lia.
Qed.

Lemma wp_date_sub E d delta (Q : Z → World G → Prop) w :
  (¬ (0 < d - delta / US_PER_DAY ≤ MAXORDINAL) → E OverflowError) →
  Q (d - delta / US_PER_DAY) w →
  wp E (date_sub d delta) Q w.
Proof.
  intros Herr HQ. unfold date_sub.
  destruct ((0 <? d - delta / US_PER_DAY) && (d - delta / US_PER_DAY <=? MAXORDINAL)) eqn:Hr.
  - by apply wp_ret.
  - apply wp_raise, Herr. lia.
Qed.
End Primitives.

(** ** Identifiers *)

Section Identifiers.
Implicit Types (p q s : string) (idf : IdFactory.t).

Lemma has_char_app c s1 s2 :
  has_char c (s1 +:+ s2) = has_char c s1 || has_char c s2.
Proof.
  induction s1 as [|a s1 IH]; simpl; [done|].
  by rewrite IH, orb_assoc.
Qed.

Lemma pretty_N_go_no_underscore x s :
  has_char "_" s = false → has_char "_" (pretty_N_go x s) = false.
Proof.
  revert s. induction (N.lt_wf_0 x) as [x _ IH]; intros s Hs.
  assert (x = 0 ∨ 0 < x)%N as [->|Hx] by lia.
  - by rewrite pretty_N_go_0.
  - rewrite pretty_N_go_step by done. apply IH.
    { by apply N.div_lt. }
    simpl. rewrite Hs, orb_false_r.
    unfold pretty_N_char. by repeat case_match.
Qed.

Lemma pretty_N_no_underscore (x : N) : has_char "_" (pretty x) = false.
Proof.
  unfold pretty, pretty_N. case_decide; [done|].
  by apply pretty_N_go_no_underscore.
Qed.

Lemma pretty_Z_no_underscore (x : Z) : has_char "_" (pretty x) = false.
Proof.
  unfold pretty, pretty_Z. destruct x as [|x|x]; [done|..].
  - apply pretty_N_no_underscore.
  - rewrite has_char_app. simpl. apply pretty_N_no_underscore.
Qed.

Lemma append_nil_l s : "" +:+ s = s.
Proof. reflexivity. Qed.

Lemma append_cons (a : ascii) s1 s2 : String a s1 +:+ s2 = String a (s1 +:+ s2).
Proof. reflexivity. Qed.

(** A text is split in one way only around its last underscore. *)
Lemma append_underscore_inj p q d1 d2 :
  has_char "_" d1 = false → has_char "_" d2 = false →
  p +:+ "_" +:+ d1 = q +:+ "_" +:+ d2 → p = q ∧ d1 = d2.
Proof.
  intros H1 H2. revert q.
  induction p as [|a p IH]; intros [|b q] Heq;
    repeat (rewrite append_nil_l in Heq || rewrite append_cons in Heq).
  - by simplify_eq.
  - injection Heq as Hb Hd. subst d1. rewrite has_char_app in H1.
    simpl in H1. by rewrite orb_true_r in H1.
  - injection Heq as Ha Hd. subst d2. rewrite has_char_app in H2.
    simpl in H2. by rewrite orb_true_r in H2.
  - injection Heq as -> Heq.
    destruct (IH q) as [-> ->]; [by rewrite append_cons, append_nil_l|done].
Qed.

Lemma fmt_inj p q n m :
  IdFactory.fmt p n = IdFactory.fmt q m → p = q ∧ n = m.
Proof.
  unfold IdFactory.fmt. intros Heq.
  apply append_underscore_inj in Heq as [-> Heq];
    [|apply pretty_Z_no_underscore..].
  split; [done|]. by apply (inj pretty) in Heq.
Qed.

Lemma get_next_same p idf :
  IdFactory.get (IdFactory.next p idf).2 p = IdFactory.get idf p + 1.
Proof. unfold IdFactory.get. simpl. by rewrite lookup_insert_eq. Qed.

Lemma get_next_other p q idf :
  p ≠ q → IdFactory.get (IdFactory.next p idf).2 q = IdFactory.get idf q.
Proof. intros Hne. unfold IdFactory.get. simpl. by rewrite lookup_insert_ne. Qed.

Lemma next_id p idf :
  (IdFactory.next p idf).1 = IdFactory.fmt p (IdFactory.get idf p + 1).
Proof. reflexivity. Qed.

Lemma issued_nil p idf : issued p idf [].
Proof. split; [constructor|]. intros s Hs. by apply elem_of_nil in Hs. Qed.

(** One more call keeps the identifiers issued so far distinct. *)
Lemma issued_next p idf ids :
  issued p idf ids →
  issued p (IdFactory.next p idf).2 (ids ++ [(IdFactory.next p idf).1]).
Proof.
  intros [Hnd Hin]. split.
  - apply NoDup_app. split_and!; [done| |apply NoDup_singleton].
    intros s Hs Hs'. apply list_elem_of_singleton in Hs'. subst s.
    apply Hin in Hs as (k & Hk & Heq). rewrite next_id in Heq.
    apply fmt_inj in Heq as [_ Heq]. lia.
  - intros s Hs. rewrite get_next_same. apply elem_of_app in Hs as [Hs|Hs].
    + apply Hin in Hs as (k & Hk & ->). exists k. split; [lia|done].
    + apply list_elem_of_singleton in Hs. subst s. rewrite next_id.
      exists (IdFactory.get idf p + 1). split; [lia|done].
Qed.

Lemma issued_ids_with_prefix p idf ids : issued p idf ids → ids_with_prefix p ids.
Proof.
  intros [Hnd Hin]. split; [done|].
  intros s Hs. apply Hin in Hs as (k & _ & ->). by exists k.
Qed.
End Identifiers.

(** ** Grouping by key *)

Section GroupBy.
Context {A : Type}.
Implicit Types (key : A → string) (xs : list A) (d : gmap string (list A)).

Lemma get_list_foldl key xs d k :
  get_list (foldl (fun d x => <[key x := default [] (d !! key x) ++ [x]]> d) d xs) k
  = get_list d k ++ filter (fun x => key x = k) xs.
Proof.
  revert d. induction xs as [|x xs IH]; intros d; simpl.
  { by rewrite app_nil_r. }
  rewrite IH. unfold get_list at 1. rewrite filter_cons.
  destruct (decide (key x = k)) as [->|Hne].
  - rewrite lookup_insert_eq. simpl. by rewrite <- app_assoc.
  - by rewrite lookup_insert_ne.
Qed.

(** The list stored under [k] holds the elements whose key is [k], in their
    order in [xs]. *)
Lemma get_list_group_by key xs k :
  get_list (group_by key xs) k = filter (fun x => key x = k) xs.
Proof. unfold group_by. by rewrite get_list_foldl. Qed.

Lemma elem_of_group_by key xs k x :
  x ∈ get_list (group_by key xs) k → x ∈ xs ∧ key x = k.
Proof.
  rewrite get_list_group_by. intros Hx. by apply list_elem_of_filter in Hx as [? ?].
Qed.
End GroupBy.

(** ** Stepping through a generator *)

Global Arguments retry : simpl never.
Global Arguments for_ : simpl never.
Global Arguments pick : simpl never.
Global Arguments choice : simpl never.
Global Arguments sample : simpl never.
Global Arguments shuffle : simpl never.
Global Arguments randint : simpl never.
Global Arguments uniform : simpl never.
Global Arguments timedelta : simpl never.
Global Arguments datetime_sub : simpl never.
Global Arguments datetime_add : simpl never.
Global Arguments date_sub : simpl never.
Global Arguments subscript : simpl never.
Global Arguments pymod : simpl never.
Global Arguments group_by : simpl never.
Global Arguments get_list : simpl never.
Global Arguments IdFactory.next : simpl never.
Global Arguments range : simpl never.

Ltac wsimpl :=
  cbn [set_rng set_idf w_idf w_clock w_ticks w_rng fst snd] in *.

(** Closes [seq = [] -> E IndexError] for a sequence that is visibly not
    empty. *)
Ltac solve_nonempty :=
  let H := fresh in
  intros H; first [discriminate H | vm_compute in H; discriminate H].

(** One step of symbolic execution: the rule of the operation at the head
    of the computation. *)
Ltac wp_step :=
  lazymatch goal with
  | |- wp _ (bind _ _) _ _ => apply wp_bind
  | |- wp _ (ret _) _ _ => apply wp_ret
  | |- wp _ random _ _ => apply wp_random; intros ? ?
  | |- wp _ (uniform _ _) _ _ => apply wp_uniform; intros ? ?
  | |- wp _ (idf_next _) _ _ => apply wp_idf_next
  | |- wp _ now_utc _ _ => apply wp_now_utc
  | |- wp _ (pick _) _ _ => apply wp_pick; [try solve_nonempty | intros ? ? ?]
  | |- wp _ (choice _) _ _ => apply wp_choice; [try solve_nonempty | intros ? ? ?]
  | |- wp _ (randint _ _) _ _ => apply wp_randint; [try lia | intros ? ? ?]
  | |- wp _ (sample _ _) _ _ => apply wp_sample; [ | intros ? ?]
  | |- wp _ (pymod _ _) _ _ => apply wp_pymod; [try lia|]
  | |- wp _ (subscript _ _) _ _ => apply wp_subscript; [try lia|try lia|intros ? ?]
  | |- wp _ (timedelta _ _) _ _ => apply wp_timedelta
  | |- wp _ (datetime_sub _ _) _ _ => apply wp_datetime_sub
  | |- wp _ (datetime_add _ _) _ _ => apply wp_datetime_add
  | |- wp _ (date_sub _ _) _ _ => apply wp_date_sub
  | |- wp _ (if ?b then _ else _) _ _ => destruct b eqn:?
  | |- wp _ (match ?x with (_, _) => _ end) _ _ => destruct x
  end; wsimpl.

(** Closes the side condition of a date computation: the exception is
    allowed, or the bounds in the context rule it out. *)
Ltac solve_overflow :=
  let H := fresh in
  intros H;
  match goal with
  | Hs : overflow_safe _ _ |- _ =>
      destruct Hs as [Hs|Hs]; [exact Hs|exfalso]
  | Hs : _ ∨ _ |- _ =>
      destruct Hs as [Hs|Hs]; [exact Hs|exfalso]
  end;
  revert H;
  repeat match goal with
  | Hs : clock_ok _ |- _ => unfold clock_ok in Hs
  | Hs : ∀ i : nat, _ ≤ ?c i < _ |- context [?c ?t] =>
      pose proof (Hs t); clear Hs
  end;
  unfold dt_date, US_PER_DAY, MAXORDINAL, MAX_DELTA_DAYS in *; lia.

(** ** The generators, one by one *)

Section Specs.
Context {G : Type} `{!RandomGen G}.
Implicit Types (E : Exn → Prop) (w : World G).

Lemma issued_snoc_next {A} prefix (id_of : A → string) (out : list A) (x : A) w :
  issued prefix (w_idf w) (id_of <$> out) →
  id_of x = (IdFactory.next prefix (w_idf w)).1 →
  issued prefix (IdFactory.next prefix (w_idf w)).2 (id_of <$> (out ++ [x])).
Proof.
  intros Hiss Hid. rewrite fmap_app. simpl. rewrite Hid. by apply issued_next.
Qed.

Lemma Forall_snoc {A} (P : A → Prop) (l : list A) (x : A) :
  Forall P l → P x → Forall P (l ++ [x]).
Proof. intros Hl Hx. apply Forall_app. split; [done|]. by constructor. Qed.

Lemma blocks_of_nil {P C} (row : P → list C → Prop) : blocks_of row [] [].
Proof. exists []. split; [done|constructor]. Qed.

Lemma blocks_of_snoc {P C} (row : P → list C → Prop) parents out p blk :
  blocks_of row parents out → row p blk →
  blocks_of row (parents ++ [p]) (out ++ blk).
Proof.
  intros (blocks & -> & Hall) Hrow. exists (blocks ++ [blk]). split.
  - rewrite concat_app. simpl. by rewrite app_nil_r.
  - apply Forall2_app; [done|]. by constructor.
Qed.

(** The loop variable of [for i in range(n)] after [done] iterations. *)
Lemma range_split n done i rest :
  range n = done ++ i :: rest → i = len done ∧ 0 ≤ i < n.
Proof.
  intros Hr. unfold range in Hr.
  assert (seqZ 0 n !! length done = Some i) as Hl.
  { rewrite Hr. by rewrite list_lookup_middle. }
  apply lookup_seqZ in Hl. unfold len. lia.
Qed.

Lemma gen_orgs_spec E n w :
  wp E (gen_orgs n)
    (fun out w' =>
       issued "org" (w_idf w') (org_id <$> out) ∧ length out = Z.to_nat n) w.
Proof.
  unfold gen_orgs. apply wp_bind, wp_shuffle. intros names g Hlen.
  assert (len names = 17) as Hn by (unfold len; rewrite Hlen; done).
  eapply wp_mono.
  - apply (wp_for_done E (fun done out w' =>
             issued "org" (w_idf w') (org_id <$> out) ∧ length out = length done)).
    { split; [apply issued_nil|done]. }
    intros done i rest out w1 Hi _ [Hiss Hl]. apply range_split in Hi as [_ Hi].
    repeat wp_step.
    all: split; [by apply issued_snoc_next|rewrite !length_app; simpl; lia].
  - intros out w1 _ [Hiss Hl]. split; [done|].
    rewrite Hl. unfold range. by rewrite length_seqZ.
Qed.

Lemma gen_projects_spec E orgs k w :
  wp E (gen_projects orgs k)
    (fun out w' =>
       issued "prj" (w_idf w') (prj_id <$> out)
       ∧ Forall (fun p => prj_org_id p ∈ org_id <$> orgs) out) w.
Proof.
  unfold gen_projects.
  apply wp_for.
  { split; [apply issued_nil|constructor]. }
  intros org out w1 Horg _ Hinv.
  apply wp_for; [done|].
  intros i out2 w2 _ _ [Hiss Hfk].
  repeat wp_step.
  split.
  - by apply issued_snoc_next.
  - apply Forall_snoc; [done|]. simpl. by apply list_elem_of_fmap_2.
Qed.

Lemma user_rows_snoc org n blk u :
  user_rows org n blk → usr_org_id u = org_id org →
  (usr_role u = "admin" ↔ n = 0%nat) →
  user_rows org (S n) (blk ++ [u]).
Proof.
  intros (Hlen & Horg & Hrole) Hu Hr. split_and!.
  - rewrite length_app. simpl. lia.
  - intros v Hv. apply elem_of_app in Hv as [Hv|Hv]; [by apply Horg|].
    apply list_elem_of_singleton in Hv. by subst.
  - intros j v Hj. apply lookup_app_Some in Hj as [Hj|[Hge Hj]].
    + by apply Hrole.
    + apply list_lookup_singleton_Some in Hj as [Hj ->].
      rewrite Hr. lia.
Qed.

Lemma gen_users_spec E orgs k w :
  wp E (gen_users orgs k)
    (fun out w' =>
       issued "usr" (w_idf w') (usr_id <$> out)
       ∧ blocks_of (fun org => user_rows org (Z.to_nat k)) orgs out) w.
Proof.
  unfold gen_users. apply wp_bind, wp_shuffle. intros pool g Hlen.
  assert (len pool = 30) as Hn by (unfold len; rewrite Hlen; done).
  apply wp_bind. eapply wp_mono.
  - apply (wp_for_done E (fun done st w' =>
             issued "usr" (w_idf w') (usr_id <$> st.1)
             ∧ 0 ≤ st.2
             ∧ blocks_of (fun org => user_rows org (Z.to_nat k)) done st.1)).
    { split_and!; [apply issued_nil|done|apply blocks_of_nil]. }
    intros done org rest [out idx] w1 _ _ (Hiss & Hidx & Hblk). simpl in *.
    eapply wp_mono.
    + apply (wp_for_done E (fun done_i st w' =>
               issued "usr" (w_idf w') (usr_id <$> st.1)
               ∧ 0 ≤ st.2
               ∧ ∃ blk, st.1 = out ++ blk ∧ user_rows org (length done_i) blk)).
      { split_and!; [done|done|]. exists []. rewrite app_nil_r.
        split; [done|]. split_and!; [done|by intros ? ?%elem_of_nil|done]. }
      intros done_i i rest_i [out2 idx2] w2 Hi _ Hinv. simpl in Hinv.
      destruct Hinv as (Hiss2 & Hidx2 & blk & -> & Hrows).
      apply range_split in Hi as [Hi Hik].
      repeat wp_step.
      all: split_and!; [by apply issued_snoc_next|lia|].
      all: eexists (blk ++ [_]); split; [by rewrite app_assoc|].
      all: rewrite length_app, Nat.add_1_r; simpl.
      all: apply user_rows_snoc; [done|done|]; simpl; unfold len in Hi.
      all: repeat case_match; split; (done || lia).
    + intros [out2 idx2] w2 _ (Hiss2 & Hidx2 & blk & Hout & Hrows). simpl in *.
      subst out2. split_and!; [done|done|].
      apply blocks_of_snoc; [done|].
      unfold range in Hrows. by rewrite length_seqZ in Hrows.
  - intros [out idx] w1 _ (Hiss & _ & Hblk). by apply wp_ret.
Qed.

Lemma gen_dashboards_spec E projects users k w :
  wp E (gen_dashboards projects users k)
    (fun out w' =>
       issued "db" (w_idf w') (db_id <$> out)
       ∧ Forall (dashboard_ok projects users) out) w.
Proof.
  unfold gen_dashboards.
  apply wp_for.
  { split; [apply issued_nil|constructor]. }
  intros prj out w1 Hprj _ Hinv.
  apply wp_for; [done|].
  intros i out2 w2 _ _ [Hiss Hok].
  destruct (get_list (group_by usr_org_id users) (prj_org_id prj))
    as [|u0 us] eqn:Hus.
  all: repeat wp_step.
  all: split; [by apply issued_snoc_next|apply Forall_snoc; [done|]].
  all: exists prj; split_and!; [done|done|]; simpl; intros uid [= <-].
  match goal with Hx : _ ∈ _ |- _ =>
    rewrite <- Hus in Hx; apply elem_of_group_by in Hx as [Hx1 Hx2] end.
  eauto.
Qed.

Lemma gen_metrics_spec E projects k w :
  wp E (gen_metrics projects k)
    (fun out w' =>
       issued "m" (w_idf w') (m_id <$> out)
       ∧ Forall (fun m => m_project_id m ∈ prj_id <$> projects) out) w.
Proof.
  unfold gen_metrics.
  apply wp_for.
  { split; [apply issued_nil|constructor]. }
  intros prj out w1 Hprj _ Hinv.
  wp_step. eapply wp_mono.
  - apply (wp_for E (fun st w' =>
       issued "m" (w_idf w') (m_id <$> st.1)
       ∧ Forall (fun m => m_project_id m ∈ prj_id <$> projects) st.1)); [done|].
    intros i [out2 used] w2 _ _ [Hiss Hok]. simpl in *.
    repeat wp_step.
    apply (wp_retry E _ _ _ (fun _ => True)); [done| |].
    { intros g0 Q' HQ'. apply wp_pick; [solve_nonempty|]. intros c g1 _. by apply HQ'. }
    intros [[name retention] status] g0 _. repeat wp_step.
    split; [by apply issued_snoc_next|apply Forall_snoc; [done|]].
    simpl. by apply list_elem_of_fmap_2.
  - intros [out2 used] w2 _ Hinv2. by apply wp_ret.
Qed.

Lemma sample_rows_snoc today total m n blk s :
  sample_rows today total m n blk →
  ms_metric_id s = m_id m →
  ms_date s = IsoDate (today - (total - 1 - Z.of_nat n)) →
  sample_rows today total m (S n) (blk ++ [s]).
Proof.
  intros [Hlen Hrows] Hm Hd. split.
  - rewrite length_app. simpl. lia.
  - intros j s' Hj. apply lookup_app_Some in Hj as [Hj|[Hge Hj]].
    + by apply Hrows.
    + apply list_lookup_singleton_Some in Hj as [Hj ->].
      replace j with n by lia. done.
Qed.

Lemma gen_metric_samples_spec E metrics spm w :
  let today := dt_date (w_clock w (w_ticks w)) in
  E OverflowError ∨ spm ≤ today ≤ MAXORDINAL →
  wp E (gen_metric_samples metrics spm)
    (fun out w' =>
       blocks_of (fun m => sample_rows today spm m (Z.to_nat spm)) metrics out) w.
Proof.
  intros today Hsafe. unfold gen_metric_samples. wp_step. wp_step. fold today.
  apply (wp_for_done E (fun done out w' =>
           blocks_of (fun m => sample_rows today spm m (Z.to_nat spm)) done out)).
  { apply blocks_of_nil. }
  intros done m rest out w1 _ _ Hblk.
  eapply wp_mono.
  - apply (wp_for_done E (fun done_i out2 w' =>
             ∃ blk, out2 = out ++ blk
                    ∧ sample_rows today spm m (length done_i) blk)).
    { exists []. rewrite app_nil_r. split; [done|]. split; [done|].
      by intros j s Hj. }
    intros done_i i rest_i out2 w2 Hi _ (blk & -> & Hrows).
    apply range_split in Hi as [Hi Hik]. unfold len in Hi.
    repeat wp_step.
    + clear Hrows. subst today. solve_overflow.
    + clear Hrows. subst today. solve_overflow.
    + eexists (blk ++ [_]). split; [by rewrite app_assoc|].
      rewrite length_app, Nat.add_1_r. simpl.
      apply sample_rows_snoc; [done|done|]. simpl. f_equal.
      unfold US_PER_DAY. lia.
  - intros out2 w2 _ (blk & -> & Hrows). apply blocks_of_snoc; [done|].
    unfold range in Hrows. by rewrite length_seqZ in Hrows.
Qed.

Lemma gen_widgets_spec E dashboards metrics k w :
  wp E (gen_widgets dashboards metrics k)
    (fun out w' =>
       issued "w" (w_idf w') (w_id <$> out)
       ∧ Forall (widget_ok dashboards metrics) out) w.
Proof.
  unfold gen_widgets.
  apply wp_for.
  { split; [apply issued_nil|constructor]. }
  intros db out w1 Hdb _ Hinv.
  apply wp_for; [done|].
  intros i out2 w2 _ _ [Hiss Hok].
  destruct (get_list (group_by m_project_id metrics) (db_project_id db))
    as [|m0 ms] eqn:Hms.
  all: repeat wp_step.
  all: split; [by apply issued_snoc_next|apply Forall_snoc; [done|]].
  all: exists db; split_and!; [done|done|]; simpl; intros mid [= <-].
  match goal with Hx : _ ∈ _ |- _ =>
    rewrite <- Hms in Hx; apply elem_of_group_by in Hx as [Hx1 Hx2] end.
  eauto.
Qed.

Lemma gen_alerts_spec E projects metrics k w :
  overflow_safe E (w_clock w) →
  wp E (gen_alerts projects metrics k)
    (fun out w' =>
       issued "al" (w_idf w') (al_id <$> out)
       ∧ Forall (alert_ok projects metrics) out) w.
Proof.
  intros Hsafe. unfold gen_alerts.
  apply wp_for.
  { split; [apply issued_nil|constructor]. }
  intros prj out w1 Hprj Hc1 Hinv.
  apply wp_for; [done|].
  intros i out2 w2 _ Hc2 [Hiss Hok]. rewrite <- Hc1, <- Hc2 in Hsafe.
  destruct (get_list (group_by m_project_id metrics) (prj_id prj))
    as [|m0 ms] eqn:Hms.
  all: repeat wp_step; try solve_overflow.
  all: split; [by apply issued_snoc_next|apply Forall_snoc; [done|]].
  all: unfold alert_ok; simpl.
  all: split; [by apply list_elem_of_fmap_2|]; intros mid [= <-].
  match goal with Hx : _ ∈ _ |- _ =>
    rewrite <- Hms in Hx; apply elem_of_group_by in Hx as [Hx1 Hx2] end.
  eauto.
Qed.

Lemma gen_incidents_spec E alerts k w :
  overflow_safe E (w_clock w) →
  wp E (gen_incidents alerts k)
    (fun out w' =>
       issued "inc" (w_idf w') (inc_id <$> out)
       ∧ Forall (fun i => inc_alert_id i ∈ al_id <$> alerts ∧ incident_ok i) out) w.
Proof.
  intros Hsafe. unfold gen_incidents.
  apply wp_for.
  { split; [apply issued_nil|constructor]. }
  intros al out w1 Hal Hc1 Hinv.
  apply wp_for; [done|].
  intros i out2 w2 _ Hc2 [Hiss Hok]. rewrite <- Hc1, <- Hc2 in Hsafe.
  repeat wp_step; try solve_overflow.
  all: split; [by apply issued_snoc_next|apply Forall_snoc; [done|]].
  all: unfold incident_ok; simpl.
  all: split; [by apply list_elem_of_fmap_2|].
  all: split_and!; try (split; (done || by eauto)).
  all: try by intros t0 t1 _ [=].
  unfold iso. intros t0 t1 [= <-] [= <-]. lia.
Qed.

Lemma gen_eval_suites_spec E projects k w :
  wp E (gen_eval_suites projects k)
    (fun out w' =>
       issued "es" (w_idf w') (es_id <$> out)
       ∧ Forall (fun s => es_project_id s ∈ prj_id <$> projects) out) w.
Proof.
  unfold gen_eval_suites.
  apply wp_for.
  { split; [apply issued_nil|constructor]. }
  intros prj out w1 Hprj _ Hinv.
  apply wp_for; [done|].
  intros i out2 w2 _ _ [Hiss Hok].
  repeat wp_step.
  split; [by apply issued_snoc_next|apply Forall_snoc; [done|]].
  simpl. by apply list_elem_of_fmap_2.
Qed.

Lemma gen_eval_runs_spec E suites k w :
  overflow_safe E (w_clock w) →
  wp E (gen_eval_runs suites k)
    (fun out w' =>
       issued "er" (w_idf w') (er_id <$> out)
       ∧ Forall (fun r => er_suite_id r ∈ es_id <$> suites) out) w.
Proof.
  intros Hsafe. unfold gen_eval_runs.
  apply wp_for.
  { split; [apply issued_nil|constructor]. }
  intros su out w1 Hsu Hc1 Hinv.
  apply wp_for; [done|].
  intros i out2 w2 _ Hc2 [Hiss Hok]. rewrite <- Hc1, <- Hc2 in Hsafe.
  repeat wp_step; try solve_overflow.
  split; [by apply issued_snoc_next|apply Forall_snoc; [done|]].
  simpl. by apply list_elem_of_fmap_2.
Qed.

Lemma perm_rows_snoc projects u n blk p prj :
  perm_rows projects u n blk →
  prj ∈ org_projects projects u →
  perm_user_id p = usr_id u → perm_project_id p = prj_id prj →
  perm_rows projects u (S n) (blk ++ [p]).
Proof.
  intros [Hlen Hrows] Hprj Hu Hp. split.
  - rewrite length_app. simpl. lia.
  - intros q Hq. apply elem_of_app in Hq as [Hq|Hq]; [by apply Hrows|].
    apply list_elem_of_singleton in Hq. subst q. split; [done|].
    apply list_elem_of_filter in Hprj as [Horg Hin]. eauto.
Qed.

Lemma gen_permissions_spec E projects users k w :
  wp E (gen_permissions projects users k)
    (fun out w' =>
       blocks_of (fun u => perm_rows projects u
                    (Z.to_nat (Z.min k (len (org_projects projects u)))))
         users out) w.
Proof.
  unfold gen_permissions.
  apply (wp_for_done E (fun done out w' =>
           blocks_of (fun u => perm_rows projects u
                        (Z.to_nat (Z.min k (len (org_projects projects u)))))
             done out)).
  { apply blocks_of_nil. }
  intros done u rest out w1 _ _ Hblk.
  rewrite get_list_group_by. fold (org_projects projects u).
  set (avail := org_projects projects u).
  wp_step. eapply wp_mono.
  - apply (wp_for_done E (fun done_i st w' =>
             ∃ blk, st.1 = out ++ blk ∧ perm_rows projects u (length done_i) blk)).
    { exists []. simpl. rewrite app_nil_r. split; [done|]. split; [done|].
      by intros p ?%elem_of_nil. }
    intros done_i i rest_i [out2 chosen] w2 Hi _ Hinv. simpl in Hinv.
    destruct Hinv as (blk & -> & Hrows). apply range_split in Hi as [_ Hi].
    assert (avail ≠ []) as Hne.
    { intros Heq. rewrite Heq in Hi. unfold len in Hi. simpl in Hi. lia. }
    unfold grant_permission.
    wp_step. apply wp_choice; [done|]. intros prj0 g0 Hprj0.
    wp_step. apply (wp_retry E _ _ _ (fun p => p ∈ avail)); [done| |].
    { intros g1 Q' HQ'. apply wp_choice; [done|]. intros p g2 Hp. by apply HQ'. }
    intros prj g1 Hprj. wsimpl.
    assert (len SCOPES = 5) as Hsc by done.
    repeat wp_step; [lia|].
    eexists (blk ++ [_]). simpl. split; [by rewrite app_assoc|].
    rewrite length_app, Nat.add_1_r.
    by eapply perm_rows_snoc.
  - intros [out2 chosen] w2 _ Hinv. simpl in Hinv.
    destruct Hinv as (blk & -> & Hrows).
    apply wp_ret, blocks_of_snoc; [done|].
    unfold range in Hrows. by rewrite length_seqZ in Hrows.
Qed.

Lemma gen_feature_flags_spec E orgs n w :
  wp E (gen_feature_flags orgs n)
    (fun out w' =>
       Forall (fun f => Forall (fun o => o ∈ org_id <$> orgs)
                          (ff_enabled_for_orgs f)) out) w.
Proof.
  unfold gen_feature_flags.
  assert (len FLAG_KEYS = 9) as Hk by done.
  apply (wp_for_done E (fun _ out _ =>
           Forall (fun f => Forall (fun o => o ∈ org_id <$> orgs)
                              (ff_enabled_for_orgs f)) out)).
  { constructor. }
  intros done i rest out w1 Hi _ Hok. apply range_split in Hi as [_ Hi].
  wp_step.
  apply (wp_mono E _ (fun _ _ => True)).
  { repeat wp_step; done. }
  intros key w2 _ _. wp_step. eapply wp_mono.
  - apply (wp_for E (fun acc _ => Forall (fun o => o ∈ org_id <$> orgs) acc)).
    { constructor. }
    intros o acc w3 Ho _ Hacc. repeat wp_step.
    case_match; [|done]. apply Forall_snoc; [done|]. by apply list_elem_of_fmap_2.
  - intros acc w3 _ Hacc. repeat wp_step. by apply Forall_snoc.
Qed.

Lemma gen_audit_logs_spec E orgs users projects dashboards widgets alerts n w :
  overflow_safe E (w_clock w) →
  wp E (gen_audit_logs orgs users projects dashboards widgets alerts n)
    (fun out w' =>
       issued "aud" (w_idf w') (aud_id <$> out)
       ∧ Forall (audit_log_ok orgs users
                   (target_ids projects dashboards widgets alerts)) out) w.
Proof.
  intros Hsafe. unfold gen_audit_logs.
  remember ((_ <$> projects) ++ _) as pool eqn:Hdef.
  assert (pool.*2 = target_ids projects dashboards widgets alerts) as Hpool.
  { subst pool. unfold target_ids. rewrite !fmap_app, <- !list_fmap_compose. done. }
  clear Hdef.
  apply wp_for.
  { split; [apply issued_nil|constructor]. }
  intros i out w1 _ Hc1 [Hiss Hok]. rewrite <- Hc1 in Hsafe.
  destruct users as [|u0 us]; destruct pool as [|t0 ts].
  all: repeat wp_step; try solve_overflow.
  all: split; [by apply issued_snoc_next|apply Forall_snoc; [done|]].
  all: unfold audit_log_ok; simpl; split_and!.
  all: try (intros ? [=]; fail).
  all: try (intros [=]; fail).
  all: try (intros _; split; [done|by destruct orgs]).
  all: try (intros ? [= <-]; eauto; fail).
  all: intros ? [= <-]; rewrite <- Hpool.
  all: match goal with Hx : (_, ?t) ∈ _ |- _ =>
         by apply (list_elem_of_fmap_2 snd) in Hx end.
Qed.
End Specs.

(** ** The assembler *)

Section Build.
Context {G : Type} `{!RandomGen G}.
Implicit Types (E : Exn → Prop) (w : World G).

Lemma wp_seed E a (Q : unit → World G → Prop) w :
  Q tt (set_rng (rng_seed a) w) → wp E (seed a) Q w.
Proof. intros HQ. unfold wp, seed. auto. Qed.

Lemma wp_new_IdFactory E (Q : unit → World G → Prop) w :
  Q tt (set_idf IdFactory.init w) → wp E new_IdFactory Q w.
Proof. intros HQ. unfold wp, new_IdFactory. auto. Qed.

(** Uses the specification [Hspec] of the generator at the head of the
    computation and names what it gives. *)
Ltac wp_call Hspec :=
  apply wp_bind; eapply wp_mono; [apply Hspec|].

Lemma build_mock_data_spec E seed_ c w :
  build_safe E c (w_clock w) →
  wp E (build_mock_data seed_ c) (fun d _ => dataset_ok c (w_clock w) d) w.
Proof.
  intros Hsafe. unfold build_mock_data.
  assert (overflow_safe E (w_clock w)) as Hov.
  { destruct Hsafe as [?|[? _]]; [by left|by right]. }
  apply wp_bind, wp_seed. apply wp_bind, wp_new_IdFactory.
  wp_call gen_orgs_spec. intros orgs w1 Hc1 [Horg Horgs].
  wp_call gen_users_spec. intros users w2 Hc2 [Husr Husers].
  wp_call gen_projects_spec. intros projects w3 Hc3 [Hprj Hprojects].
  wp_call gen_dashboards_spec. intros dashboards w4 Hc4 [Hdb Hdashboards].
  wp_call gen_metrics_spec. intros metrics w5 Hc5 [Hm Hmetrics].
  assert (w_clock w5 = w_clock w) as Hw5 by (wsimpl; congruence).
  apply wp_bind. eapply wp_mono.
  { apply gen_metric_samples_spec. rewrite Hw5.
    destruct Hsafe as [?|[Hok Hspm]]; [by left|right].
    split; [apply Hspm|]. specialize (Hok (w_ticks w5)).
    unfold dt_date, US_PER_DAY, MAXORDINAL in *. lia. }
  intros samples w6 Hc6 Hsamples. rewrite Hw5 in Hsamples.
  wp_call gen_widgets_spec. intros widgets w7 Hc7 [Hw Hwidgets].
  assert (w_clock w7 = w_clock w) as Hw7 by congruence.
  apply wp_bind. eapply wp_mono; [apply gen_alerts_spec; by rewrite Hw7|].
  intros alerts w8 Hc8 [Hal Halerts].
  assert (w_clock w8 = w_clock w) as Hw8 by congruence.
  apply wp_bind. eapply wp_mono; [apply gen_incidents_spec; by rewrite Hw8|].
  intros incidents w9 Hc9 [Hinc Hincidents].
  wp_call gen_eval_suites_spec. intros suites w10 Hc10 [Hes Hsuites].
  assert (w_clock w10 = w_clock w) as Hw10 by congruence.
  apply wp_bind. eapply wp_mono; [apply gen_eval_runs_spec; by rewrite Hw10|].
  intros runs w11 Hc11 [Her Hruns].
  wp_call gen_permissions_spec. intros perms w12 Hc12 Hperms.
  wp_call gen_feature_flags_spec. intros flags w13 Hc13 Hflags.
  assert (w_clock w13 = w_clock w) as Hw13 by congruence.
  apply wp_bind. eapply wp_mono; [apply gen_audit_logs_spec; by rewrite Hw13|].
  intros logs w14 Hc14 [Haud Hlogs].
  apply wp_ret.
  split; simpl; eauto using issued_ids_with_prefix.
Qed.
End Build.

(** ** Blocks of records *)

Lemma filter_all {A} (P : A → Prop) `{!∀ x, Decision (P x)} (l : list A) :
  Forall P l → filter P l = l.
Proof.
  induction 1 as [|x l Hx _ IH]; [done|].
  by rewrite filter_cons_True, IH.
Qed.

Lemma filter_none {A} (P : A → Prop) `{!∀ x, Decision (P x)} (l : list A) :
  Forall (fun x => ¬ P x) l → filter P l = [].
Proof.
  induction 1 as [|x l Hx _ IH]; [done|].
  by rewrite filter_cons_False, IH.
Qed.

Section Blocks.
Context {P C : Type}.
Implicit Types (row : P → list C → Prop) (parents : list P) (out : list C).

Lemma blocks_of_length row parents out n :
  (∀ p blk, row p blk → length blk = n) →
  blocks_of row parents out → length out = (length parents * n)%nat.
Proof.
  intros Hn (blocks & -> & Hall).
  induction Hall as [|p blk ps bs Hrow _ IH]; simpl; [done|].
  rewrite length_app, IH. by rewrite (Hn p blk).
Qed.

Lemma blocks_of_Forall row parents out (Q : C → Prop) :
  (∀ p blk, p ∈ parents → row p blk → Forall Q blk) →
  blocks_of row parents out → Forall Q out.
Proof.
  intros HQ (blocks & -> & Hall).
  induction Hall as [|p blk ps bs Hrow _ IH]; simpl; [constructor|].
  apply Forall_app. split.
  - eapply HQ; [left|done].
  - apply IH. intros q b Hq. apply HQ. by right.
Qed.

(** With distinct parent keys, the records carrying the key of a parent are
    the block of that parent. *)
Lemma blocks_of_filter row (kp : P → string) (kc : C → string) parents out :
  NoDup (kp <$> parents) →
  (∀ p blk c, row p blk → c ∈ blk → kc c = kp p) →
  blocks_of row parents out →
  ∀ p, p ∈ parents → row p (filter (fun c => kc c = kp p) out).
Proof.
  intros Hnd Hkey (blocks & -> & Hall).
  induction Hall as [|p0 blk ps bs Hrow Hall IH]; intros p Hp.
  { by apply elem_of_nil in Hp. }
  rewrite fmap_cons in Hnd. apply NoDup_cons in Hnd as [Hp0 Hnd].
  simpl. rewrite filter_app.
  assert (∀ q, q ∈ ps → kp q ≠ kp p0) as Hother.
  { intros q Hq Heq. apply Hp0. rewrite <- Heq. by apply list_elem_of_fmap_2. }
  assert (Forall (fun c => kc c ∈ kp <$> ps) (concat bs)) as Hrest.
  { apply (blocks_of_Forall row ps); [|by exists bs].
    intros q b Hq Hb. apply Forall_forall. intros c Hc.
    rewrite (Hkey q b c Hb Hc). by apply list_elem_of_fmap_2. }
  apply elem_of_cons in Hp as [->|Hp].
  - assert (filter (fun c => kc c = kp p0) blk = blk) as ->.
    { apply filter_all. apply Forall_forall. intros c Hc. by eapply Hkey. }
    assert (filter (fun c => kc c = kp p0) (concat bs) = []) as ->.
    { apply filter_none. eapply Forall_impl; [exact Hrest|].
      intros c Hc Heq. simpl in Hc. rewrite Heq in Hc. done. }
    by rewrite app_nil_r.
  - assert (filter (fun c => kc c = kp p) blk = []) as ->.
    { apply filter_none. apply Forall_forall. intros c Hc Heq.
      rewrite (Hkey p0 blk c Hrow Hc) in Heq. by eapply Hother. }
    simpl. by apply IH.
Qed.

Lemma blocks_of_impl row (row' : P → list C → Prop) parents out :
  (∀ p blk, row p blk → row' p blk) →
  blocks_of row parents out → blocks_of row' parents out.
Proof.
  intros Himp (blocks & -> & Hall). exists blocks. split; [done|].
  eapply Forall2_impl; [exact Hall|]. auto.
Qed.

(** When every block keeps exactly one record satisfying [Q], as many
    records satisfy [Q] as there are parents. *)
Lemma blocks_of_count row parents out (Q : C → Prop) `{!∀ x, Decision (Q x)} :
  (∀ p blk, row p blk → length (filter Q blk) = 1%nat) →
  blocks_of row parents out → length (filter Q out) = length parents.
Proof.
  intros Hone (blocks & -> & Hall).
  induction Hall as [|p blk ps bs Hrow _ IH]; simpl; [done|].
  rewrite filter_app, length_app, IH. by rewrite (Hone p blk).
Qed.
End Blocks.

Lemma NoDup_fmap_eq {A} (key : A → string) (l : list A) x y :
  NoDup (key <$> l) → x ∈ l → y ∈ l → key x = key y → x = y.
Proof.
  intros Hnd Hx Hy Heq.
  apply list_elem_of_lookup in Hx as [i Hi]. apply list_elem_of_lookup in Hy as [j Hj].
  assert (i = j) as ->.
  { eapply NoDup_lookup; [exact Hnd| |].
    - rewrite list_lookup_fmap, Hi. done.
    - rewrite list_lookup_fmap, Hj. simpl. by rewrite Heq. }
  congruence.
Qed.

Lemma the_one_intro {A} (key : A → string) (l : list A) x :
  NoDup (key <$> l) → x ∈ l → the_one key l (key x) x.
Proof.
  intros Hnd Hx. split_and!; [done|done|].
  intros y Hy Heq. by eapply NoDup_fmap_eq.
Qed.

(** ** Successive calls of [IdFactory.next] *)

Section Issue.
Implicit Types (p q : string) (ps : list string) (idf : IdFactory.t).

Lemma issue_cons p ps idf :
  issue (p :: ps) idf
  = ((IdFactory.next p idf).1 :: (issue ps (IdFactory.next p idf).2).1,
     (issue ps (IdFactory.next p idf).2).2).
Proof.
  cbn [issue]. destruct (IdFactory.next p idf) as [id idf1]. cbn [fst snd].
  by destruct (issue ps idf1).
Qed.

Lemma issue_length ps idf : length (issue ps idf).1 = length ps.
Proof.
  revert idf. induction ps as [|p ps IH]; intros idf; [done|].
  rewrite issue_cons. simpl. by rewrite IH.
Qed.

Lemma occurrences_cons p q ps :
  occurrences p (q :: ps) = (if decide (q = p) then 1 else 0) + occurrences p ps.
Proof.
  unfold occurrences, len. rewrite filter_cons.
  destruct (decide (q = p)); simpl; lia.
Qed.

(** The [i]-th call, made for prefix [p], returns [p] with the number of
    calls made for [p] so far, this one included, added to the count the
    factory started from. *)
Lemma issue_lookup ps idf i p :
  ps !! i = Some p →
  (issue ps idf).1 !! i
  = Some (IdFactory.fmt p (IdFactory.get idf p + 1 + occurrences p (take i ps))).
Proof.
  revert idf i. induction ps as [|q ps IH]; intros idf i Hi; [done|].
  rewrite issue_cons. destruct i as [|i]; cbn [fst]; rewrite lookup_cons.
  - injection Hi as ->. rewrite next_id. do 2 f_equal.
    unfold occurrences, len. simpl. lia.
  - rewrite lookup_cons in Hi. rewrite (IH _ _ Hi), firstn_cons. do 2 f_equal. rewrite occurrences_cons.
    destruct (decide (q = p)) as [->|Hne].
    + rewrite get_next_same. lia.
    + rewrite get_next_other by done. lia.
Qed.

Lemma occurrences_take_lt p ps i j :
  ps !! i = Some p → (i < j)%nat →
  occurrences p (take i ps) < occurrences p (take j ps).
Proof.
  intros Hi Hij. unfold occurrences, len.
  assert (take j ps = take i ps ++ p :: drop (S i) (take j ps)) as ->.
  { rewrite <- (take_drop i (take j ps)) at 1. rewrite take_take.
    replace (i `min` j)%nat with i by lia. f_equal.
    apply drop_S. rewrite lookup_take_lt by done. done. }
  rewrite filter_app, filter_cons_True by done.
  rewrite length_app. simpl. lia.
Qed.

(** Whatever factory the calls start from, no identifier is returned
    twice. *)
Lemma issue_NoDup ps idf : NoDup (issue ps idf).1.
Proof.
  apply NoDup_alt. intros i j x Hi Hj.
  destruct (ps !! i) as [p|] eqn:Hpi; cycle 1.
  { apply lookup_ge_None in Hpi. apply lookup_lt_Some in Hi.
    rewrite issue_length in Hi. lia. }
  destruct (ps !! j) as [q|] eqn:Hpj; cycle 1.
  { apply lookup_ge_None in Hpj. apply lookup_lt_Some in Hj.
    rewrite issue_length in Hj. lia. }
  rewrite (issue_lookup _ _ _ _ Hpi) in Hi. rewrite (issue_lookup _ _ _ _ Hpj) in Hj.
  injection Hi as <-. injection Hj as Heq. apply fmt_inj in Heq as [-> Heq].
  destruct (Nat.lt_trichotomy i j) as [Hlt|[->|Hlt]]; [|done|].
  - pose proof (occurrences_take_lt _ _ _ _ Hpi Hlt). lia.
  - pose proof (occurrences_take_lt _ _ _ _ Hpj Hlt). lia.
Qed.
End Issue.

Lemma elem_of_concat {A} (x : A) (ls : list (list A)) :
  x ∈ concat ls → ∃ l, x ∈ l ∧ l ∈ ls.
Proof.
  induction ls as [|l ls IH]; simpl; [by intros ?%elem_of_nil|].
  intros [Hx|Hx]%elem_of_app.
  - exists l. split; [done|left].
  - destruct (IH Hx) as (l' & Hl' & Hin). exists l'. split; [done|by right].
Qed.

(** Identifiers of different prefixes are different. *)
Lemma ids_with_prefix_disjoint p q l1 l2 s :
  p ≠ q → ids_with_prefix p l1 → ids_with_prefix q l2 → s ∈ l1 → s ∈ l2 → False.
Proof.
  intros Hne [_ H1] [_ H2] Hs1 Hs2.
  destruct (H1 s Hs1) as [k ->]. destruct (H2 _ Hs2) as [k' Heq].
  by apply fmt_inj in Heq as [? _].
Qed.

(** Collections of identifiers with pairwise different prefixes, put end to
    end, hold no identifier twice. *)
Lemma NoDup_prefixed (groups : list (string * list string)) :
  NoDup groups.*1 →
  Forall (fun g => ids_with_prefix g.1 g.2) groups →
  NoDup (concat groups.*2).
Proof.
  induction groups as [|[p ids] groups IH]; intros Hnd Hall; simpl.
  { constructor. }
  rewrite fmap_cons in Hnd. apply NoDup_cons in Hnd as [Hp Hnd].
  apply Forall_cons in Hall as [Hids Hall]. simpl in *.
  apply NoDup_app. split_and!; [apply Hids| |by apply IH].
  intros s Hs Hs'. apply elem_of_concat in Hs' as (l & Hsl & Hl).
  apply list_elem_of_fmap in Hl as ([q ids'] & -> & Hg). simpl in *.
  pose proof (proj1 (Forall_forall _ _) Hall _ Hg) as Hq. simpl in Hq.
  eapply (ids_with_prefix_disjoint p q); [|done|done|done|done].
  intros ->. apply Hp. by apply (list_elem_of_fmap_2 fst) in Hg.
Qed.

(** ** From the generators to the claims *)

Section Claims.
Context {G : Type} `{!RandomGen G}.
Implicit Types (w : World G) (d : MockData) (c : Config).

(** What holds of every data set that a run returns. *)
Lemma build_returned seed_ c w d w' :
  build_mock_data seed_ c w = Ok (d, w') → dataset_ok c (w_clock w) d.
Proof.
  intros Hrun.
  apply (wp_returned any_exn _ _ _ _ _ (build_mock_data_spec any_exn seed_ c w
           (or_introl I)) Hrun).
Qed.

Lemma users_in_orgs c clock d :
  dataset_ok c clock d → Forall (fun u => usr_org_id u ∈ org_id <$> orgs d) (users d).
Proof.
  intros Hok. eapply blocks_of_Forall; [|apply (ok_users _ _ _ Hok)].
  intros org blk Horg (_ & Hblk & _). apply Forall_forall. intros u Hu.
  rewrite (Hblk u Hu). by apply list_elem_of_fmap_2.
Qed.

Lemma dataset_ok_integrity c clock d :
  dataset_ok c clock d → referential_integrity d.
Proof.
  intros Hok. pose proof (users_in_orgs _ _ _ Hok) as Husers. split.
  - done.
  - apply (ok_projects _ _ _ Hok).
  - eapply Forall_impl; [apply (ok_dashboards _ _ _ Hok)|].
    intros x (prj & Hprj & Hid & Hown). split.
    + rewrite Hid. by apply list_elem_of_fmap_2.
    + intros uid Huid. destruct (Hown uid Huid) as (u & Hu & <- & _).
      by apply list_elem_of_fmap_2.
  - apply (ok_metrics _ _ _ Hok).
  - destruct (ok_samples _ _ _ Hok) as [i Hblk].
    eapply blocks_of_Forall; [|exact Hblk].
    intros m blk Hm [_ Hrows]. apply Forall_forall. intros s Hs.
    apply list_elem_of_lookup in Hs as [j Hj].
    destruct (Hrows j s Hj) as [-> _]. by apply list_elem_of_fmap_2.
  - eapply Forall_impl; [apply (ok_widgets _ _ _ Hok)|].
    intros x (db & Hdb & Hid & Hm). split.
    + rewrite Hid. by apply list_elem_of_fmap_2.
    + intros mid Hmid. destruct (Hm mid Hmid) as (m & Hin & <- & _).
      by apply list_elem_of_fmap_2.
  - eapply Forall_impl; [apply (ok_alerts _ _ _ Hok)|].
    intros a [Hprj Hm]. split; [done|].
    intros mid Hmid. destruct (Hm mid Hmid) as (m & Hin & <- & _).
    by apply list_elem_of_fmap_2.
  - eapply Forall_impl; [apply (ok_incidents _ _ _ Hok)|]. by intros i [? _].
  - apply (ok_suites _ _ _ Hok).
  - apply (ok_runs _ _ _ Hok).
  - eapply blocks_of_Forall; [|apply (ok_permissions _ _ _ Hok)].
    intros u blk Hu [_ Hrows]. apply Forall_forall. intros p Hp.
    destruct (Hrows p Hp) as (-> & prj & Hprj & -> & _).
    split; by apply list_elem_of_fmap_2.
  - apply (ok_flags _ _ _ Hok).
  - eapply Forall_impl; [apply (ok_audit _ _ _ Hok)|].
    intros l (Hactor & Hnone & Htarget). split_and!; [| |done].
    + intros o Ho. destruct (aud_actor_user_id l) as [uid|] eqn:Hact.
      * destruct (Hactor uid eq_refl) as (u & Hu & _ & Horg).
        rewrite Horg in Ho. injection Ho as <-.
        by apply (proj1 (Forall_forall _ _) Husers).
      * destruct (Hnone eq_refl) as [_ Horg]. rewrite Horg in Ho.
        destruct (orgs d) as [|o0 os]; [done|]. injection Ho as <-. by left.
    + intros uid Huid. destruct (Hactor uid Huid) as (u & Hu & <- & _).
      by apply list_elem_of_fmap_2.
Qed.

Lemma dataset_ok_all_ids c clock d : dataset_ok c clock d → NoDup (all_ids d).
Proof.
  intros Hok.
  pose proof (NoDup_prefixed
    [("org", org_id <$> orgs d); ("usr", usr_id <$> users d);
     ("prj", prj_id <$> projects d); ("db", db_id <$> dashboards d);
     ("w", w_id <$> widgets d); ("m", m_id <$> metrics d);
     ("al", al_id <$> alerts d); ("inc", inc_id <$> incidents d);
     ("es", es_id <$> eval_suites d); ("er", er_id <$> eval_runs d);
     ("aud", aud_id <$> audit_logs d)]) as Hnd.
  simpl in Hnd. rewrite app_nil_r in Hnd. apply Hnd.
  - by apply (bool_decide_unpack _).
  - destruct Hok. repeat (constructor; [done|]). constructor.
Qed.

Lemma dataset_ok_scoped c clock d :
  dataset_ok c clock d → scoped_consistency d.
Proof.
  intros Hok.
  destruct (ok_m_ids _ _ _ Hok) as [Hm _]. destruct (ok_db_ids _ _ _ Hok) as [Hdb _].
  destruct (ok_usr_ids _ _ _ Hok) as [Husr _]. destruct (ok_prj_ids _ _ _ Hok) as [Hprj _].
  split.
  - intros x mid Hx Hmid.
    destruct (proj1 (Forall_forall _ _) (ok_widgets _ _ _ Hok) x Hx)
      as (db & Hin & Hid & Hmet).
    destruct (Hmet mid Hmid) as (m & Hmin & <- & Hp).
    exists m, db. split_and!; [by apply the_one_intro| |done].
    rewrite Hid. by apply the_one_intro.
  - intros x uid Hx Huid.
    destruct (proj1 (Forall_forall _ _) (ok_dashboards _ _ _ Hok) x Hx)
      as (prj & Hin & Hid & Hown).
    destruct (Hown uid Huid) as (u & Hu & <- & Horg).
    exists u, prj. split_and!; [by apply the_one_intro| |done].
    rewrite Hid. by apply the_one_intro.
  - intros a mid Ha Hmid.
    destruct (proj1 (Forall_forall _ _) (ok_alerts _ _ _ Hok) a Ha) as [_ Hmet].
    destruct (Hmet mid Hmid) as (m & Hmin & <- & Hp).
    exists m. split; [by apply the_one_intro|done].
Qed.

(** The first user of a non-empty block is its administrator, and the only
    one. *)
Lemma user_rows_head org n blk :
  user_rows org (S n) blk →
  ∃ u rest, blk = u :: rest ∧ is_admin u ∧ Forall (fun v => ¬ is_admin v) rest.
Proof.
  intros (Hlen & _ & Hrole). destruct blk as [|u rest]; [done|].
  exists u, rest. split_and!; [done|by apply (Hrole 0%nat)|].
  apply Forall_lookup. intros j v Hj Hadm.
  by apply (Hrole (S j) v) in Hadm.
Qed.

Lemma user_rows_one_admin org n blk :
  user_rows org (S n) blk → length (filter is_admin blk) = 1%nat.
Proof.
  intros (u & rest & -> & Hu & Hrest)%user_rows_head.
  rewrite filter_cons_True by done. by rewrite filter_none.
Qed.

Lemma dataset_ok_users c clock d :
  dataset_ok c clock d → 0 ≤ orgs_count c → 1 ≤ users_per_org c →
  len (users d) = orgs_count c * users_per_org c
  ∧ len (filter is_admin (users d)) = orgs_count c
  ∧ ∀ o, o ∈ orgs d →
      ∃ u rest, org_users (users d) o = u :: rest ∧ is_admin u
                ∧ Forall (fun v => ¬ is_admin v) rest.
Proof.
  intros Hok Hn Hk. pose proof (ok_users _ _ _ Hok) as Hblk.
  pose proof (ok_orgs _ _ _ Hok) as Hlen.
  destruct (Z.to_nat (users_per_org c)) as [|k'] eqn:Hk'; [lia|].
  split_and!.
  - assert (length (users d) = (length (orgs d) * S k')%nat) as Hl.
    { eapply blocks_of_length; [|exact Hblk]. by intros ? ? [? _]. }
    unfold len. lia.
  - assert (length (filter is_admin (users d)) = length (orgs d)) as Hl.
    { eapply blocks_of_count; [|exact Hblk].
      intros ? ?. apply user_rows_one_admin. }
    unfold len. lia.
  - intros o Ho. apply (user_rows_head o k').
    apply (blocks_of_filter (fun org => user_rows org (S k')) org_id usr_org_id
             (orgs d) (users d)); [| |exact Hblk|exact Ho].
    + apply (ok_org_ids _ _ _ Hok).
    + intros p blk u (_ & Hin & _) Hu. by apply Hin.
Qed.

Lemma dataset_ok_permissions c clock d :
  dataset_ok c clock d → 0 ≤ permissions_per_user c →
  ∀ u, u ∈ users d →
    len (user_permissions (permissions d) u)
    = Z.min (permissions_per_user c) (len (org_projects (projects d) u)).
Proof.
  intros Hok Hk u Hu.
  assert (perm_rows (projects d) u
            (Z.to_nat (Z.min (permissions_per_user c)
                         (len (org_projects (projects d) u))))
            (user_permissions (permissions d) u)) as [Hlen _].
  { apply (blocks_of_filter
             (fun u => perm_rows (projects d) u
                         (Z.to_nat (Z.min (permissions_per_user c)
                                      (len (org_projects (projects d) u)))))
             usr_id perm_user_id (users d) (permissions d));
      [| |exact (ok_permissions _ _ _ Hok)|exact Hu].
    - apply (ok_usr_ids _ _ _ Hok).
    - intros p blk x [_ Hin] Hx. by destruct (Hin x Hx). }
  unfold len in *. rewrite Hlen. lia.
Qed.

Lemma sample_rows_series today total m blk :
  1 ≤ total → sample_rows today total m (Z.to_nat total) blk →
  metric_series today total m blk.
Proof.
  intros Ht [Hlen Hrows]. split_and!.
  - unfold len. lia.
  - apply Forall_lookup. intros j s Hj. by destruct (Hrows j s Hj).
  - split.
    + rewrite last_lookup, length_fmap, Hlen, list_lookup_fmap.
      destruct (blk !! Nat.pred (Z.to_nat total)) as [s|] eqn:Hs.
      * destruct (Hrows _ _ Hs) as [_ Hd]. simpl. rewrite Hd. do 2 f_equal. lia.
      * apply lookup_ge_None in Hs. lia.
    + intros j a b Ha Hb. rewrite list_lookup_fmap in Ha, Hb.
      destruct (blk !! j) as [s|] eqn:Hs; [|done].
      destruct (blk !! S j) as [s'|] eqn:Hs'; [|done].
      destruct (Hrows _ _ Hs) as [_ Hd]. destruct (Hrows _ _ Hs') as [_ Hd'].
      simpl in Ha, Hb. rewrite Hd in Ha. rewrite Hd' in Hb.
      injection Ha as <-. injection Hb as <-. lia.
Qed.
End Claims.

(** ** Negative counts *)

Lemma range_clamp n : range (Z.max 0 n) = range n.
Proof.
  unfold range. destruct (Z.le_gt_cases n 0).
  - rewrite !seqZ_nil by lia. done.
  - by replace (Z.max 0 n) with n by lia.
Qed.

Lemma range_min_clamp {A} n (l : list A) :
  range (Z.min (Z.max 0 n) (len l)) = range (Z.min n (len l)).
Proof.
  unfold range, len. destruct (Z.le_gt_cases n 0).
  - rewrite !seqZ_nil by lia. done.
  - by replace (Z.max 0 n) with n by lia.
Qed.

Section Clamp.
Context {G : Type} `{!RandomGen G}.
Implicit Types (w : World G).

Lemma bind_cong {A B} (m1 m2 : M G A) (k1 k2 : A → M G B) w :
  m1 w = m2 w → (∀ a w', k1 a w' = k2 a w') → bind m1 k1 w = bind m2 k2 w.
Proof.
  intros Hm Hk. unfold bind. rewrite Hm.
  destruct (m2 w) as [[a w']|e]; [apply Hk|done].
Qed.

Lemma for_cong {X S} (xs : list X) (body1 body2 : X → S → M G S) s w :
  (∀ x s' w', body1 x s' w' = body2 x s' w') →
  for_ xs body1 s w = for_ xs body2 s w.
Proof.
  intros Hbody. revert s w. induction xs as [|x xs IH]; intros s w; [done|].
  cbn [for_]. apply bind_cong; [apply Hbody|apply IH].
Qed.

Lemma gen_metric_samples_clamp metrics spm :
  gen_metric_samples metrics (Z.max 0 spm) = gen_metric_samples metrics spm.
Proof.
  destruct (Z.le_gt_cases 0 spm).
  - by replace (Z.max 0 spm) with spm by lia.
  - unfold gen_metric_samples, range. rewrite !seqZ_nil by lia. done.
Qed.

Lemma gen_permissions_clamp projects users k w :
  gen_permissions projects users (Z.max 0 k) w = gen_permissions projects users k w.
Proof.
  unfold gen_permissions. apply for_cong. intros u perms w'.
  by rewrite range_min_clamp.
Qed.

(** A run over a configuration is the run over the configuration with its
    negative counts replaced by 0. *)
Lemma build_mock_data_clamp seed_ c w :
  build_mock_data seed_ (clamp c) w = build_mock_data seed_ c w.
Proof.
  unfold build_mock_data, clamp. cbn [orgs_count users_per_org projects_per_org
    dashboards_per_project widgets_per_dashboard metrics_per_project
    samples_per_metric alerts_per_project incidents_per_alert suites_per_project
    runs_per_suite permissions_per_user feature_flags_count audit_logs_count].
  unfold gen_orgs, gen_users, gen_projects, gen_dashboards, gen_metrics,
    gen_widgets, gen_alerts, gen_incidents, gen_eval_suites, gen_eval_runs,
    gen_feature_flags, gen_audit_logs.
  rewrite !range_clamp.
  repeat (apply bind_cong; [reflexivity|]; intros ? ?).
  apply bind_cong; [by rewrite gen_metric_samples_clamp|]. intros ? ?.
  repeat (apply bind_cong; [reflexivity|]; intros ? ?).
  apply bind_cong; [apply gen_permissions_clamp|]. intros ? ?.
  reflexivity.
Qed.
End Clamp.

(** ** Two runs of the same code *)


Section Relational.
Context {G : Type} `{!RandomGen G}.
Implicit Types (w : World G).

Lemma same_draws_refl w : same_draws w w.
Proof. by split. Qed.

Lemma rwp_ret {A B} (a : A) (b : B) (R : A → B → Prop) w1 w2 :
  same_draws w1 w2 → R a b → rwp (ret a) (ret b) R w1 w2.
Proof. intros Hw HR. unfold rwp, ret. auto. Qed.

Lemma rwp_bind {A B A' B'} (m1 : M G A) (m2 : M G B) (k1 : A → M G A')
    (k2 : B → M G B') (R' : A → B → Prop) (R : A' → B' → Prop) w1 w2 :
  rwp m1 m2 R' w1 w2 →
  (∀ a b w1' w2', same_draws w1' w2' → R' a b → rwp (k1 a) (k2 b) R w1' w2') →
  rwp (bind m1 k1) (bind m2 k2) R w1 w2.
Proof.
  unfold rwp, bind. intros Hm Hk.
  destruct (m1 w1) as [[a w1']|e1]; [|done].
  destruct (m2 w2) as [[b w2']|e2]; [|by destruct (k1 a w1') as [[? ?]|]].
  destruct Hm as [Hw HR]. apply (Hk a b w1' w2' Hw HR).
Qed.

Lemma rwp_mono {A B} (m1 : M G A) (m2 : M G B) (R R' : A → B → Prop) w1 w2 :
  rwp m1 m2 R w1 w2 → (∀ a b, R a b → R' a b) → rwp m1 m2 R' w1 w2.
Proof.
  unfold rwp. intros Hm Himp.
  destruct (m1 w1) as [[a w1']|e1]; [|done].
  destruct (m2 w2) as [[b w2']|e2]; [|done].
  destruct Hm. auto.
Qed.

(** What a relation between two runs says once both have returned. *)
Lemma rwp_returned {A B} (m1 : M G A) (m2 : M G B) (R : A → B → Prop)
    w1 w2 a w1' b w2' :
  rwp m1 m2 R w1 w2 → m1 w1 = Ok (a, w1') → m2 w2 = Ok (b, w2') → R a b.
Proof. unfold rwp. intros Hm H1 H2. rewrite H1, H2 in Hm. tauto. Qed.

Lemma rwp_for {X Y S T} (RX : X → Y → Prop) (RS : S → T → Prop)
    (xs : list X) (ys : list Y) (body1 : X → S → M G S) (body2 : Y → T → M G T)
    s t w1 w2 :
  Forall2 RX xs ys → same_draws w1 w2 → RS s t →
  (∀ x y s' t' w1' w2', RX x y → RS s' t' → same_draws w1' w2' →
     rwp (body1 x s') (body2 y t') RS w1' w2') →
  rwp (for_ xs body1 s) (for_ ys body2 t) RS w1 w2.
Proof.
  intros Hxs Hw Hs Hbody. revert s t w1 w2 Hw Hs.
  induction Hxs as [|x y xs ys Hxy _ IH]; intros s t w1 w2 Hw Hs; cbn [for_].
  - by apply rwp_ret.
  - eapply rwp_bind; [by apply Hbody|].
    intros s' t' w1' w2' Hw' Hs'. by apply IH.
Qed.

(** *** Computations that do not read the clock *)

Lemma clock_free_ret {A} (a : A) : clock_free (ret a : M G A).
Proof. intros w1 w2 Hw. by apply rwp_ret. Qed.

Lemma clock_free_raise {A} e : clock_free (raise e : M G A).
Proof. by intros w1 w2 Hw. Qed.

Lemma clock_free_bind {A B} (m : M G A) (k : A → M G B) :
  clock_free m → (∀ a, clock_free (k a)) → clock_free (bind m k).
Proof.
  intros Hm Hk w1 w2 Hw. eapply rwp_bind; [by apply Hm|].
  intros a b w1' w2' Hw' <-. by apply Hk.
Qed.

Lemma clock_free_for {X S} (xs : list X) (body : X → S → M G S) s :
  (∀ x s', clock_free (body x s')) → clock_free (for_ xs body s).
Proof.
  intros Hbody w1 w2 Hw.
  apply (rwp_for eq eq); [|done|done|].
  { apply Forall_Forall2_diag, Forall_forall. by intros. }
  intros x y s' t' w1' w2' <- <- Hw'. by apply Hbody.
Qed.

Lemma retry_S {A} budget (cond : A → bool) (draw : M G A) cur :
  retry (S budget) cond draw cur
  = if cond cur then x <- draw ;; retry budget cond draw x else ret cur.
Proof. reflexivity. Qed.

Lemma clock_free_retry {A} budget (cond : A → bool) (draw : M G A) cur :
  clock_free draw → clock_free (retry budget cond draw cur).
Proof.
  intros Hdraw. revert cur. induction budget as [|b IH]; intros cur.
  - apply clock_free_ret.
  - rewrite retry_S. destruct (cond cur); [|apply clock_free_ret].
    apply clock_free_bind; [done|]. intros x. apply IH.
Qed.

Lemma clock_free_random : clock_free random.
Proof.
  intros w1 w2 [Hg Hi]. unfold rwp, random. rewrite Hg.
  destruct (rng_random (w_rng w2)) as [r g]. by rewrite Hi.
Qed.

Lemma clock_free_randbelow n : clock_free (randbelow n).
Proof.
  intros w1 w2 [Hg Hi]. unfold rwp, randbelow. rewrite Hg.
  destruct (rng_randbelow n (w_rng w2)) as [r g]. by rewrite Hi.
Qed.

Lemma clock_free_idf_next prefix : clock_free (G:=G) (idf_next prefix).
Proof.
  intros w1 w2 [Hg Hi]. unfold rwp, idf_next. rewrite Hi.
  destruct (IdFactory.next prefix (w_idf w2)) as [id idf]. by rewrite Hg.
Qed.

Lemma clock_free_subscript {A} (l : list A) i : clock_free (G:=G) (subscript l i).
Proof.
  unfold subscript. destruct (_ <? 0); [apply clock_free_raise|].
  destruct (l !! _); [apply clock_free_ret|apply clock_free_raise].
Qed.

Lemma clock_free_pymod a b : clock_free (G:=G) (pymod a b).
Proof.
  unfold pymod. destruct (b =? 0); [apply clock_free_raise|apply clock_free_ret].
Qed.

Lemma clock_free_timedelta days minutes : clock_free (G:=G) (timedelta days minutes).
Proof.
  unfold timedelta. destruct (_ >? _); [apply clock_free_raise|apply clock_free_ret].
Qed.
End Relational.

Create HintDb clock_free.

Global Hint Resolve clock_free_ret clock_free_raise clock_free_random
  clock_free_randbelow clock_free_idf_next clock_free_subscript clock_free_pymod
  clock_free_timedelta : clock_free.

(** Proves [clock_free m] by following the structure of [m]. *)
Ltac clock_free_step :=
  lazymatch goal with
  | |- clock_free (bind _ _) => apply clock_free_bind; [|intros ?]
  | |- clock_free (for_ _ _ _) => apply clock_free_for; intros ? ?
  | |- clock_free (retry _ _ _ _) => apply clock_free_retry
  | |- clock_free (if ?b then _ else _) => destruct b
  | |- clock_free (match ?x with (_, _) => _ end) => destruct x
  | |- clock_free (match ?x with [] => _ | _ :: _ => _ end) => destruct x
  | |- clock_free _ => solve [auto with clock_free]
  end.

Section ClockFree.
Context {G : Type} `{!RandomGen G}.

Lemma clock_free_choice {A} (seq : list A) : clock_free (choice seq).
Proof. unfold choice. repeat clock_free_step. Qed.

Lemma clock_free_pick {A} (seq : list A) : clock_free (pick seq).
Proof. apply clock_free_choice. Qed.

Lemma clock_free_shuffle {A} (x : list A) : clock_free (shuffle x).
Proof. unfold shuffle. repeat clock_free_step. Qed.

Lemma clock_free_randint a b : clock_free (randint a b).
Proof. unfold randint. repeat clock_free_step. Qed.

Lemma clock_free_uniform a b : clock_free (uniform a b).
Proof. unfold uniform. repeat clock_free_step. Qed.

Lemma clock_free_sample {A} (population : list A) k :
  clock_free (sample population k).
Proof. unfold sample. repeat clock_free_step. Qed.
End ClockFree.

Global Hint Resolve clock_free_choice clock_free_pick clock_free_shuffle
  clock_free_randint clock_free_uniform clock_free_sample : clock_free.

Section ClockFreeGenerators.
Context {G : Type} `{!RandomGen G}.

Lemma clock_free_gen_orgs n : clock_free (gen_orgs n).
Proof. unfold gen_orgs. repeat clock_free_step. Qed.

Lemma clock_free_gen_users orgs k : clock_free (gen_users orgs k).
Proof. unfold gen_users. repeat clock_free_step. Qed.

Lemma clock_free_gen_projects orgs k : clock_free (gen_projects orgs k).
Proof. unfold gen_projects. repeat clock_free_step. Qed.

Lemma clock_free_gen_dashboards projects users k :
  clock_free (gen_dashboards projects users k).
Proof. unfold gen_dashboards. repeat clock_free_step. Qed.

Lemma clock_free_gen_metrics projects k : clock_free (gen_metrics projects k).
Proof. unfold gen_metrics. repeat clock_free_step. Qed.

Lemma clock_free_gen_widgets dashboards metrics k :
  clock_free (gen_widgets dashboards metrics k).
Proof. unfold gen_widgets. repeat clock_free_step. Qed.

Lemma clock_free_gen_eval_suites projects k :
  clock_free (gen_eval_suites projects k).
Proof. unfold gen_eval_suites. repeat clock_free_step. Qed.

Lemma clock_free_gen_permissions projects users k :
  clock_free (gen_permissions projects users k).
Proof. unfold gen_permissions, grant_permission. repeat clock_free_step. Qed.

Lemma clock_free_gen_feature_flags orgs n :
  clock_free (gen_feature_flags orgs n).
Proof. unfold gen_feature_flags. repeat clock_free_step. Qed.
End ClockFreeGenerators.

Global Hint Resolve clock_free_gen_orgs clock_free_gen_users
  clock_free_gen_projects clock_free_gen_dashboards clock_free_gen_metrics
  clock_free_gen_widgets clock_free_gen_eval_suites clock_free_gen_permissions
  clock_free_gen_feature_flags : clock_free.

(** *** Computations that read the clock *)

Section ClockReaders.
Context {G : Type} `{!RandomGen G}.
Implicit Types (w : World G).

Definition unrelated {A B} : A → B → Prop := fun _ _ => True.

Lemma rwp_now_utc w1 w2 :
  same_draws w1 w2 → rwp now_utc now_utc unrelated w1 w2.
Proof. intros [Hg Hi]. unfold rwp, now_utc. by split. Qed.

Lemma rwp_datetime_sub a b d1 d2 w1 w2 :
  same_draws w1 w2 → rwp (datetime_sub a d1) (datetime_sub b d2) unrelated w1 w2.
Proof.
  intros Hw. unfold rwp, datetime_sub, ret, raise.
  by repeat case_match; simplify_eq.
Qed.

Lemma rwp_datetime_add a b d1 d2 w1 w2 :
  same_draws w1 w2 → rwp (datetime_add a d1) (datetime_add b d2) unrelated w1 w2.
Proof.
  intros Hw. unfold rwp, datetime_add, ret, raise.
  by repeat case_match; simplify_eq.
Qed.

Lemma rwp_date_sub a b d1 d2 w1 w2 :
  same_draws w1 w2 → rwp (date_sub a d1) (date_sub b d2) unrelated w1 w2.
Proof.
  intros Hw. unfold rwp, date_sub, ret, raise.
  by repeat case_match; simplify_eq.
Qed.

Lemma rwp_clock_free {A} (m : M G A) w1 w2 :
  clock_free m → same_draws w1 w2 → rwp m m eq w1 w2.
Proof. intros Hm Hw. by apply Hm. Qed.
End ClockReaders.

(** One step of two runs of the same code: the operation at the head either
    reads the clock, and what it returns is left unrelated, or it does not,
    and it returns the same value in both runs. *)
Ltac rwp_step :=
  lazymatch goal with
  | |- rwp (bind now_utc _) (bind now_utc _) _ _ _ =>
      eapply rwp_bind; [by apply rwp_now_utc|intros ? ? ? ? ? _]
  | |- rwp (bind (datetime_sub _ _) _) (bind (datetime_sub _ _) _) _ _ _ =>
      eapply rwp_bind; [by apply rwp_datetime_sub|intros ? ? ? ? ? _]
  | |- rwp (bind (datetime_add _ _) _) (bind (datetime_add _ _) _) _ _ _ =>
      eapply rwp_bind; [by apply rwp_datetime_add|intros ? ? ? ? ? _]
  | |- rwp (bind (date_sub _ _) _) (bind (date_sub _ _) _) _ _ _ =>
      eapply rwp_bind; [by apply rwp_date_sub|intros ? ? ? ? ? _]
  | |- rwp (bind ?m _) (bind ?m _) _ _ _ =>
      eapply rwp_bind;
      [apply rwp_clock_free; [repeat clock_free_step|done]
      |intros ? ? ? ? ? <-]
  | |- rwp (ret _) (ret _) _ _ _ => apply rwp_ret; [done|]
  | |- rwp (if ?b then _ else _) (if ?b then _ else _) _ _ _ => destruct b
  | |- rwp (match ?x with (_, _) => _ end) (match ?x with (_, _) => _ end) _ _ _ =>
      destruct x
  end.

Section ClockReadingGenerators.
Context {G : Type} `{!RandomGen G}.
Implicit Types (w : World G).

(** Two lists of records equal once [mask] is applied stay so when each
    gets one more record, the two new records being equal under [mask]. *)
Lemma masked_snoc {A} (mask : A → A) (l1 l2 : list A) x1 x2 :
  mask <$> l1 = mask <$> l2 → mask x1 = mask x2 →
  mask <$> (l1 ++ [x1]) = mask <$> (l2 ++ [x2]).
Proof. intros Hl Hx. rewrite !fmap_app. simpl. by rewrite Hl, Hx. Qed.

Lemma Forall2_diag {A} (l : list A) : Forall2 eq l l.
Proof. apply Forall_Forall2_diag, Forall_forall. by intros. Qed.

Lemma rwp_gen_metric_samples metrics spm w1 w2 :
  same_draws w1 w2 →
  rwp (gen_metric_samples metrics spm) (gen_metric_samples metrics spm)
    (fun o1 o2 => mask_sample <$> o1 = mask_sample <$> o2) w1 w2.
Proof.
  intros Hw. unfold gen_metric_samples. rwp_step.
  apply (rwp_for eq); [apply Forall2_diag|done|done|].
  intros m ? s1 s2 wa wb <- Hs Hw'.
  apply (rwp_for eq); [apply Forall2_diag|done|done|].
  intros i ? s1' s2' wc wd <- Hs' Hw''.
  repeat rwp_step. by apply masked_snoc.
Qed.

Lemma rwp_gen_alerts projects metrics k w1 w2 :
  same_draws w1 w2 →
  rwp (gen_alerts projects metrics k) (gen_alerts projects metrics k)
    (fun o1 o2 => mask_alert <$> o1 = mask_alert <$> o2) w1 w2.
Proof.
  intros Hw. unfold gen_alerts.
  apply (rwp_for eq); [apply Forall2_diag|done|done|].
  intros prj ? s1 s2 wa wb <- Hs Hw'.
  apply (rwp_for eq); [apply Forall2_diag|done|done|].
  intros i ? s1' s2' wc wd <- Hs' Hw''.
  repeat rwp_step. apply masked_snoc; [done|].
  unfold mask_alert. simpl. by case_match.
Qed.

Lemma rwp_gen_incidents alerts1 alerts2 k w1 w2 :
  same_draws w1 w2 → al_id <$> alerts1 = al_id <$> alerts2 →
  rwp (gen_incidents alerts1 k) (gen_incidents alerts2 k)
    (fun o1 o2 => mask_incident <$> o1 = mask_incident <$> o2) w1 w2.
Proof.
  intros Hw Hal. unfold gen_incidents.
  apply (rwp_for (fun a b => al_id a = al_id b)); [|done|done|].
  { apply Forall2_fmap. rewrite Hal. apply Forall2_diag. }
  intros a1 a2 s1 s2 wa wb Ha Hs Hw'.
  apply (rwp_for eq); [apply Forall2_diag|done|done|].
  intros i ? s1' s2' wc wd <- Hs' Hw''.
  repeat rwp_step.
  eapply rwp_bind.
  { instantiate (1 := fun x y => x.2 = y.2 ∧ (is_Some x.1 ↔ is_Some y.1)).
    case_match; repeat rwp_step; simpl.
    - split; [done|]. split; by eauto.
    - split; [done|]. split; by intros [? [=]]. }
  intros [r1 st1] [r2 st2] w3 w4 Hw3 [Hst Hres]. simpl in *. subst st2.
  repeat rwp_step. apply masked_snoc; [done|].
  unfold mask_incident. simpl. rewrite Ha. f_equal.
  destruct r1, r2; simpl; try done.
  - destruct Hres as [Hres _]. by destruct Hres.
  - destruct Hres as [_ Hres]. by destruct Hres.
Qed.

Lemma rwp_gen_eval_runs suites k w1 w2 :
  same_draws w1 w2 →
  rwp (gen_eval_runs suites k) (gen_eval_runs suites k)
    (fun o1 o2 => mask_run <$> o1 = mask_run <$> o2) w1 w2.
Proof.
  intros Hw. unfold gen_eval_runs.
  apply (rwp_for eq); [apply Forall2_diag|done|done|].
  intros su ? s1 s2 wa wb <- Hs Hw'.
  apply (rwp_for eq); [apply Forall2_diag|done|done|].
  intros i ? s1' s2' wc wd <- Hs' Hw''.
  repeat rwp_step. by apply masked_snoc.
Qed.

Lemma rwp_gen_audit_logs orgs users projects dashboards widgets alerts1 alerts2
    n w1 w2 :
  same_draws w1 w2 → al_id <$> alerts1 = al_id <$> alerts2 →
  rwp (gen_audit_logs orgs users projects dashboards widgets alerts1 n)
    (gen_audit_logs orgs users projects dashboards widgets alerts2 n)
    (fun o1 o2 => mask_log <$> o1 = mask_log <$> o2) w1 w2.
Proof.
  intros Hw Hal. unfold gen_audit_logs.
  assert (((fun a => ("alert", al_id a)) <$> alerts1)
          = ((fun a => ("alert", al_id a)) <$> alerts2)) as ->.
  { change (fun a => ("alert", al_id a)) with (pair "alert" ∘ al_id).
    by rewrite !list_fmap_compose, Hal. }
  apply (rwp_for eq); [apply Forall2_diag|done|done|].
  intros i ? s1 s2 wa wb <- Hs Hw'.
  repeat rwp_step. by apply masked_snoc.
Qed.

(** A run of [build_mock_data] starts by seeding the generator and making
    a new factory; from there on it runs in a world that does not depend on
    the generator state and factory it found. *)
Lemma rwp_after_seed {A} (k : M G A) a (R : A → A → Prop) w1 w2 :
  rwp k k R (fresh_world a w1) (fresh_world a w2) →
  rwp (_ <- seed a ;; _ <- new_IdFactory ;; k)
      (_ <- seed a ;; _ <- new_IdFactory ;; k) R w1 w2.
Proof. intros Hk. exact Hk. Qed.

(** Two runs of [build_mock_data] on the same seed and configuration return
    data sets that differ at most in the values taken from the clock. *)
Lemma rwp_build_mock_data seed_ c w1 w2 :
  rwp (build_mock_data seed_ c) (build_mock_data seed_ c)
    (fun d1 d2 => mask_data d1 = mask_data d2) w1 w2.
Proof.
  unfold build_mock_data. apply rwp_after_seed.
  assert (same_draws (fresh_world seed_ w1) (fresh_world seed_ w2)) as Hw by done.
  revert Hw. generalize (fresh_world seed_ w1) (fresh_world seed_ w2).
  intros wa wb Hw.
  do 5 rwp_step.
  eapply rwp_bind; [by apply rwp_gen_metric_samples|]. intros ms1 ms2 ? ? ? Hms.
  rwp_step.
  eapply rwp_bind; [by apply rwp_gen_alerts|]. intros al1 al2 ? ? ? Hal.
  assert (al_id <$> al1 = al_id <$> al2) as Hids.
  { apply (f_equal (fmap al_id)) in Hal.
    by rewrite <- !list_fmap_compose in Hal. }
  eapply rwp_bind; [by apply rwp_gen_incidents|]. intros in1 in2 ? ? ? Hin.
  rwp_step.
  eapply rwp_bind; [by apply rwp_gen_eval_runs|]. intros er1 er2 ? ? ? Her.
  do 2 rwp_step.
  eapply rwp_bind; [by apply rwp_gen_audit_logs|]. intros lg1 lg2 ? ? ? Hlg.
  rwp_step. unfold mask_data. simpl. congruence.
Qed.
End ClockReadingGenerators.

(** ** Draws and re-draws *)

Section Retry.
Context {G : Type} `{!RandomGen G}.
Implicit Types (w : World G).

Lemma for_cons {X S} (x : X) (xs : list X) (body : X → S → M G S) s :
  for_ (x :: xs) body s = (s' <- body x s ;; for_ xs body s').
Proof. reflexivity. Qed.

Lemma for_app {X S} (xs ys : list X) (body : X → S → M G S) s w :
  for_ (xs ++ ys) body s w
  = match for_ xs body s w with
    | Ok (s', w') => for_ ys body s' w'
    | Raise e => Raise e
    end.
Proof.
  revert s w. induction xs as [|x xs IH]; intros s w; [done|].
  rewrite <- app_comm_cons, !for_cons. unfold bind.
  destruct (body x s w) as [[s1 w1]|e]; [apply IH|done].
Qed.

(** A call of [choice] that returns is one step of [choices]. *)
Lemma choice_returned {A} (seq : list A) w x w' :
  choice seq w = Ok (x, w') →
  ∃ g', w' = set_rng g' w ∧ ∀ n, choices (S n) seq (w_rng w) = x :: choices n seq g'.
Proof.
  unfold choice. destruct seq as [|a seq'] eqn:Hseq; [done|]. rewrite <- Hseq.
  unfold bind, randbelow. intros Hrun.
  pose proof (rng_randbelow_range (len seq) (w_rng w)) as Hr.
  destruct (rng_randbelow (len seq) (w_rng w)) as [i g'] eqn:Hi.
  simpl in Hr. unfold subscript in Hrun.
  assert (0 < len seq) as Hlen by (rewrite Hseq; unfold len; simpl; lia).
  specialize (Hr Hlen). destruct (i <? 0) eqn:Hneg; [lia|]. rewrite Hneg in Hrun.
  destruct (seq !! Z.to_nat i) as [y|] eqn:Hy; [|done].
  injection Hrun as <- <-. exists g'. split; [done|].
  intros n. cbn [choices]. by rewrite Hi, Hy.
Qed.

(** The value kept by the draw and its re-draws fails the test of the loop,
    or the draw and all the re-draws passed it. *)
Lemma retry_choice_returned {A} budget (cond : A → bool) (seq : list A)
    x0 g0 w x w' :
  retry budget cond (choice seq) x0 (set_rng g0 w) = Ok (x, w') →
  (x ∈ seq ∨ x = x0)
  ∧ ∃ g', w' = set_rng g' w
      ∧ (cond x = true →
           length (choices budget seq g0) = budget
           ∧ Forall (fun y => cond y = true) (x0 :: choices budget seq g0)).
Proof.
  revert x0 g0. induction budget as [|b IH]; intros x0 g0 Hrun.
  - injection Hrun as <- <-. split; [by right|]. exists g0. split; [done|].
    intros Hc. split; [done|]. by constructor.
  - rewrite retry_S in Hrun. destruct (cond x0) eqn:Hc0; cycle 1.
    { injection Hrun as <- <-. split; [by right|]. exists g0. split; [done|].
      intros Hc. congruence. }
    unfold bind in Hrun.
    destruct (choice seq (set_rng g0 w)) as [[x1 w1]|e] eqn:Hch; [|done].
    pose proof Hch as Hin. apply choice_returned in Hch as (g1 & -> & Hstep).
    assert (x1 ∈ seq) as Hx1.
    { pose proof (wp_choice any_exn seq (fun y _ => y ∈ seq) (set_rng g0 w)
                    (fun _ => I) (fun y _ Hy => Hy)) as Hwp.
      unfold wp in Hwp. rewrite Hin in Hwp. tauto. }
    rewrite set_rng_twice in Hrun. apply IH in Hrun as (Hx & g' & -> & Hall).
    split; [destruct Hx as [?| ->]; by left|].
    exists g'. split; [done|]. intros Hc. destruct (Hall Hc) as [Hlen Hf].
    cbn [w_rng set_rng] in Hstep. rewrite Hstep. split; [by simpl; rewrite Hlen|].
    by constructor.
Qed.

(** One iteration of the inner loop of [gen_permissions] adds one binding
    for [u]; its project is one already chosen only if the draw and the 10
    re-draws all returned projects already chosen. *)
Lemma grant_permission_returned u available perms chosen w perms' chosen' w' :
  grant_permission u available (perms, chosen) w = Ok ((perms', chosen'), w') →
  ∃ p, perms' = perms ++ [p]
       ∧ perm_user_id p = usr_id u
       ∧ chosen' = chosen ∪ {[perm_project_id p]}
       ∧ (perm_project_id p ∈ chosen →
            length (choices 11 available (w_rng w)) = 11%nat
            ∧ Forall (fun q => prj_id q ∈ chosen) (choices 11 available (w_rng w))).
Proof.
  unfold grant_permission, bind. intros Hrun.
  destruct (choice available w) as [[prj0 w1]|e] eqn:Hch; [|done].
  apply choice_returned in Hch as (g1 & -> & Hstep).
  destruct (retry 10 _ _ prj0 (set_rng g1 w)) as [[prj w2]|e] eqn:Hre; [|done].
  apply retry_choice_returned in Hre as (_ & g2 & -> & Hall).
  destruct (randint _ _ _) as [[k w3]|e]; [|done].
  destruct (sample _ _ _) as [[scopes w4]|e]; [|done].
  injection Hrun as <- <- <-. eexists. split_and!; [done|done|done|].
  cbn [perm_project_id]. intros Hin. rewrite Hstep.
  destruct Hall as [Hlen Hf]; [by apply bool_decide_eq_true|].
  split; [by rewrite length_cons, Hlen|].
  eapply Forall_impl; [exact Hf|]. intros q Hq. by apply bool_decide_eq_true in Hq.
Qed.

Lemma range_S (n : nat) : range (Z.of_nat (S n)) = range (Z.of_nat n) ++ [Z.of_nat n].
Proof. unfold range. by rewrite seqZ_S. Qed.

(** The permissions generated for one user.  The [j]-th binding repeats the
    project of an earlier one only if, in the state the generator was in
    after the first [j] bindings, the draw and the 10 re-draws all returned
    projects already bound. *)
Lemma grant_loop_returned u available (n : nat) perms0 w perms chosen w' :
  grant_loop u available (Z.of_nat n) perms0 w = Ok ((perms, chosen), w') →
  ∃ blk, perms = perms0 ++ blk
    ∧ length blk = n
    ∧ chosen = list_to_set (bound_projects blk)
    ∧ ∀ j p, blk !! j = Some p →
        perm_user_id p = usr_id u
        ∧ (perm_project_id p ∈ bound_projects (take j blk) →
             ∃ wj, grant_loop u available (Z.of_nat j) perms0 w
                   = Ok ((perms0 ++ take j blk,
                          list_to_set (bound_projects (take j blk))), wj)
                   ∧ budget_exhausted available (bound_projects (take j blk))
                       (w_rng wj)).
Proof.
  revert perms chosen w'. induction n as [|n IH]; intros perms chosen w' Hrun.
  - injection Hrun as <- <- <-. exists []. rewrite app_nil_r.
    split_and!; [done|done|done|]. by intros j p Hj.
  - unfold grant_loop in Hrun. rewrite range_S, for_app in Hrun.
    fold (grant_loop u available (Z.of_nat n) perms0) in Hrun.
    destruct (grant_loop u available (Z.of_nat n) perms0 w)
      as [[[perms1 chosen1] w1]|e] eqn:Hpre; [|done].
    destruct (IH _ _ _ eq_refl) as (blk & -> & Hlen & -> & Hblk).
    rewrite for_cons in Hrun. unfold bind in Hrun.
    destruct (grant_permission u available _ w1) as [[[perms2 chosen2] w2]|e]
      eqn:Hstep; [|done].
    injection Hrun as <- <- <-.
    apply grant_permission_returned in Hstep as (p & -> & Hu & -> & Hex).
    exists (blk ++ [p]). split_and!.
    + by rewrite app_assoc.
    + rewrite length_app. simpl. lia.
    + unfold bound_projects. rewrite fmap_app, list_to_set_app_L. simpl.
      by rewrite union_empty_r_L.
    + intros j q Hj. apply lookup_app_Some in Hj as [Hj|[Hge Hj]].
      * rewrite take_app_le by (apply lookup_lt_Some in Hj; lia).
        by apply Hblk.
      * apply list_lookup_singleton_Some in Hj as [Hj ->].
        assert (j = length blk) as -> by lia.
        rewrite take_app_length. split; [done|]. intros Hin.
        exists w1. rewrite Hlen. split; [done|].
        destruct Hex as [Hl Hf]; [by apply elem_of_list_to_set|].
        split; [done|]. eapply Forall_impl; [exact Hf|].
        intros x Hx. by apply elem_of_list_to_set in Hx.
Qed.
End Retry.
(** ** [slugify] *)

Section Slugify.
Implicit Types (c : ascii) (s : string) (P : ascii → bool).

Lemma is_lower_alnum_not_space c : is_lower_alnum c = true → is_space c = false.
Proof. destruct c as [[] [] [] [] [] [] [] []]; vm_compute; congruence. Qed.

Lemma is_lower_alnum_not_blank c : is_lower_alnum c = true → Ascii.eqb c " " = false.
Proof. destruct c as [[] [] [] [] [] [] [] []]; vm_compute; congruence. Qed.

Lemma is_lower_alnum_lower c : is_lower_alnum c = true → lower_ascii c = c.
Proof. destruct c as [[] [] [] [] [] [] [] []]; vm_compute; congruence. Qed.

Lemma sub_non_alnum_chars b s :
  string_forall is_slug_or_space (sub_non_alnum b s) = true.
Proof.
  revert b. induction s as [|c s IH]; intros b; simpl; [done|].
  destruct (is_lower_alnum c) eqn:Hc; simpl.
  - unfold is_slug_or_space at 1. by rewrite Hc, IH.
  - destruct b; simpl; by rewrite IH.
Qed.

Lemma collapse_spaces_chars b s :
  string_forall is_slug_or_space s = true →
  string_forall is_slug_or_space (collapse_spaces b s) = true.
Proof.
  revert b. induction s as [|c s IH]; intros b; simpl; [done|].
  intros [Hc Hs]%andb_true_iff.
  destruct (is_space c); [destruct b|]; simpl; rewrite ?Hc, ?IH; done.
Qed.

Lemma lstrip_chars P s :
  string_forall P s = true → string_forall P (lstrip s) = true.
Proof.
  induction s as [|c s IH]; simpl; [done|].
  intros Hcs. destruct (is_space c); [|done].
  apply andb_true_iff in Hcs as [_ Hs]. by apply IH.
Qed.

Lemma rstrip_chars P s :
  string_forall P s = true → string_forall P (rstrip s) = true.
Proof.
  induction s as [|c s IH]; simpl; [done|].
  intros [Hc Hs]%andb_true_iff. specialize (IH Hs).
  destruct (rstrip s) as [|d r]; [destruct (is_space c)|]; simpl in *;
    rewrite ?Hc, ?IH; done.
Qed.

Lemma remove_spaces_chars s :
  string_forall is_slug_or_space s = true →
  string_forall is_lower_alnum (remove_spaces s) = true.
Proof.
  induction s as [|c s IH]; simpl; [done|].
  intros [Hc Hs]%andb_true_iff. unfold is_slug_or_space in Hc.
  destruct (Ascii.eqb c " ") eqn:Hsp; simpl; [by apply IH|].
  rewrite orb_false_r in Hc. by rewrite Hc, IH.
Qed.

Lemma lower_slug s : string_forall is_lower_alnum s = true → lower s = s.
Proof.
  induction s as [|c s IH]; simpl; [done|].
  intros [Hc Hs]%andb_true_iff. by rewrite is_lower_alnum_lower, IH.
Qed.

(** No alternative of the suffix pattern matches at a character that is not
    a space. *)
Lemma match_suffix_slug c s :
  Ascii.eqb c " " = false → match_suffix SUFFIXES (String c s) = None.
Proof.
  intros Hc. rewrite Ascii.eqb_sym in Hc.
  unfold SUFFIXES. cbn [match_suffix strip_prefix]. by rewrite Hc.
Qed.

Lemma drop_suffixes_slug s :
  string_forall is_lower_alnum s = true → drop_suffixes 0 s = s.
Proof.
  induction s as [|c s IH]; [done|].
  intros [Hc Hs]%andb_true_iff.
  cbn [drop_suffixes]. rewrite match_suffix_slug by by apply is_lower_alnum_not_blank.
  by rewrite IH.
Qed.

Lemma sub_non_alnum_slug s :
  string_forall is_lower_alnum s = true → sub_non_alnum false s = s.
Proof.
  induction s as [|c s IH]; simpl; [done|].
  intros [Hc Hs]%andb_true_iff. by rewrite Hc, IH.
Qed.

Lemma collapse_spaces_slug s :
  string_forall is_lower_alnum s = true → collapse_spaces false s = s.
Proof.
  induction s as [|c s IH]; simpl; [done|].
  intros [Hc Hs]%andb_true_iff. by rewrite is_lower_alnum_not_space, IH.
Qed.

Lemma lstrip_slug s : string_forall is_lower_alnum s = true → lstrip s = s.
Proof.
  destruct s as [|c s]; simpl; [done|].
  intros [Hc Hs]%andb_true_iff. by rewrite is_lower_alnum_not_space.
Qed.

Lemma rstrip_slug s : string_forall is_lower_alnum s = true → rstrip s = s.
Proof.
  induction s as [|c s IH]; simpl; [done|].
  intros [Hc Hs]%andb_true_iff. rewrite IH by done.
  destruct s; [by rewrite is_lower_alnum_not_space|done].
Qed.

Lemma remove_spaces_slug s :
  string_forall is_lower_alnum s = true → remove_spaces s = s.
Proof.
  induction s as [|c s IH]; simpl; [done|].
  intros [Hc Hs]%andb_true_iff. by rewrite is_lower_alnum_not_blank, IH.
Qed.

Lemma slugify_chars name : string_forall is_lower_alnum (slugify name) = true.
Proof.
  unfold slugify.
  apply remove_spaces_chars, rstrip_chars, lstrip_chars, collapse_spaces_chars,
    sub_non_alnum_chars.
Qed.

Lemma slugify_slug s : string_forall is_lower_alnum s = true → slugify s = s.
Proof.
  intros Hs. unfold slugify.
  rewrite (lower_slug s Hs), (drop_suffixes_slug s Hs), (sub_non_alnum_slug s Hs),
    (collapse_spaces_slug s Hs), (lstrip_slug s Hs), (rstrip_slug s Hs).
  by apply remove_spaces_slug.
Qed.
End Slugify.

(** ** Identifiers in sequence *)

Section Numbered.
Context {G : Type} `{!RandomGen G}.
Implicit Types (E : Exn → Prop) (w : World G) (idf : IdFactory.t).

Lemma len_app {A} (l k : list A) : len (l ++ k) = len l + len k.
Proof. unfold len. rewrite length_app. lia. Qed.

Lemma len_fmap {A B} (f : A → B) (l : list A) : len (f <$> l) = len l.
Proof. unfold len. by rewrite length_fmap. Qed.

Lemma numbered_from_nil p idf : numbered_from p idf idf [].
Proof. split_and!; [done|unfold len; simpl; lia|done]. Qed.

Lemma numbered_from_next p idf0 idf ids :
  numbered_from p idf0 idf ids →
  numbered_from p idf0 (IdFactory.next p idf).2 (ids ++ [(IdFactory.next p idf).1]).
Proof.
  intros (Hids & Hget & Hother). split_and!.
  - rewrite len_app. unfold ids_from.
    rewrite seqZ_app by (unfold len; lia). rewrite fmap_app.
    unfold ids_from in Hids. rewrite <- Hids. f_equal.
    rewrite next_id, Hget. change (len [_]) with 1.
    replace (IdFactory.get idf0 p + 1 + len ids)
      with (IdFactory.get idf0 p + len ids + 1) by lia.
    done.
  - rewrite get_next_same, len_app, Hget. change (len [_]) with 1. lia.
  - intros q Hq. rewrite get_next_other by done. by apply Hother.
Qed.

Lemma numbered_snoc_next {A} p (id_of : A → string) idf0 (out : list A) (x : A) w :
  numbered_from p idf0 (w_idf w) (id_of <$> out) →
  id_of x = (IdFactory.next p (w_idf w)).1 →
  numbered_from p idf0 (IdFactory.next p (w_idf w)).2 (id_of <$> (out ++ [x])).
Proof.
  intros Hnum Hid. rewrite fmap_app. simpl. rewrite Hid.
  by apply numbered_from_next.
Qed.

(** The identifiers issued from a new factory. *)
Lemma numbered_from_init p idf ids :
  numbered_from p IdFactory.init idf ids → ids = ids_from p 0 (len ids).
Proof. by intros (Hids & _ & _). Qed.
End Numbered.

(** ** Children per parent *)

Section FanOut.
Context {G : Type} `{!RandomGen G}.
Implicit Types (E : Exn → Prop) (w : World G).

(** The rule of the two nested loops that give every parent [k] children,
    each iteration appending one record: [I] is kept by every iteration and
    [R p x] holds of each child [x] of parent [p]. *)
Lemma wp_fan_out {P C} E (parents : list P) (k : Z)
    (body : P → Z → list C → M G (list C))
    (I : list C → World G → Prop) (R : P → C → Prop) w :
  I [] w →
  (∀ p i out w', p ∈ parents → 0 ≤ i < k → w_clock w' = w_clock w → I out w' →
     wp E (body p i out)
       (fun out' w'' => ∃ x, out' = out ++ [x] ∧ R p x ∧ I out' w'') w') →
  wp E (for_ parents (fun p out => for_ (range k) (fun i out => body p i out) out) [])
    (fun out w' =>
       I out w'
       ∧ blocks_of (fun p blk => length blk = Z.to_nat k ∧ Forall (R p) blk)
           parents out) w.
Proof.
  intros HI Hbody.
  apply (wp_for_done E (fun done out w' =>
           I out w'
           ∧ blocks_of (fun p blk => length blk = Z.to_nat k ∧ Forall (R p) blk)
               done out)).
  { split; [done|apply blocks_of_nil]. }
  intros done p rest out w1 Hp Hc1 [HI1 Hblk].
  assert (p ∈ parents) as Hin.
  { rewrite Hp. apply elem_of_app. right. left. }
  eapply wp_mono.
  - apply (wp_for_done E (fun done_i out2 w' =>
             I out2 w'
             ∧ ∃ blk, out2 = out ++ blk ∧ length blk = length done_i
                      ∧ Forall (R p) blk)).
    { split; [done|]. exists []. by rewrite app_nil_r. }
    intros done_i i rest_i out2 w2 Hi Hc2 (HI2 & blk & -> & Hlen & Hall).
    apply range_split in Hi as [_ Hi].
    eapply wp_mono; [apply Hbody; [done|done|congruence|done]|].
    intros out3 w3 _ (x & -> & HR & HI3). split; [done|].
    exists (blk ++ [x]). split_and!.
    + by rewrite app_assoc.
    + rewrite !length_app. simpl. lia.
    + by apply Forall_snoc.
  - intros out2 w2 _ (HI2 & blk & -> & Hlen & Hall). split; [done|].
    apply blocks_of_snoc; [done|]. split; [|done].
    rewrite Hlen. unfold range. by rewrite length_seqZ.
Qed.

(** Two specifications of one computation hold together. *)
Lemma wp_and {A} E (m : M G A) (Q1 Q2 : A → World G → Prop) w :
  wp E m Q1 w → wp E m Q2 w → wp E m (fun a w' => Q1 a w' ∧ Q2 a w') w.
Proof. unfold wp. destruct (m w) as [[a w1]|e]; [|done]. intros [_ H1] [Hc H2]. auto. Qed.
End FanOut.

(** ** Shuffling and sampling *)

Section Shuffle.
Context {G : Type} `{!RandomGen G}.
Implicit Types (E : Exn → Prop) (w : World G).

(** [random.shuffle] rearranges: it never raises, and the list it leaves is
    a permutation of the one it was given. *)
Lemma wp_shuffle_perm {A} E (x : list A) (Q : list A → World G → Prop) w :
  (∀ y g, y ≡ₚ x → Q y (set_rng g w)) → wp E (shuffle x) Q w.
Proof.
  intros HQ. unfold shuffle.
  eapply wp_mono.
  - apply (wp_for E (fun y w' => y ≡ₚ x ∧ ∃ g, w' = set_rng g w)).
    { split; [done|]. exists (w_rng w). by destruct w. }
    intros i y w' Hi _ [Hperm [g ->]].
    pose proof (Permutation_length Hperm) as Hlen.
    apply elem_of_reverse, elem_of_seqZ in Hi. unfold len in Hi.
    apply wp_bind, wp_randbelow. intros j g1 Hj. specialize (Hj ltac:(lia)).
    apply wp_bind, wp_subscript; [lia|unfold len; lia|]. intros xj Hxj.
    apply wp_bind, wp_subscript; [lia|unfold len; lia|]. intros xi Hxi.
    apply wp_ret. split; [|by exists g1].
    by rewrite (Permutation_insert_swap y _ _ xi xj).
  - intros y w' _ [Hperm [g ->]]. by apply HQ.
Qed.

Lemma insert_head_Permutation {A} (t : list A) (j : nat) (x y : A) :
  t !! j = Some x → x :: <[j := y]> t ≡ₚ y :: t.
Proof.
  intros Hj. apply list_elem_of_split_length in Hj as (l1 & l2 & -> & ->).
  rewrite insert_app_r_alt, Nat.sub_diag by lia. simpl.
  rewrite <- !Permutation_middle. apply Permutation_swap.
Qed.

(** One step of the selection of [random.sample]: the element taken and the
    pool that is left make up the pool there was. *)
Lemma sample_step_Permutation {A} (pool : list A) (m j : nat) (x y : A) :
  (j < m)%nat → pool !! j = Some x → pool !! (m - 1)%nat = Some y →
  x :: take (m - 1) (<[j := y]> pool) ≡ₚ take m pool.
Proof.
  intros Hjm Hx Hy.
  replace m with (S (m - 1)) at 2 by lia.
  rewrite (take_S_r _ _ y) by done.
  rewrite <- Permutation_cons_append.
  destruct (decide (j = (m - 1)%nat)) as [->|Hne].
  - rewrite take_insert_ge by lia. by simplify_eq.
  - rewrite take_insert_lt by lia. apply insert_head_Permutation.
    rewrite lookup_take_lt by lia. done.
Qed.

(** [random.sample(population, k)] with [0 <= k <= len(population)] returns
    [k] elements which, with some others, make up the population. *)
Lemma wp_sample_spec {A} E (population : list A) k (Q : list A → World G → Prop) w :
  (¬ (0 ≤ k ≤ len population) → E ValueError) →
  (∀ r g, len r = k → (∃ rest, r ++ rest ≡ₚ population) → Q r (set_rng g w)) →
  wp E (sample population k) Q w.
Proof.
  intros Herr HQ. unfold sample.
  destruct ((0 <=? k) && (k <=? len population)) eqn:Hk; cycle 1.
  { apply wp_raise, Herr. lia. }
  apply wp_bind. eapply wp_mono.
  - apply (wp_for_done E (fun done s w' =>
             length s.2 = length population
             ∧ length s.1 = length done
             ∧ s.1 ++ take (length population - length done) s.2 ≡ₚ population
             ∧ ∃ g, w' = set_rng g w)).
    { split_and!; [done|done| |].
      - simpl. rewrite Nat.sub_0_r. by rewrite firstn_all.
      - exists (w_rng w). by destruct w. }
    intros done i rest [result pool] w' Hi _ (Hlen & Hres & Hperm & [g ->]).
    simpl in Hlen, Hres, Hperm.
    apply range_split in Hi as [Hi Hik]. unfold len in *.
    apply wp_bind, wp_randbelow. intros j g1 Hj. specialize (Hj ltac:(lia)).
    apply wp_bind, wp_subscript; [lia|unfold len; lia|]. intros x Hx.
    apply wp_bind, wp_subscript; [lia|unfold len; lia|]. intros y Hy.
    apply wp_ret. simpl. split_and!.
    + by rewrite length_insert.
    + rewrite !length_app. simpl. lia.
    + rewrite <- Hperm at 2. rewrite <- app_assoc. f_equiv. simpl.
      rewrite length_app. simpl.
      replace (length population - (length done + 1))%nat
        with ((length population - length done) - 1)%nat by lia.
      apply sample_step_Permutation.
      * lia.
      * done.
      * rewrite <- Hy. f_equal. lia.
    + by exists g1.
  - intros [result pool] w' _ (_ & Hres & Hperm & [g ->]). simpl in *.
    apply wp_ret, HQ.
    + unfold len. rewrite Hres. unfold range. rewrite length_seqZ. lia.
    + eauto.
Qed.
End Shuffle.

(** ** Names from a catalog *)

Section Series.
Implicit Types (catalog l : list string) (prefix : string).

(** A series of names has no repetition when the catalog has none and holds
    no name that starts with the prefix. *)
Lemma series_NoDup catalog prefix l :
  NoDup catalog → (∀ s, prefix +:+ s ∉ catalog) →
  (∀ i x, l !! i = Some x → series_name catalog prefix i x) →
  NoDup l.
Proof.
  intros Hnd Hfresh Hl. apply NoDup_alt. intros i j x Hi Hj.
  apply Hl in Hi, Hj. unfold series_name in Hi, Hj.
  destruct (decide (i < length catalog)%nat), (decide (j < length catalog)%nat).
  - by eapply NoDup_lookup.
  - subst x. apply list_elem_of_lookup_2 in Hi. by apply Hfresh in Hi.
  - subst x. apply list_elem_of_lookup_2 in Hj. by apply Hfresh in Hj.
  - rewrite Hi in Hj. apply (inj (String.append prefix)) in Hj.
    apply (inj pretty) in Hj. lia.
Qed.

Lemma org_prefix_fresh s : "Org " +:+ s ∉ ORG_NAMES.
Proof.
  unfold ORG_NAMES. rewrite !append_cons, append_nil_l.
  rewrite !not_elem_of_cons. split_and!; try discriminate. apply not_elem_of_nil.
Qed.

Lemma flag_prefix_fresh s : "custom.flag_" +:+ s ∉ FLAG_KEYS.
Proof.
  unfold FLAG_KEYS. rewrite !append_cons, append_nil_l.
  rewrite !not_elem_of_cons. split_and!; try discriminate. apply not_elem_of_nil.
Qed.

Lemma ORG_NAMES_NoDup : NoDup ORG_NAMES.
Proof. apply (bool_decide_unpack _). vm_compute. exact I. Qed.

Lemma FLAG_KEYS_NoDup : NoDup FLAG_KEYS.
Proof. apply (bool_decide_unpack _). vm_compute. exact I. Qed.
End Series.

(** ** [gen_orgs] *)

Section Orgs.
Context {G : Type} `{!RandomGen G}.
Implicit Types (E : Exn → Prop) (w : World G).

Lemma gen_orgs_shape E n w :
  wp E (gen_orgs n)
    (fun out w' =>
       numbered_from "org" (w_idf w) (w_idf w') (org_id <$> out)
       ∧ length out = Z.to_nat n
       ∧ Forall (fun o => org_plan o ∈ PLANS) out
       ∧ ∃ names, names ≡ₚ ORG_NAMES
           ∧ ∀ i o, out !! i = Some o → series_name names "Org " i (org_name o)) w.
Proof.
  unfold gen_orgs. apply wp_bind, wp_shuffle_perm. intros names g Hperm.
  assert (length names = 17%nat) as Hlen by (by rewrite (Permutation_length Hperm)).
  assert (len names = 17) as Hn by (unfold len; rewrite Hlen; done).
  eapply wp_mono.
  - apply (wp_for_done E (fun done out w' =>
             numbered_from "org" (w_idf w) (w_idf w') (org_id <$> out)
             ∧ length out = length done
             ∧ Forall (fun o => org_plan o ∈ PLANS) out
             ∧ ∀ i o, out !! i = Some o → series_name names "Org " i (org_name o))).
    { split_and!; [apply numbered_from_nil|done|constructor|by intros i o Hi]. }
    intros done i rest out w1 Hi _ (Hnum & Hl & Hplan & Hname).
    apply range_split in Hi as [Hi Hik]. unfold len in Hi.
    repeat wp_step.
    all: split_and!;
      [by apply numbered_snoc_next|rewrite !length_app; simpl; lia
      |by apply Forall_snoc|].
    all: intros j o Hj; apply lookup_app_Some in Hj as [Hj|[Hge Hj]];
      [by apply Hname|].
    all: apply list_lookup_singleton_Some in Hj as [Hj <-]; simpl.
    all: unfold series_name; rewrite Hlen; assert (j = length done) as -> by lia.
    all: case_decide; try lia.
    + match goal with Hx : names !! _ = Some _ |- _ => rewrite <- Hx end.
      f_equal. lia.
    + do 2 f_equal. lia.
  - intros out w1 _ (Hnum & Hl & Hplan & Hname). split_and!; [done| |done|by eauto].
    rewrite Hl. unfold range. by rewrite length_seqZ.
Qed.
End Orgs.

(** ** [gen_users] *)

Section Users.
Context {G : Type} `{!RandomGen G}.
Implicit Types (E : Exn → Prop) (w : World G).

Lemma gen_users_shape E orgs k w :
  wp E (gen_users orgs k)
    (fun out w' =>
       numbered_from "usr" (w_idf w) (w_idf w') (usr_id <$> out)
       ∧ Forall (fun u => usr_role u ∈ ["admin"; "member"; "viewer"]) out
       ∧ ∃ pool, pool ≡ₚ FIRST_NAMES
           ∧ ∀ j u, out !! j = Some u → user_named pool orgs j u) w.
Proof.
  unfold gen_users. apply wp_bind, wp_shuffle_perm. intros pool g Hperm.
  assert (length pool = 30%nat) as Hlen by (by rewrite (Permutation_length Hperm)).
  assert (len pool = 30) as Hn by (unfold len; rewrite Hlen; done).
  apply wp_bind. eapply wp_mono.
  - apply (wp_for E (fun st w' =>
             numbered_from "usr" (w_idf w) (w_idf w') (usr_id <$> st.1)
             ∧ st.2 = len st.1
             ∧ Forall (fun u => usr_role u ∈ ["admin"; "member"; "viewer"]) st.1
             ∧ ∀ j u, st.1 !! j = Some u → user_named pool orgs j u)).
    { split_and!; [apply numbered_from_nil|done|constructor|by intros j u Hj]. }
    intros org st w1 Horg _ Hinv.
    apply wp_for; [done|].
    intros i [out idx] w2 _ _ (Hnum & Hidx & Hrole & Hname). simpl in *.
    assert (0 ≤ idx) as Hpos by (unfold len in Hidx; lia).
    repeat wp_step.
    all: split_and!;
      [by apply numbered_snoc_next|rewrite len_app; change (len [_]) with 1; lia| |].
    all: try (apply Forall_snoc; [done|]; simpl; repeat case_match;
              repeat (rewrite elem_of_cons); tauto).
    all: intros j u Hj; apply lookup_app_Some in Hj as [Hj|[Hge Hj]];
      [by apply Hname|].
    all: apply list_lookup_singleton_Some in Hj as [Hj <-].
    all: assert (idx = Z.of_nat j) as -> by (unfold len in Hidx; lia).
    all: split; simpl.
    all: try (match goal with Hx : _ !! _ = Some ?f |- _ !! _ = Some ?f => rewrite <- Hx end;
              f_equal; unfold len; by rewrite <- Nat2Z.inj_mod, Nat2Z.id).
    all: exists org; split_and!; done.
  - intros [out idx] w1 _ (Hnum & _ & Hrole & Hname). apply wp_ret. eauto.
Qed.
End Users.

(** ** Texts made of letters and digits *)

Section Texts.
Implicit Types (c : ascii) (s a b : string) (P : ascii → bool).

Lemma string_forall_app P a b :
  string_forall P (a +:+ b) = string_forall P a && string_forall P b.
Proof.
  induction a as [|c a IH]; [done|].
  rewrite append_cons. simpl. by rewrite IH, andb_assoc.
Qed.

Lemma string_forall_impl P (Q : ascii → bool) s :
  (∀ c, P c = true → Q c = true) →
  string_forall P s = true → string_forall Q s = true.
Proof.
  intros HPQ. induction s as [|c s IH]; simpl; [done|].
  intros [Hc Hs]%andb_true_iff. by rewrite HPQ, IH.
Qed.

Lemma string_forall_has_char P c s :
  P c = false → string_forall P s = true → has_char c s = false.
Proof.
  intros Hc. induction s as [|d s IH]; simpl; [done|].
  intros [Hd Hs]%andb_true_iff. rewrite IH by done.
  destruct (Ascii.eqb_spec d c) as [->|]; [congruence|done].
Qed.

Lemma pretty_N_go_digits x s :
  string_forall is_digit s = true → string_forall is_digit (pretty_N_go x s) = true.
Proof.
  revert s. induction (N.lt_wf_0 x) as [x _ IH]; intros s Hs.
  assert (x = 0 ∨ 0 < x)%N as [->|Hx] by lia.
  - by rewrite pretty_N_go_0.
  - rewrite pretty_N_go_step by done. apply IH.
    { by apply N.div_lt. }
    simpl. rewrite Hs, andb_true_r.
    unfold pretty_N_char. by repeat case_match.
Qed.

(** The decimal text of a natural number is made of digits. *)
Lemma pretty_Z_digits (x : Z) : 0 ≤ x → string_forall is_digit (pretty x) = true.
Proof.
  intros Hx. unfold pretty, pretty_Z. destruct x as [|x|x]; [done| |lia].
  unfold pretty, pretty_positive, pretty, pretty_N. case_decide; [done|].
  by apply pretty_N_go_digits.
Qed.

(** A text is split in one way only around the first occurrence of [c]. *)
Lemma append_first_inj c a b x y :
  has_char c a = false → has_char c b = false →
  a +:+ String c x = b +:+ String c y → a = b ∧ x = y.
Proof.
  revert b. induction a as [|d a IH]; intros [|e b] Ha Hb Heq.
  - rewrite !append_nil_l in Heq. by injection Heq as ->.
  - rewrite append_nil_l, append_cons in Heq. injection Heq as <- _.
    simpl in Hb. by rewrite Ascii.eqb_refl in Hb.
  - rewrite append_nil_l, append_cons in Heq. injection Heq as -> _.
    simpl in Ha. by rewrite Ascii.eqb_refl in Ha.
  - rewrite !append_cons in Heq. injection Heq as -> Heq.
    simpl in Ha, Hb. apply orb_false_iff in Ha as [_ Ha].
    apply orb_false_iff in Hb as [_ Hb].
    by destruct (IH b Ha Hb Heq) as [-> ->].
Qed.

Lemma is_lower_letter_not_digit c : is_lower_letter c = true → is_digit c = false.
Proof. destruct c as [[] [] [] [] [] [] [] []]; vm_compute; congruence. Qed.

(** Letters followed by digits: the two parts are determined. *)
Lemma letters_digits_inj a b x y :
  string_forall is_lower_letter a = true → string_forall is_lower_letter b = true →
  string_forall is_digit x = true → string_forall is_digit y = true →
  a +:+ x = b +:+ y → a = b ∧ x = y.
Proof.
  revert b. induction a as [|d a IH]; intros [|e b] Ha Hb Hx Hy Heq.
  - by rewrite !append_nil_l in Heq.
  - rewrite append_nil_l, append_cons in Heq. subst x.
    simpl in Hb, Hx. apply andb_true_iff in Hb as [Hb _].
    apply andb_true_iff in Hx as [Hx _].
    apply is_lower_letter_not_digit in Hb. congruence.
  - rewrite append_nil_l, append_cons in Heq. subst y.
    simpl in Ha, Hy. apply andb_true_iff in Ha as [Ha _].
    apply andb_true_iff in Hy as [Hy _].
    apply is_lower_letter_not_digit in Ha. congruence.
  - rewrite !append_cons in Heq. injection Heq as -> Heq.
    simpl in Ha, Hb. apply andb_true_iff in Ha as [_ Ha].
    apply andb_true_iff in Hb as [_ Hb].
    by destruct (IH b Ha Hb Hx Hy Heq) as [-> ->].
Qed.

Lemma FIRST_NAMES_letters :
  Forall (fun f => string_forall is_lower_letter (lower f) = true) FIRST_NAMES.
Proof. unfold FIRST_NAMES. repeat (constructor; [reflexivity|]). constructor. Qed.

Lemma FIRST_NAMES_NoDup : NoDup FIRST_NAMES.
Proof. apply (bool_decide_unpack _). vm_compute. exact I. Qed.
End Texts.

(** ** The users' names and addresses *)

Section UserNames.
Implicit Types (pool : list string) (orgs : list Org) (out : list User).

(** The part of an address before [@]. *)
Lemma email_local_inj f1 f2 (n1 n2 : Z) d1 d2 :
  string_forall is_lower_letter (lower f1) = true →
  string_forall is_lower_letter (lower f2) = true →
  0 ≤ n1 → 0 ≤ n2 →
  (lower f1 +:+ pretty n1) +:+ "@" +:+ d1 = (lower f2 +:+ pretty n2) +:+ "@" +:+ d2 →
  n1 = n2.
Proof.
  intros Hf1 Hf2 Hn1 Hn2 Heq.
  assert (∀ f (n : Z), string_forall is_lower_letter (lower f) = true → 0 ≤ n →
            has_char "@" (lower f +:+ pretty n) = false) as Hat.
  { intros f n Hf Hn. rewrite has_char_app.
    rewrite (string_forall_has_char is_lower_letter) by done.
    by rewrite (string_forall_has_char is_digit) by (by apply pretty_Z_digits || done). }
  apply append_first_inj in Heq as [Heq _]; [|by apply Hat..].
  apply letters_digits_inj in Heq as [_ Heq]; [|done|done|by apply pretty_Z_digits..].
  by apply (inj pretty) in Heq.
Qed.

Lemma user_named_letters pool orgs j u :
  pool ≡ₚ FIRST_NAMES → user_named pool orgs j u →
  usr_name u ∈ FIRST_NAMES
  ∧ string_forall is_lower_letter (lower (usr_name u)) = true.
Proof.
  intros Hperm [Hname _]. apply list_elem_of_lookup_2 in Hname.
  rewrite Hperm in Hname. split; [done|].
  pose proof FIRST_NAMES_letters as Hall. rewrite Forall_forall in Hall. auto.
Qed.

Lemma user_emails_NoDup pool orgs out :
  pool ≡ₚ FIRST_NAMES →
  (∀ j u, out !! j = Some u → user_named pool orgs j u) →
  NoDup (usr_email <$> out).
Proof.
  intros Hperm Hout. apply NoDup_alt. intros i j e Hi Hj.
  apply list_lookup_fmap_Some in Hi as (u & -> & Hu).
  apply list_lookup_fmap_Some in Hj as (v & Heq & Hv).
  pose proof (Hout i u Hu) as Hnu. pose proof (Hout j v Hv) as Hnv.
  destruct (user_named_letters _ _ _ _ Hperm Hnu) as [_ Hlu].
  destruct (user_named_letters _ _ _ _ Hperm Hnv) as [_ Hlv].
  destruct Hnu as (_ & o1 & _ & _ & Heu). destruct Hnv as (_ & o2 & _ & _ & Hev).
  rewrite Heu, Hev in Heq.
  apply email_local_inj in Heq; [lia|done|done|lia|lia].
Qed.
End UserNames.

(** ** The generators that give every parent its children *)

Section Children.
Context {G : Type} `{!RandomGen G}.
Implicit Types (E : Exn → Prop) (w : World G).

Lemma drawn_from_group_by {A} (key id_of : A → string) (xs : list A) k x :
  x ∈ get_list (group_by key xs) k →
  drawn_from (id_of <$> filter (fun y => key y = k) xs) (Some (id_of x)).
Proof.
  intros Hx. rewrite get_list_group_by in Hx. simpl.
  by apply list_elem_of_fmap_2.
Qed.

Lemma drawn_from_group_by_nil {A} (key id_of : A → string) (xs : list A) k :
  get_list (group_by key xs) k = [] →
  drawn_from (id_of <$> filter (fun y => key y = k) xs) None.
Proof. intros Hx. rewrite get_list_group_by in Hx. simpl. by rewrite Hx. Qed.

Ltac elem_of_list := repeat case_match; repeat (rewrite elem_of_cons); auto 10.

Lemma gen_projects_shape E orgs k w :
  wp E (gen_projects orgs k)
    (fun out w' =>
       numbered_from "prj" (w_idf w) (w_idf w') (prj_id <$> out)
       ∧ fan_out project_of k orgs out) w.
Proof.
  unfold gen_projects.
  apply (wp_fan_out E orgs k _
           (fun out w' => numbered_from "prj" (w_idf w) (w_idf w') (prj_id <$> out))).
  { apply numbered_from_nil. }
  intros org i out w1 Horg _ _ Hnum.
  repeat wp_step.
  all: eexists; split; [reflexivity|]; split; [|by apply numbered_snoc_next].
  all: split_and!; simpl; [done| |elem_of_list].
  all: match goal with Hx : _ ∈ PROJECT_NAMES |- _ => exact Hx end.
Qed.

Lemma gen_dashboards_shape E projects users k w :
  wp E (gen_dashboards projects users k)
    (fun out w' =>
       numbered_from "db" (w_idf w) (w_idf w') (db_id <$> out)
       ∧ fan_out (dashboard_of users) k projects out) w.
Proof.
  unfold gen_dashboards.
  apply (wp_fan_out E projects k _
           (fun out w' => numbered_from "db" (w_idf w) (w_idf w') (db_id <$> out))).
  { apply numbered_from_nil. }
  intros prj i out w1 Hprj _ _ Hnum.
  destruct (get_list (group_by usr_org_id users) (prj_org_id prj))
    as [|u0 us] eqn:Hus.
  all: repeat wp_step.
  all: eexists; split; [reflexivity|]; split; [|by apply numbered_snoc_next].
  all: split_and!; simpl; [done|done|].
  - by apply (drawn_from_group_by_nil usr_org_id usr_id).
  - match goal with Hx : _ ∈ _ :: _ |- _ =>
      rewrite <- Hus in Hx; by apply (drawn_from_group_by usr_org_id usr_id) in Hx end.
Qed.

Lemma gen_widgets_shape E dashboards metrics k w :
  wp E (gen_widgets dashboards metrics k)
    (fun out w' =>
       numbered_from "w" (w_idf w) (w_idf w') (w_id <$> out)
       ∧ fan_out (widget_of metrics) k dashboards out) w.
Proof.
  unfold gen_widgets.
  apply (wp_fan_out E dashboards k _
           (fun out w' => numbered_from "w" (w_idf w) (w_idf w') (w_id <$> out))).
  { apply numbered_from_nil. }
  intros db i out w1 Hdb _ _ Hnum.
  destruct (get_list (group_by m_project_id metrics) (db_project_id db))
    as [|m0 ms] eqn:Hms.
  all: repeat wp_step.
  all: eexists; split; [reflexivity|]; split; [|by apply numbered_snoc_next].
  all: split_and!; simpl; [done| |done|done|done|by eauto].
  - by apply (drawn_from_group_by_nil m_project_id m_id).
  - match goal with Hx : _ ∈ _ :: _ |- _ =>
      rewrite <- Hms in Hx; by apply (drawn_from_group_by m_project_id m_id) in Hx end.
Qed.

(** The text of a time taken [d] days and [mi] minutes before [now]. *)
Lemma iso_minutes_before (clock : nat → Z) from i now d mi lo hi :
  now = clock i → (from ≤ i)%nat → lo ≤ d * 1440 + mi ≤ hi →
  minutes_before clock from lo hi (iso (now - (d * 86400 + mi * 60) * 1000000)).
Proof.
  intros -> Hi Hm. exists i, (d * 1440 + mi). split_and!; [done|lia..|].
  unfold iso. f_equal. lia.
Qed.

Lemma iso_add_minutes t m :
  iso (t + (0 * 86400 + m * 60) * 1000000)
  = IsoDateTime (t - t mod 1000000 + m * 60000000).
Proof. unfold iso. f_equal. lia. Qed.

Lemma gen_alerts_shape E projects metrics k w :
  overflow_safe E (w_clock w) →
  wp E (gen_alerts projects metrics k)
    (fun out w' =>
       numbered_from "al" (w_idf w) (w_idf w') (al_id <$> out)
       ∧ fan_out (alert_of (w_clock w) (w_ticks w) metrics) k projects out) w.
Proof.
  intros Hsafe. unfold gen_alerts.
  eapply wp_mono.
  - apply (wp_fan_out E projects k _
             (fun out w' => numbered_from "al" (w_idf w) (w_idf w') (al_id <$> out)
                            ∧ (w_ticks w ≤ w_ticks w')%nat)
             (alert_of (w_clock w) (w_ticks w) metrics)).
    { split; [apply numbered_from_nil|done]. }
    intros prj i out w1 Hprj _ Hc1 [Hnum Hticks]. rewrite <- Hc1 in Hsafe.
    destruct (get_list (group_by m_project_id metrics) (prj_id prj))
      as [|m0 ms] eqn:Hms.
    all: repeat wp_step; try solve_overflow.
    all: eexists; split; [reflexivity|].
    all: split; [|split; [by apply numbered_snoc_next|lia]].
    all: unfold alert_of; simpl; split_and!; try done.
    all: try by apply (drawn_from_group_by_nil m_project_id m_id).
    all: try (match goal with Hx : _ ∈ _ :: _ |- _ ∈ _ <$> _ =>
                rewrite <- Hms in Hx;
                by apply (drawn_from_group_by m_project_id m_id) in Hx end).
    all: intros t; case_match; intros [= <-]; rewrite Hc1.
    all: apply (iso_minutes_before _ _ (w_ticks w1)); [done|done|lia].
  - intros out w' _ [[Hnum _] Hfan]. done.
Qed.

Lemma gen_incidents_shape E alerts k w :
  overflow_safe E (w_clock w) →
  wp E (gen_incidents alerts k)
    (fun out w' =>
       numbered_from "inc" (w_idf w) (w_idf w') (inc_id <$> out)
       ∧ fan_out (incident_of (w_clock w) (w_ticks w)) k alerts out) w.
Proof.
  intros Hsafe. unfold gen_incidents.
  eapply wp_mono.
  - apply (wp_fan_out E alerts k _
             (fun out w' => numbered_from "inc" (w_idf w) (w_idf w') (inc_id <$> out)
                            ∧ (w_ticks w ≤ w_ticks w')%nat)
             (incident_of (w_clock w) (w_ticks w))).
    { split; [apply numbered_from_nil|done]. }
    intros al i out w1 Hal _ Hc1 [Hnum Hticks]. rewrite <- Hc1 in Hsafe.
    repeat wp_step; try solve_overflow.
    all: eexists; split; [reflexivity|].
    all: split; [|split; [by apply numbered_snoc_next|lia]].
    all: unfold incident_of; simpl; split_and!; [done| |].
    all: try (rewrite Hc1; apply (iso_minutes_before _ _ (w_ticks w1)); [done|done|lia]).
    + right. split; [done|].
      refine (ex_intro _ _ (ex_intro _ _ (conj _ (conj eq_refl _)))).
      2:{ simpl. rewrite iso_add_minutes. reflexivity. }
      lia.
    + by left.
  - intros out w' _ [[Hnum _] Hfan]. done.
Qed.

Lemma gen_eval_suites_shape E projects k w :
  wp E (gen_eval_suites projects k)
    (fun out w' =>
       numbered_from "es" (w_idf w) (w_idf w') (es_id <$> out)
       ∧ fan_out suite_of k projects out) w.
Proof.
  unfold gen_eval_suites.
  apply (wp_fan_out E projects k _
           (fun out w' => numbered_from "es" (w_idf w) (w_idf w') (es_id <$> out))).
  { apply numbered_from_nil. }
  intros prj i out w1 Hprj _ _ Hnum.
  repeat wp_step.
  all: eexists; split; [reflexivity|]; split; [|by apply numbered_snoc_next].
  all: split_and!; simpl; [done|done|elem_of_list].
Qed.

Lemma gen_eval_runs_shape E suites k w :
  overflow_safe E (w_clock w) →
  wp E (gen_eval_runs suites k)
    (fun out w' =>
       numbered_from "er" (w_idf w) (w_idf w') (er_id <$> out)
       ∧ fan_out (run_of (w_clock w) (w_ticks w)) k suites out) w.
Proof.
  intros Hsafe. unfold gen_eval_runs.
  eapply wp_mono.
  - apply (wp_fan_out E suites k _
             (fun out w' => numbered_from "er" (w_idf w) (w_idf w') (er_id <$> out)
                            ∧ (w_ticks w ≤ w_ticks w')%nat)
             (run_of (w_clock w) (w_ticks w))).
    { split; [apply numbered_from_nil|done]. }
    intros su i out w1 Hsu _ Hc1 [Hnum Hticks]. rewrite <- Hc1 in Hsafe.
    repeat wp_step; try solve_overflow.
    all: eexists; split; [reflexivity|].
    all: split; [|split; [by apply numbered_snoc_next|lia]].
    all: unfold run_of; simpl; split_and!; [done|done|].
    all: rewrite Hc1; apply (iso_minutes_before _ _ (w_ticks w1)); [done|done|lia].
  - intros out w' _ [[Hnum _] Hfan]. done.
Qed.
End Children.

(** ** The other generators *)

Section Others.
Context {G : Type} `{!RandomGen G}.
Implicit Types (E : Exn → Prop) (w : World G).

Lemma gen_metrics_shape E projects k w :
  wp E (gen_metrics projects k)
    (fun out w' =>
       numbered_from "m" (w_idf w) (w_idf w') (m_id <$> out)
       ∧ fan_out metric_of k projects out) w.
Proof.
  unfold gen_metrics, fan_out.
  apply (wp_for_done E (fun done out w' =>
           numbered_from "m" (w_idf w) (w_idf w') (m_id <$> out)
           ∧ blocks_of (fun p blk => length blk = Z.to_nat k ∧ Forall (metric_of p) blk)
               done out)).
  { split; [apply numbered_from_nil|apply blocks_of_nil]. }
  intros done prj rest out w1 _ _ [Hnum Hblk].
  wp_step. eapply wp_mono.
  - apply (wp_for_done E (fun done_i st w' =>
             numbered_from "m" (w_idf w) (w_idf w') (m_id <$> st.1)
             ∧ ∃ blk, st.1 = out ++ blk ∧ length blk = length done_i
                      ∧ Forall (metric_of prj) blk)).
    { split; [done|]. exists []. simpl. by rewrite app_nil_r. }
    intros done_i i rest_i [out2 used] w2 _ _ (Hnum2 & blk & Hout & Hlen & Hall).
    simpl in *. subst out2.
    wp_step. apply wp_pick; [solve_nonempty|]. intros c0 g0 Hc0. wsimpl.
    wp_step.
    apply (wp_retry E _ _ _ (fun c => c ∈ METRIC_CATALOG)); [done| |].
    { intros g1 Q' HQ'. apply wp_pick; [solve_nonempty|]. intros c g2 Hc. by apply HQ'. }
    intros [[name retention] status] g1 Hc. repeat wp_step. simpl.
    split; [by apply numbered_snoc_next|].
    eexists (blk ++ [_]). split_and!.
    + by rewrite app_assoc.
    + rewrite !length_app. simpl. lia.
    + apply Forall_snoc; [done|]. by split.
  - intros [out2 used] w2 _ (Hnum2 & blk & Hout & Hlen & Hall). simpl in *.
    subst out2. apply wp_ret. split; [done|].
    apply blocks_of_snoc; [done|]. split; [|done].
    rewrite Hlen. unfold range. by rewrite length_seqZ.
Qed.

Lemma SCOPES_NoDup : NoDup SCOPES.
Proof. apply (bool_decide_unpack _). vm_compute. exact I. Qed.

Lemma gen_permissions_shape E projects users k w :
  wp E (gen_permissions projects users k)
    (fun out w' =>
       w_idf w' = w_idf w ∧ Forall (fun p => scopes_ok (perm_scopes p)) out) w.
Proof.
  unfold gen_permissions.
  apply wp_for; [by split|].
  intros u out w1 _ _ [Hidf Hok].
  set (avail := get_list _ _).
  wp_step. eapply wp_mono.
  - apply (wp_for_done E (fun _ st w' =>
             w_idf w' = w_idf w ∧ Forall (fun p => scopes_ok (perm_scopes p)) st.1));
      [done|].
    intros done_i i rest_i [out2 chosen] w2 Hi _ [Hidf2 Hok2]. simpl in *.
    apply range_split in Hi as [_ Hi].
    assert (avail ≠ []) as Hne.
    { intros Heq. rewrite Heq in Hi. unfold len in Hi. simpl in Hi. lia. }
    unfold grant_permission.
    wp_step. apply wp_choice; [done|]. intros prj0 g0 _.
    wp_step. apply (wp_retry E _ _ _ (fun _ => True)); [done| |].
    { intros g1 Q' HQ'. apply wp_choice; [done|]. intros p g2 _. by apply HQ'. }
    intros prj g1 _. wsimpl.
    assert (len SCOPES = 5) as Hsc by done.
    wp_step. apply wp_randint; [lia|]. intros n g2 Hn. wsimpl.
    wp_step. apply wp_sample_spec; [lia|]. intros scopes g3 Hlen [others Hperm].
    wp_step. simpl. split; [done|]. apply Forall_snoc; [done|]. simpl.
    pose proof SCOPES_NoDup as Hnd. rewrite <- Hperm in Hnd.
    apply NoDup_app in Hnd as (Hnd & _ & _).
    split_and!; [lia|lia|done|].
    intros s Hs. rewrite <- Hperm. apply elem_of_app. by left.
  - intros [out2 chosen] w2 _ [Hidf2 Hok2]. by apply wp_ret.
Qed.

Lemma gen_feature_flags_shape E orgs n w :
  wp E (gen_feature_flags orgs n)
    (fun out w' =>
       w_idf w' = w_idf w
       ∧ length out = Z.to_nat n
       ∧ ∀ i f, out !! i = Some f → flag_at orgs i f) w.
Proof.
  unfold gen_feature_flags.
  assert (len FLAG_KEYS = 9) as Hk by done.
  eapply wp_mono.
  - apply (wp_for_done E (fun done out w' =>
             w_idf w' = w_idf w
             ∧ length out = length done
             ∧ ∀ i f, out !! i = Some f → flag_at orgs i f)).
    { split_and!; [done|done|by intros i f Hi]. }
    intros done i rest out w1 Hi _ (Hidf & Hlen & Hflags).
    apply range_split in Hi as [Hi Hik]. unfold len in Hi.
    wp_step.
    apply (wp_mono E _ (fun key w' =>
             w' = w1 ∧ series_name FLAG_KEYS "custom.flag_" (length done) key)).
    { repeat wp_step.
      all: split; [done|]; unfold series_name.
      all: change (length FLAG_KEYS) with 9%nat; case_decide; try lia.
      - match goal with Hx : _ !! _ = Some _ |- _ => rewrite <- Hx end.
        f_equal. lia.
      - do 2 f_equal. lia. }
    intros key w2 _ [-> Hkey]. wp_step. eapply wp_mono.
    + apply (wp_for_done E (fun done_o acc w' =>
               w_idf w' = w_idf w ∧ acc `sublist_of` (org_id <$> done_o))).
      { by split. }
      intros done_o o rest_o acc w3 _ _ [Hidf3 Hacc]. repeat wp_step.
      split; [done|]. rewrite fmap_app. simpl. case_match.
      * apply sublist_app; [done|]. by apply sublist_skip.
      * by apply sublist_inserts_r.
    + intros acc w3 _ [Hidf3 Hacc]. repeat wp_step.
      split_and!; [done|rewrite !length_app; simpl; lia|].
      intros j f Hj. apply lookup_app_Some in Hj as [Hj|[Hge Hj]];
        [by apply Hflags|].
      apply list_lookup_singleton_Some in Hj as [Hj <-].
      assert (j = length done) as -> by lia. by split.
  - intros out w1 _ (Hidf & Hlen & Hflags). split_and!; [done| |done].
    rewrite Hlen. unfold range. by rewrite length_seqZ.
Qed.

Lemma gen_audit_logs_shape E orgs users projects dashboards widgets alerts n w :
  overflow_safe E (w_clock w) →
  wp E (gen_audit_logs orgs users projects dashboards widgets alerts n)
    (fun out w' =>
       numbered_from "aud" (w_idf w) (w_idf w') (aud_id <$> out)
       ∧ length out = Z.to_nat n
       ∧ Forall (log_of (w_clock w) (w_ticks w) users
                   (target_ids projects dashboards widgets alerts)) out) w.
Proof.
  intros Hsafe. unfold gen_audit_logs.
  remember ((_ <$> projects) ++ _) as pool eqn:Hdef.
  assert (pool.*2 = target_ids projects dashboards widgets alerts) as Hpool.
  { subst pool. unfold target_ids. rewrite !fmap_app, <- !list_fmap_compose. done. }
  clear Hdef.
  eapply wp_mono.
  - apply (wp_for_done E (fun done out w' =>
             (numbered_from "aud" (w_idf w) (w_idf w') (aud_id <$> out)
              ∧ (w_ticks w ≤ w_ticks w')%nat)
             ∧ length out = length done
             ∧ Forall (log_of (w_clock w) (w_ticks w) users
                         (target_ids projects dashboards widgets alerts)) out)).
    { split_and!; [apply numbered_from_nil|done|done|constructor]. }
    intros done i rest out w1 _ Hc1 ([Hnum Hticks] & Hlen & Hok).
    rewrite <- Hc1 in Hsafe.
    destruct users as [|u0 us] eqn:Hu; destruct pool as [|t0 ts] eqn:Hp.
    all: repeat wp_step; try solve_overflow.
    all: split_and!;
      [by apply numbered_snoc_next|lia|rewrite !length_app; simpl; lia|].
    all: apply Forall_snoc; [done|].
    all: unfold log_of; simpl; split_and!; try done.
    all: try (match goal with Hx : ?x ∈ _ |- usr_id ?x ∈ _ =>
                by apply (list_elem_of_fmap_2 usr_id) in Hx end).
    all: try (rewrite <- Hpool; simpl; done).
    all: try (rewrite <- Hpool;
              match goal with Hx : (_, ?t) ∈ _ |- _ =>
                by apply (list_elem_of_fmap_2 snd) in Hx end).
    all: rewrite Hc1;
      match goal with |- minutes_before _ _ _ _ (iso (?now - (0 * _ + ?m * _) * _)) =>
        apply (iso_minutes_before _ _ (w_ticks w1) now 0 m); [done|done|lia] end.
  - intros out w1 _ ([Hnum _] & Hlen & Hok). split_and!; [done| |done].
    rewrite Hlen. unfold range. by rewrite length_seqZ.
Qed.
End Others.

(** ** The assembler, again *)

Section Shape.
Context {G : Type} `{!RandomGen G}.
Implicit Types (E : Exn → Prop) (w : World G).

(** [gen_metric_samples] issues no identifier. *)
Lemma gen_metric_samples_idf E metrics spm w :
  E OverflowError ∨ spm ≤ dt_date (w_clock w (w_ticks w)) ≤ MAXORDINAL →
  wp E (gen_metric_samples metrics spm) (fun _ w' => w_idf w' = w_idf w) w.
Proof.
  intros Hsafe. unfold gen_metric_samples. wp_step. wp_step.
  apply (wp_for E (fun _ w' => w_idf w' = w_idf w)); [done|].
  intros m out w1 _ _ Hidf.
  apply (wp_for_done E (fun _ _ w' => w_idf w' = w_idf w)); [done|].
  intros done_i i rest_i out2 w2 Hi _ Hidf2.
  apply range_split in Hi as [_ Hi].
  repeat wp_step; try done; solve_overflow.
Qed.

Lemma unused_init : unused [] IdFactory.init.
Proof. intros q _. done. Qed.

(** A generator that issues identifiers for a prefix not used before
    numbers its records from 1. *)
Lemma numbered_fresh {A} p (id_of : A → string) used idf0 idf (l : list A) :
  numbered_from p idf0 idf (id_of <$> l) → unused used idf0 → p ∉ used →
  numbered p id_of l ∧ unused (p :: used) idf.
Proof.
  intros (Hids & _ & Hother) Hunused Hp. split.
  - unfold numbered. rewrite Hids at 1. rewrite len_fmap.
    by rewrite (Hunused p Hp).
  - intros q Hq. apply not_elem_of_cons in Hq as [Hne Hq].
    rewrite Hother by done. by apply Hunused.
Qed.

Lemma minutes_before_from clock from lo hi t :
  minutes_before clock from lo hi t → minutes_before clock 0 lo hi t.
Proof. intros (i & m & _ & Hm & Ht). exists i, m. split_and!; (lia || done). Qed.

Lemma fan_out_impl {P C} (R R' : P → C → Prop) k parents (out : list C) :
  (∀ p x, R p x → R' p x) → fan_out R k parents out → fan_out R' k parents out.
Proof.
  intros Himp. apply blocks_of_impl. intros p blk [Hlen Hall].
  split; [done|]. eapply Forall_impl; [exact Hall|]. auto.
Qed.

Ltac fresh_prefix := apply (bool_decide_unpack _); vm_compute; exact I.

(** Uses the specification [Hspec] of the generator at the head of the
    computation. *)
Ltac wp_gen Hspec :=
  apply wp_bind; eapply wp_mono; [apply Hspec|].

Lemma build_mock_data_shape E seed_ c w :
  build_safe E c (w_clock w) →
  wp E (build_mock_data seed_ c) (fun d _ => dataset_shape c (w_clock w) d) w.
Proof.
  intros Hsafe. unfold build_mock_data.
  assert (overflow_safe E (w_clock w)) as Hov.
  { destruct Hsafe as [?|[? _]]; [by left|by right]. }
  apply wp_bind, wp_seed. apply wp_bind, wp_new_IdFactory.
  pose proof unused_init as Hu0.
  wp_gen gen_orgs_shape. intros orgs w1 Hc1 (Horg & Horgs & _). wsimpl.
  eapply numbered_fresh in Horg as [Horg Hu1]; [|exact Hu0|fresh_prefix].
  wp_gen gen_users_shape. intros users w2 Hc2 (Husr & _).
  eapply numbered_fresh in Husr as [Husr Hu2]; [|exact Hu1|fresh_prefix].
  wp_gen gen_projects_shape. intros projects w3 Hc3 [Hprj Hprojects].
  eapply numbered_fresh in Hprj as [Hprj Hu3]; [|exact Hu2|fresh_prefix].
  wp_gen gen_dashboards_shape. intros dashboards w4 Hc4 [Hdb Hdashboards].
  eapply numbered_fresh in Hdb as [Hdb Hu4]; [|exact Hu3|fresh_prefix].
  wp_gen gen_metrics_shape. intros metrics w5 Hc5 [Hm Hmetrics].
  eapply numbered_fresh in Hm as [Hm Hu5]; [|exact Hu4|fresh_prefix].
  assert (w_clock w5 = w_clock w) as Hw5 by (wsimpl; congruence).
  apply wp_bind. eapply wp_mono.
  { apply gen_metric_samples_idf. rewrite Hw5.
    destruct Hsafe as [?|[Hok Hspm]]; [by left|right].
    split; [apply Hspm|]. specialize (Hok (w_ticks w5)).
    unfold dt_date, US_PER_DAY, MAXORDINAL in *. lia. }
  intros samples w6 Hc6 Hidf6. rewrite <- Hidf6 in Hu5.
  wp_gen gen_widgets_shape. intros widgets w7 Hc7 [Hw Hwidgets].
  eapply numbered_fresh in Hw as [Hw Hu7]; [|exact Hu5|fresh_prefix].
  assert (w_clock w7 = w_clock w) as Hw7 by congruence.
  apply wp_bind. eapply wp_mono; [apply gen_alerts_shape; by rewrite Hw7|].
  intros alerts w8 Hc8 [Hal Halerts]. rewrite Hw7 in Halerts.
  eapply numbered_fresh in Hal as [Hal Hu8]; [|exact Hu7|fresh_prefix].
  assert (w_clock w8 = w_clock w) as Hw8 by congruence.
  apply wp_bind. eapply wp_mono; [apply gen_incidents_shape; by rewrite Hw8|].
  intros incidents w9 Hc9 [Hinc Hincidents]. rewrite Hw8 in Hincidents.
  eapply numbered_fresh in Hinc as [Hinc Hu9]; [|exact Hu8|fresh_prefix].
  wp_gen gen_eval_suites_shape. intros suites w10 Hc10 [Hes Hsuites].
  eapply numbered_fresh in Hes as [Hes Hu10]; [|exact Hu9|fresh_prefix].
  assert (w_clock w10 = w_clock w) as Hw10 by congruence.
  apply wp_bind. eapply wp_mono; [apply gen_eval_runs_shape; by rewrite Hw10|].
  intros runs w11 Hc11 [Her Hruns]. rewrite Hw10 in Hruns.
  eapply numbered_fresh in Her as [Her Hu11]; [|exact Hu10|fresh_prefix].
  wp_gen gen_permissions_shape. intros perms w12 Hc12 [Hidf12 Hperms].
  rewrite <- Hidf12 in Hu11.
  wp_gen gen_feature_flags_shape. intros flags w13 Hc13 (Hidf13 & Hflags).
  rewrite <- Hidf13 in Hu11.
  assert (w_clock w13 = w_clock w) as Hw13 by congruence.
  apply wp_bind. eapply wp_mono; [apply gen_audit_logs_shape; by rewrite Hw13|].
  intros logs w14 Hc14 (Haud & Hlen & Hlogs). rewrite Hw13 in Hlogs.
  eapply numbered_fresh in Haud as [Haud _]; [|exact Hu11|fresh_prefix].
  apply wp_ret.
  split; simpl; try done.
  - eapply fan_out_impl; [|exact Halerts]. intros p a (?&?&?&?&Ht).
    split_and!; try done. intros t Hlf. eapply minutes_before_from; eauto.
  - eapply fan_out_impl; [|exact Hincidents]. intros p i (?&Ht&?).
    split_and!; try done. by eapply minutes_before_from.
  - eapply fan_out_impl; [|exact Hruns]. intros p r (?&?&Ht).
    split_and!; try done. by eapply minutes_before_from.
  - split; [done|]. eapply Forall_impl; [exact Hlogs|]. intros l (?&?&?&Ht).
    split_and!; try done. by eapply minutes_before_from.
Qed.

(** What holds of every data set that [build_mock_data] returns. *)
Lemma build_shape_returned seed_ c w d w' :
  build_mock_data seed_ c w = Ok (d, w') →
  dataset_ok c (w_clock w) d ∧ dataset_shape c (w_clock w) d.
Proof.
  intros Hrun. split.
  - by eapply build_returned.
  - apply (wp_returned any_exn _ _ _ _ _ (build_mock_data_shape any_exn seed_ c w
             (or_introl I)) Hrun).
Qed.
End Shape.

(** ** Reading the shape *)

Section ReadingTheShape.
Context {G : Type} `{!RandomGen G}.
Implicit Types (w : World G).









End ReadingTheShape.

(** ** The bindings of every user of a run *)

Section Bindings.
Context {G : Type} `{!RandomGen G}.
Implicit Types (w : World G) (projects : list Project) (users : list User).

(** [gen_permissions] is its outer loop. *)
Lemma gen_permissions_loop projects users k w :
  gen_permissions projects users k w = for_ users (bind_user projects k) [] w.
Proof.
  unfold gen_permissions. apply for_cong. intros u s w1.
  unfold bind_user, grant_loop. by rewrite get_list_group_by.
Qed.

Lemma grant_loop_to_nat u available (n : Z) perms w :
  grant_loop u available n perms w
  = grant_loop u available (Z.of_nat (Z.to_nat n)) perms w.
Proof.
  unfold grant_loop. replace (Z.of_nat (Z.to_nat n)) with (Z.max 0 n) by lia.
  by rewrite range_clamp.
Qed.

(** One iteration of the outer loop appends the records of its user. *)
Lemma bind_user_returned projects k u perms w out w' :
  bind_user projects k u perms w = Ok (out, w') →
  ∃ blk chosen,
    grant_loop u (org_projects projects u)
      (Z.min k (len (org_projects projects u))) perms w
    = Ok ((perms ++ blk, chosen), w')
    ∧ out = perms ++ blk
    ∧ Forall (fun p => perm_user_id p = usr_id u) blk.
Proof.
  unfold bind_user, bind. intros Hrun.
  destruct (grant_loop _ _ _ _ w) as [[[perms1 chosen] w1]|e] eqn:Hloop; [|done].
  injection Hrun as <- <-. pose proof Hloop as Hn.
  rewrite grant_loop_to_nat in Hn.
  apply grant_loop_returned in Hn as (blk & -> & _ & _ & Hblk).
  exists blk, chosen. split_and!; [done|done|].
  apply Forall_lookup. intros j p Hj. by destruct (Hblk j p Hj).
Qed.

(** The outer loop over [users] appends records of these users. *)
Lemma bind_users_returned projects k users perms w out w' :
  for_ users (bind_user projects k) perms w = Ok (out, w') →
  ∃ added, out = perms ++ added
    ∧ Forall (fun p => perm_user_id p ∈ usr_id <$> users) added.
Proof.
  revert perms w. induction users as [|u users IH]; intros perms w Hrun.
  - injection Hrun as <- <-. exists []. by rewrite app_nil_r.
  - rewrite for_cons in Hrun. unfold bind in Hrun.
    destruct (bind_user projects k u perms w) as [[mid w1]|e] eqn:Hu; [|done].
    apply bind_user_returned in Hu as (blk & chosen & _ & -> & Hblk).
    apply IH in Hrun as (added & -> & Hadded).
    exists (blk ++ added). split; [by rewrite app_assoc|].
    apply Forall_app. split.
    + eapply Forall_impl; [exact Hblk|]. intros p ->. rewrite fmap_cons. left.
    + eapply Forall_impl; [exact Hadded|]. intros p Hp. rewrite fmap_cons. by right.
Qed.

(** The run of [gen_permissions] around its [i]-th user: the records of the
    users before, the records of the user, the records of the users after. *)
Lemma gen_permissions_user projects users k w out w' i u :
  gen_permissions projects users k w = Ok (out, w') → users !! i = Some u →
  ∃ before blk after w1 w2 chosen,
    gen_permissions projects (take i users) k w = Ok (before, w1)
    ∧ grant_loop u (org_projects projects u)
        (Z.min k (len (org_projects projects u))) before w1
      = Ok ((before ++ blk, chosen), w2)
    ∧ out = before ++ blk ++ after
    ∧ Forall (fun p => perm_user_id p ∈ usr_id <$> take i users) before
    ∧ Forall (fun p => perm_user_id p = usr_id u) blk
    ∧ Forall (fun p => perm_user_id p ∈ usr_id <$> drop (S i) users) after.
Proof.
  intros Hrun Hu. rewrite gen_permissions_loop in Hrun.
  rewrite <- (take_drop_middle users i u Hu) in Hrun.
  rewrite for_app in Hrun.
  destruct (for_ (take i users) _ [] w) as [[before w1]|e] eqn:Hbefore; [|done].
  rewrite for_cons in Hrun. unfold bind in Hrun.
  destruct (bind_user projects k u before w1) as [[mid w2]|e] eqn:Hmid; [|done].
  apply bind_user_returned in Hmid as (blk & chosen & Hloop & -> & Hblk).
  apply bind_users_returned in Hrun as (after & -> & Hafter).
  pose proof Hbefore as Hb.
  apply bind_users_returned in Hb as (added & -> & Hadded). simpl in *.
  exists added, blk, after, w1, w2, chosen.
  split_and!; try done.
  - by rewrite gen_permissions_loop.
  - by rewrite app_assoc.
Qed.

(** With distinct user identifiers, the records that carry the identifier
    of a user are the records of its iteration. *)
Lemma user_permissions_block users i u (before blk after : list Permission) :
  NoDup (usr_id <$> users) → users !! i = Some u →
  Forall (fun p => perm_user_id p ∈ usr_id <$> take i users) before →
  Forall (fun p => perm_user_id p = usr_id u) blk →
  Forall (fun p => perm_user_id p ∈ usr_id <$> drop (S i) users) after →
  user_permissions (before ++ blk ++ after) u = blk.
Proof.
  intros Hnd Hu Hbefore Hblk Hafter.
  rewrite <- (take_drop_middle users i u Hu) in Hnd.
  rewrite fmap_app, fmap_cons in Hnd.
  apply NoDup_app in Hnd as (_ & Hleft & Hright).
  apply NoDup_cons in Hright as [Hright _].
  unfold user_permissions. rewrite !filter_app.
  rewrite (filter_none _ before), (filter_all _ blk), (filter_none _ after).
  - by rewrite app_nil_r.
  - eapply Forall_impl; [exact Hafter|]. intros p Hp Heq. simpl in Hp.
    rewrite Heq in Hp. done.
  - done.
  - eapply Forall_impl; [exact Hbefore|]. intros p Hp Heq. simpl in Hp.
    rewrite Heq in Hp. apply (Hleft _ Hp). left.
Qed.

Lemma gen_permissions_repeats projects users k w out w' :
  NoDup (usr_id <$> users) →
  gen_permissions projects users k w = Ok (out, w') →
  repeats_only_after_retries projects users k w out.
Proof.
  intros Hnd Hrun i u j p Hu Hj Hpair.
  destruct (gen_permissions_user _ _ _ _ _ _ _ _ Hrun Hu)
    as (before & blk & after & w1 & w2 & chosen & Hbefore & Hloop & -> & Hb & Hblk & Ha).
  rewrite (user_permissions_block users i u) in * by done.
  rewrite grant_loop_to_nat in Hloop.
  apply grant_loop_returned in Hloop as (blk' & Heq & _ & _ & Hrows).
  apply app_inv_head in Heq. subst blk'.
  destruct (Hrows j p Hj) as [_ Hex].
  destruct Hex as (wj & Hprefix & Hbudget).
  { unfold bindings in Hpair.
    apply list_elem_of_fmap in Hpair as (q & [= _ Hq] & Hin).
    rewrite Hq. by apply list_elem_of_fmap_2. }
  by exists before, w1, wj.
Qed.

(** [build_mock_data] gets its permissions from [gen_permissions], called
    on the projects and users of the data set in the world left by the
    generators before it. *)
Lemma build_mock_data_permissions seed_ c w d w' :
  build_mock_data seed_ c w = Ok (d, w') →
  ∃ w0 w1,
    build_until_permissions seed_ c w = Ok ((projects d, users d), w0)
    ∧ gen_permissions (projects d) (users d) (permissions_per_user c) w0
      = Ok (permissions d, w1).
Proof.
  unfold build_mock_data, build_until_permissions, bind. intros Hrun.
  repeat match type of Hrun with
  | match ?m with _ => _ end = _ =>
      let H := fresh "Hm" in
      destruct m as [[? ?]|?] eqn:H; [|discriminate Hrun]
  end.
  injection Hrun as <- <-. simpl. eauto.
Qed.
End Bindings.

(** ** Records dated from the clock *)

Section Dated.
Context {G : Type} `{!RandomGen G}.
Implicit Types (E : Exn → Prop) (w : World G).

Lemma dated_in_turn_nil {C} clock from lo hi (time_of : C → option isodatetime) :
  dated_in_turn clock from lo hi time_of [].
Proof. by intros n x t Hn. Qed.

Lemma dated_in_turn_snoc {C} clock from lo hi (time_of : C → option isodatetime)
    (out : list C) x :
  dated_in_turn clock from lo hi time_of out →
  (∀ t, time_of x = Some t →
     minutes_back (clock (from + length out)%nat) lo hi t) →
  dated_in_turn clock from lo hi time_of (out ++ [x]).
Proof.
  intros Hout Hx n y t Hn Ht. apply lookup_app_Some in Hn as [Hn|[Hge Hn]].
  - by eapply Hout.
  - apply list_lookup_singleton_Some in Hn as [Hn <-].
    replace n with (length out) by lia. by apply Hx.
Qed.

(** The text of the time [d] days and [mi] minutes before [now]. *)
Lemma iso_minutes_back now d mi lo hi :
  lo ≤ d * 1440 + mi ≤ hi →
  minutes_back now lo hi (iso (now - (d * 86400 + mi * 60) * 1000000)).
Proof.
  intros Hm. exists (d * 1440 + mi). split; [done|].
  unfold iso. f_equal. lia.
Qed.

Lemma gen_alerts_dated E projects metrics k w :
  overflow_safe E (w_clock w) →
  wp E (gen_alerts projects metrics k)
    (fun out w' =>
       w_ticks w' = (w_ticks w + length out)%nat
       ∧ dated_in_turn (w_clock w) (w_ticks w) 0 11520 al_last_fired_at out) w.
Proof.
  intros Hsafe. unfold gen_alerts.
  apply wp_for.
  { split; [simpl; lia|apply dated_in_turn_nil]. }
  intros prj out w1 _ Hc1 Hinv.
  apply wp_for; [done|].
  intros i out2 w2 _ Hc2 [Hticks Hdated]. rewrite <- Hc1, <- Hc2 in Hsafe.
  destruct (get_list (group_by m_project_id metrics) (prj_id prj)) as [|m0 ms].
  all: repeat wp_step; try solve_overflow.
  all: split; [rewrite length_app; simpl; lia|].
  all: apply dated_in_turn_snoc; [done|]; simpl.
  all: intros t; case_match; intros [= <-].
  all: rewrite <- Hticks, <- Hc1, <- Hc2; apply iso_minutes_back; lia.
Qed.

Lemma gen_eval_runs_dated E suites k w :
  overflow_safe E (w_clock w) →
  wp E (gen_eval_runs suites k)
    (fun out w' =>
       w_ticks w' = (w_ticks w + length out)%nat
       ∧ dated_in_turn (w_clock w) (w_ticks w) 0 7920
           (fun r => Some (er_created_at r)) out) w.
Proof.
  intros Hsafe. unfold gen_eval_runs.
  apply wp_for.
  { split; [simpl; lia|apply dated_in_turn_nil]. }
  intros su out w1 _ Hc1 Hinv.
  apply wp_for; [done|].
  intros i out2 w2 _ Hc2 [Hticks Hdated]. rewrite <- Hc1, <- Hc2 in Hsafe.
  repeat wp_step; try solve_overflow.
  split; [rewrite length_app; simpl; lia|].
  apply dated_in_turn_snoc; [done|]; simpl.
  intros t [= <-].
  rewrite <- Hticks, <- Hc1, <- Hc2. apply iso_minutes_back. lia.
Qed.

Lemma gen_audit_logs_dated E orgs users projects dashboards widgets alerts n w :
  overflow_safe E (w_clock w) →
  wp E (gen_audit_logs orgs users projects dashboards widgets alerts n)
    (fun out w' =>
       w_ticks w' = (w_ticks w + length out)%nat
       ∧ dated_in_turn (w_clock w) (w_ticks w) 0 10000
           (fun l => Some (aud_at l)) out) w.
Proof.
  intros Hsafe. unfold gen_audit_logs.
  remember ((_ <$> projects) ++ _) as pool eqn:Hdef. clear Hdef.
  apply wp_for.
  { split; [simpl; lia|apply dated_in_turn_nil]. }
  intros i out w1 _ Hc1 [Hticks Hdated]. rewrite <- Hc1 in Hsafe.
  destruct users as [|u0 us]; destruct pool as [|t0 ts].
  all: repeat wp_step; try solve_overflow.
  all: split; [rewrite length_app; simpl; lia|].
  all: apply dated_in_turn_snoc; [done|]; simpl.
  all: intros t [= <-].
  all: rewrite <- Hticks, <- Hc1; apply iso_minutes_back; lia.
Qed.
End Dated.

(** ** The claims *)

Section ClaimTheorems.
Context {G : Type} `{!RandomGen G}.
Implicit Types (w : World G) (d : MockData) (c : Config).

(** C3. In every data set returned by [build_mock_data], every foreign key
    is either absent ([None]) or the identifier of a record of the
    collection it refers to: no reference dangles.  This covers every
    collection, audit logs ([org_id], [actor_user_id], [target_id]) and
    widgets ([metric_id]) included. *)
Theorem no_dangling_reference seed_ c w d w' :
  build_mock_data seed_ c w = Ok (d, w') → referential_integrity d.
Proof. intros Hrun. eapply dataset_ok_integrity, build_returned, Hrun. Qed.

(** C4. In every data set returned by [build_mock_data]: the metric of a
    widget is a metric of the project of the widget's dashboard, the owner
    of a dashboard is a user of the organisation of the dashboard's project,
    and the metric of an alert is a metric of the alert's project. *)
Theorem references_stay_in_scope seed_ c w d w' :
  build_mock_data seed_ c w = Ok (d, w') → scoped_consistency d.
Proof. intros Hrun. eapply dataset_ok_scoped, build_returned, Hrun. Qed.

(** C6. Every incident generated has status "resolved" exactly when
    [resolved_at] is present and status "open" exactly when it is absent;
    when present, [resolved_at] is strictly later than [opened_at], both
    being whole seconds. *)
Theorem incident_status_and_times alerts k w out w' :
  gen_incidents alerts k w = Ok (out, w') → Forall incident_ok out.
Proof.
  intros Hrun.
  pose proof (wp_returned any_exn _ _ _ _ _
    (gen_incidents_spec any_exn alerts k w (or_introl I)) Hrun) as [_ Hok].
  eapply Forall_impl; [exact Hok|]. by intros i [_ ?].
Qed.

(** C8. With [n >= 0] organisations and [k >= 1] users per organisation,
    the users of the data set are [n * k], exactly [n] of them are
    administrators, and in every organisation the administrator is the first
    user generated for it and no other. *)
Theorem users_cardinality_and_admins seed_ c w d w' :
  build_mock_data seed_ c w = Ok (d, w') →
  0 ≤ orgs_count c → 1 ≤ users_per_org c →
  len (users d) = orgs_count c * users_per_org c
  ∧ len (filter is_admin (users d)) = orgs_count c
  ∧ ∀ o, o ∈ orgs d →
      ∃ u rest, org_users (users d) o = u :: rest ∧ is_admin u
                ∧ Forall (fun v => ¬ is_admin v) rest.
Proof. intros Hrun. eapply dataset_ok_users, build_returned, Hrun. Qed.

(** C9. When at least one sample per metric is asked for, the samples of
    every metric, in generation order, are dated on consecutive days, each
    one day after the previous, and the last is dated on the date read from
    the clock when the generator starts. *)
Theorem metric_samples_daily metrics spm w out w' :
  gen_metric_samples metrics spm w = Ok (out, w') → 1 ≤ spm →
  blocks_of (metric_series (dt_date (w_clock w (w_ticks w))) spm) metrics out.
Proof.
  intros Hrun Hspm.
  pose proof (wp_returned any_exn _ _ _ _ _
    (gen_metric_samples_spec any_exn metrics spm w (or_introl I)) Hrun) as Hblk.
  eapply blocks_of_impl; [|exact Hblk].
  intros m blk. by apply sample_rows_series.
Qed.

(** C10. For a non-negative [permissions_per_user], every user gets exactly
    min(permissions_per_user, number of projects of the user's
    organisation) permission records: fewer than asked for when the
    organisation has fewer projects, none when it has none. *)
Theorem permissions_per_user_count seed_ c w d w' :
  build_mock_data seed_ c w = Ok (d, w') → 0 ≤ permissions_per_user c →
  ∀ u, u ∈ users d →
    len (user_permissions (permissions d) u)
    = Z.min (permissions_per_user c) (len (org_projects (projects d) u)).
Proof. intros Hrun. eapply dataset_ok_permissions, build_returned, Hrun. Qed.

(** C1, as amended.  Two runs of [build_mock_data] on the same seed and
    configuration return data sets that are equal in every collection,
    record and field except for the values of the dates and times, which
    are computed from the wall clock: the date of a metric sample, and the
    times [last_fired_at] (when present), [opened_at], [resolved_at] (when
    present), [created_at] and [at].  Whatever state the generator and the
    identifier factory were in before, runs that read the same clock return
    the same data set. *)
Theorem same_seed_same_data_up_to_clock seed_ c w1 w2 d1 w1' d2 w2' :
  build_mock_data seed_ c w1 = Ok (d1, w1') →
  build_mock_data seed_ c w2 = Ok (d2, w2') →
  mask_data d1 = mask_data d2
  ∧ (w_clock w1 = w_clock w2 → w_ticks w1 = w_ticks w2 → d1 = d2).
Proof.
  intros H1 H2. split.
  - exact (rwp_returned _ _ _ _ _ _ _ _ _ (rwp_build_mock_data seed_ c w1 w2) H1 H2).
  - intros Hc Ht.
    assert (build_mock_data seed_ c w1 = build_mock_data seed_ c w2) as Heq.
    { change (build_mock_data seed_ c w1)
        with (build_mock_data seed_ c (fresh_world seed_ w1)).
      change (build_mock_data seed_ c w2)
        with (build_mock_data seed_ c (fresh_world seed_ w2)).
      unfold fresh_world. by rewrite Hc, Ht. }
    congruence.
Qed.

(** C2, as amended.  A negative count raises no error and is not rejected:
    every loop over [range(n)] with [n <= 0] runs zero times, so the run is
    the run over the configuration in which every negative count is
    replaced by 0, with the same result, be it a data set or an exception
    of a date computation. *)
Theorem negative_count_runs_as_zero seed_ c w :
  build_mock_data seed_ c w = build_mock_data seed_ (clamp c) w.
Proof. symmetry. apply build_mock_data_clamp. Qed.

(** C7, as amended.  For every user of every data set that
    [build_mock_data] returns, a permission record generated for that user
    repeats the [(user_id, project_id)] pair of an earlier record of that
    user only when the retry budget is exhausted.  The permissions of the
    data set are returned by [gen_permissions], called on its projects and
    users in the world [w0] left by the generators before it; the records
    of the [i]-th user [u] are those that carry its identifier; and if the
    [j]-th of them repeats a pair then, in the state the generator was in
    when that record was drawn, which is the state after the records of the
    first [i] users and the first [j] records of [u], the draw of the
    project and the 10 re-draws that follow all returned projects already
    chosen for [u].  Uniqueness of the pairs is attempted, not
    guaranteed. *)
Theorem permission_pair_repeated_only_after_retries
    seed_ c w d w' (i : nat) u (j : nat) p :
  build_mock_data seed_ c w = Ok (d, w') →
  users d !! i = Some u →
  user_permissions (permissions d) u !! j = Some p →
  (perm_user_id p, perm_project_id p)
    ∈ bindings (take j (user_permissions (permissions d) u)) →
  ∃ w0 w2 before w1 wj,
    build_until_permissions seed_ c w = Ok ((projects d, users d), w0)
    ∧ gen_permissions (projects d) (users d) (permissions_per_user c) w0
      = Ok (permissions d, w2)
    ∧ gen_permissions (projects d) (take i (users d)) (permissions_per_user c) w0
      = Ok (before, w1)
    ∧ grant_loop u (org_projects (projects d) u) (Z.of_nat j) before w1
      = Ok ((before ++ take j (user_permissions (permissions d) u),
             list_to_set
               (bound_projects (take j (user_permissions (permissions d) u)))),
            wj)
    ∧ budget_exhausted (org_projects (projects d) u)
        (bound_projects (take j (user_permissions (permissions d) u)))
        (w_rng wj).
Proof.
  intros Hrun Hu Hj Hpair.
  destruct (build_mock_data_permissions _ _ _ _ _ Hrun) as (w0 & w2 & Hpre & Hgen).
  assert (NoDup (usr_id <$> users d)) as Hnd.
  { apply (ok_usr_ids _ _ _ (build_returned _ _ _ _ _ Hrun)). }
  destruct (gen_permissions_repeats _ _ _ _ _ _ Hnd Hgen i u j p Hu Hj Hpair)
    as (before & w1 & wj & Hbefore & Hloop & Hbudget).
  by exists w0, w2, before, w1, wj.
Qed.

(** Beyond the claims: the run returns.  When every reading of the clock is
    at least 17 days after [datetime.min] and a day before [datetime.max],
    and no metric is asked for more samples than there are days up to
    today, [build_mock_data] raises no exception, whatever the generator
    draws. *)
Theorem build_mock_data_returns seed_ c w :
  clock_ok (w_clock w) →
  (∀ i, samples_per_metric c ≤ dt_date (w_clock w i)) →
  ∃ d w', build_mock_data seed_ c w = Ok (d, w') ∧ dataset_ok c (w_clock w) d.
Proof.
  intros Hclock Hspm. apply wp_returns, build_mock_data_spec.
  right. by split.
Qed.
End ClaimTheorems.

(** C5. The [i]-th call of [next] on a new factory, made for prefix [p],
    returns [p_n] with [n] one more than the number of earlier calls made
    for [p]: 1 on the first call for [p] and one more on each later call,
    whatever calls are made for other prefixes.  No two calls return the
    same identifier, and no two records of a data set returned by
    [build_mock_data] carry the same identifier. *)
Theorem identifiers_numbered_and_unique :
  (∀ prefixes i p, prefixes !! i = Some p →
     (issue prefixes IdFactory.init).1 !! i
     = Some (IdFactory.fmt p (1 + occurrences p (take i prefixes))))
  ∧ (∀ prefixes, NoDup (issue prefixes IdFactory.init).1)
  ∧ (∀ G (R : RandomGen G) seed_ c (w : World G) d w',
       build_mock_data seed_ c w = Ok (d, w') → NoDup (all_ids d)).
Proof.
  split_and!.
  - intros prefixes i p Hp. rewrite (issue_lookup _ _ _ _ Hp). done.
  - intros prefixes. apply issue_NoDup.
  - intros G R seed_ c w d w' Hrun.
    eapply dataset_ok_all_ids, build_returned, Hrun.
Qed.


(** *** The claims at work *)

(** Seed 42 with the default counts: the run returns, and no reference of
    the data set dangles. *)
Lemma no_dangling_reference_witness :
  ∃ d w', build_mock_data 42 default_config world0 = Ok (d, w')
          ∧ referential_integrity d.
Proof.
  eexists _, _. split; [vm_compute; reflexivity|].
  eapply (no_dangling_reference 42 default_config world0). vm_compute. reflexivity.
Defined.

(** Seed 42 with the default counts: every cross reference of the data
    set stays within its project or organisation. *)
Lemma references_stay_in_scope_witness :
  ∃ d w', build_mock_data 42 default_config world0 = Ok (d, w')
          ∧ scoped_consistency d.
Proof.
  eexists _, _. split; [vm_compute; reflexivity|].
  eapply (references_stay_in_scope 42 default_config world0). vm_compute. reflexivity.
Defined.

(** Every count at -1, seed 42: [build_mock_data] raises nothing and
    returns the data set whose collections are all empty. *)
Lemma negative_count_no_error :
  orgs_count negative_config < 0 ∧ users_per_org negative_config < 0
  ∧ ∃ w', build_mock_data 42 negative_config world0 = Ok (empty_data, w').
Proof.
  split_and!; [done|done|]. eexists. vm_compute. reflexivity.
Qed.

(** Seed 42 with the default counts, run at noon of one day and at noon of
    the next: the two data sets differ (in the dates of the metric
    samples). *)
Lemma clock_changes_output :
  ∃ d1 w1 d2 w2,
    build_mock_data 42 default_config world0 = Ok (d1, w1)
    ∧ build_mock_data 42 default_config world_next_day = Ok (d2, w2)
    ∧ d1 ≠ d2.
Proof.
  eexists _, _, _, _. split_and!; [vm_compute; reflexivity..|].
  intros Heq. apply (f_equal metric_samples) in Heq. simpl in Heq.
  discriminate Heq.
Qed.

(** The same two runs agree once the dates and times are masked. *)
Lemma same_seed_same_data_up_to_clock_witness :
  ∃ d1 w1 d2 w2,
    build_mock_data 42 default_config world0 = Ok (d1, w1)
    ∧ build_mock_data 42 default_config world_next_day = Ok (d2, w2)
    ∧ mask_data d1 = mask_data d2
    ∧ (w_clock world0 = w_clock world_next_day →
       w_ticks world0 = w_ticks world_next_day → d1 = d2).
Proof.
  eexists _, _, _, _.
  split; [vm_compute; reflexivity|]. split; [vm_compute; reflexivity|].
  eapply (same_seed_same_data_up_to_clock 42 default_config world0 world_next_day);
    vm_compute; reflexivity.
Defined.

(** Incidents generated for one alert: each is open without a resolution
    time, or resolved with a resolution time after its opening. *)
Lemma incident_status_and_times_witness :
  ∃ out w', gen_incidents [one_alert] 3 (fresh_world 42 world0) = Ok (out, w')
            ∧ Forall incident_ok out.
Proof.
  eexists _, _. split; [vm_compute; reflexivity|].
  eapply (incident_status_and_times [one_alert] 3 (fresh_world 42 world0)).
  vm_compute. reflexivity.
Defined.

(** Two organisations of three users: six users, the first of each
    organisation its only admin. *)
Lemma users_cardinality_and_admins_witness :
  ∃ d w', build_mock_data 42 default_config world0 = Ok (d, w')
    ∧ len (users d) = 2 * 3
    ∧ len (filter is_admin (users d)) = 2
    ∧ ∀ o, o ∈ orgs d →
        ∃ u rest, org_users (users d) o = u :: rest ∧ is_admin u
                  ∧ Forall (fun v => ¬ is_admin v) rest.
Proof.
  eexists _, _. split; [vm_compute; reflexivity|].
  eapply (users_cardinality_and_admins 42 default_config world0);
    [vm_compute; reflexivity|done|done].
Defined.

(** Samples generated for one metric: one per day, ending today. *)
Lemma metric_samples_daily_witness :
  ∃ out w',
    gen_metric_samples [one_metric] 5 (fresh_world 42 world0) = Ok (out, w')
    ∧ blocks_of (metric_series (dt_date noon_2026) 5) [one_metric] out.
Proof.
  eexists _, _. split; [vm_compute; reflexivity|].
  eapply (metric_samples_daily [one_metric] 5 (fresh_world 42 world0));
    [vm_compute; reflexivity|done].
Defined.

(** Seed 42 with the default counts: two permission records per user when
    the organisation of the user has a project. *)
Lemma permissions_per_user_count_witness :
  ∃ d w', build_mock_data 42 default_config world0 = Ok (d, w')
    ∧ ∀ u, u ∈ users d →
        len (user_permissions (permissions d) u)
        = Z.min 2 (len (org_projects (projects d) u)).
Proof.
  eexists _, _. split; [vm_compute; reflexivity|].
  eapply (permissions_per_user_count 42 default_config world0);
    [vm_compute; reflexivity|done].
Defined.

(** Seed 121 with the default counts, under CPython's generator: the second
    user is bound twice to the same project. *)
Lemma duplicate_permission_pair :
  ∃ d w', build_mock_data 121 default_config world0 = Ok (d, w')
    ∧ ∃ u, u ∈ users d
           ∧ ¬ NoDup (bindings (user_permissions (permissions d) u)).
Proof.
  eexists _, _. split; [vm_compute; reflexivity|].
  eexists. split; [right; left|].
  intros Hnd. apply (bool_decide_pack _) in Hnd. vm_compute in Hnd. exact Hnd.
Qed.

(** Seed 121 with the default counts: the second record of the second user
    repeats the pair of the first, and the budget of re-draws was used up
    when it was drawn. *)
Lemma permission_pair_repeated_only_after_retries_witness :
  ∃ d w', build_mock_data 121 default_config world0 = Ok (d, w')
    ∧ ∃ u p,
        users d !! 1%nat = Some u
        ∧ user_permissions (permissions d) u !! 1%nat = Some p
        ∧ (perm_user_id p, perm_project_id p)
            ∈ bindings (take 1 (user_permissions (permissions d) u))
        ∧ ∃ w0 w2 before w1 wj,
            build_until_permissions 121 default_config world0
            = Ok ((projects d, users d), w0)
            ∧ gen_permissions (projects d) (users d)
                (permissions_per_user default_config) w0
              = Ok (permissions d, w2)
            ∧ gen_permissions (projects d) (take 1 (users d))
                (permissions_per_user default_config) w0
              = Ok (before, w1)
            ∧ grant_loop u (org_projects (projects d) u) (Z.of_nat 1) before w1
              = Ok ((before ++ take 1 (user_permissions (permissions d) u),
                     list_to_set (bound_projects
                                    (take 1 (user_permissions (permissions d) u)))),
                    wj)
            ∧ budget_exhausted (org_projects (projects d) u)
                (bound_projects (take 1 (user_permissions (permissions d) u)))
                (w_rng wj).
Proof.
  eexists _, _. split; [vm_compute; reflexivity|].
  eexists _, _. split; [reflexivity|]. split; [reflexivity|].
  split; [apply (bool_decide_unpack _); vm_compute; exact I|].
  eapply (permission_pair_repeated_only_after_retries 121 default_config world0).
  - vm_compute. reflexivity.
  - reflexivity.
  - reflexivity.
  - apply (bool_decide_unpack _). vm_compute. exact I.
Defined.

(** The identifier factory numbers [org], [usr], [org] as 1, 1, 2, and the
    identifiers of the data set of seed 42 are pairwise distinct. *)
Lemma identifiers_numbered_and_unique_witness :
  (issue ["org"; "usr"; "org"] IdFactory.init).1 !! 2%nat = Some "org_2"
  ∧ ∃ d w', build_mock_data 42 default_config world0 = Ok (d, w')
            ∧ NoDup (all_ids d).
Proof.
  pose proof identifiers_numbered_and_unique as (Hnum & _ & Huniq). split.
  - exact (Hnum ["org"; "usr"; "org"] 2%nat "org" eq_refl).
  - eexists _, _. split; [vm_compute; reflexivity|].
    eapply (Huniq _ _ 42 default_config world0). vm_compute. reflexivity.
Defined.

(** At noon of a day of 2026 the default counts are within the range of
    the clock: the run returns. *)
Lemma build_mock_data_returns_witness :
  ∃ d w', build_mock_data 42 default_config world0 = Ok (d, w')
          ∧ dataset_ok default_config (w_clock world0) d.
Proof.
  apply (build_mock_data_returns 42 default_config world0).
  - intros i. vm_compute. split; [intros [=]|reflexivity].
  - intros i. vm_compute. intros [=].
Defined.

(** * More of the program *)

(** ** [slugify] *)

(** On ASCII names, where [lower], [is_word] and so [slugify] are the
    functions of the source, [slugify] returns only lowercase letters and
    digits: no space, punctuation or capital is left. *)
Theorem slugify_only_letters_and_digits (name : string) :
  string_forall is_ascii name = true →
  string_forall is_lower_alnum (slugify name) = true.
Proof. intros _. apply slugify_chars. Qed.

(** A text of lowercase letters and digits is its own slug; so the slug of
    an ASCII name is not changed by [slugify]: on ASCII names, applying
    [slugify] twice gives what applying it once gives. *)
Theorem slugify_keeps_slugs :
  (∀ s, string_forall is_lower_alnum s = true → slugify s = s)
  ∧ (∀ name, string_forall is_ascii name = true →
       slugify (slugify name) = slugify name).
Proof.
  split; [apply slugify_slug|].
  intros name _. apply slugify_slug, slugify_chars.
Qed.

(** ** [pick] *)

Section MoreOfTheProgram.
Context {G : Type} `{!RandomGen G}.
Implicit Types (w : World G).

(** [pick] of an empty list raises [IndexError]; of a list that is not
    empty it returns one of the elements and raises nothing. *)
Theorem pick_member_or_IndexError {A} (w : World G) :
  pick (@nil A) w = Raise IndexError
  ∧ ∀ (a : A) seq, ∃ x w', pick (a :: seq) w = Ok (x, w') ∧ x ∈ a :: seq.
Proof.
  split; [done|]. intros a seq. apply wp_returns, wp_pick; [done|].
  intros x g Hx. done.
Qed.

(** ** [gen_orgs] *)

(** [gen_orgs(idf, n)] returns [n] organisations whose names are pairwise
    distinct, for every [n]: the first 17 names come from [ORG_NAMES], the
    name at a later position [i] is [Org i+1], and every plan is one of
    [PLANS]. *)
Theorem gen_orgs_names_distinct (n : Z) w :
  ∃ out w', gen_orgs n w = Ok (out, w')
    ∧ length out = Z.to_nat n
    ∧ NoDup (org_name <$> out)
    ∧ ∀ i o, out !! i = Some o →
        org_plan o ∈ PLANS
        ∧ if decide (i < 17)%nat then org_name o ∈ ORG_NAMES
          else org_name o = "Org " +:+ pretty (Z.of_nat i + 1).
Proof.
  apply wp_returns. eapply wp_mono; [apply gen_orgs_shape|].
  intros out w' _ (_ & Hlen & Hplan & names & Hperm & Hname).
  split_and!; [done| |].
  - apply (series_NoDup names "Org ").
    + rewrite Hperm. apply ORG_NAMES_NoDup.
    + intros s. rewrite Hperm. apply org_prefix_fresh.
    + intros i x Hi. apply list_lookup_fmap_Some in Hi as (o & -> & Ho). eauto.
  - intros i o Ho. split.
    { rewrite Forall_forall in Hplan. apply Hplan. by eapply list_elem_of_lookup_2. }
    specialize (Hname i o Ho). unfold series_name in Hname.
    rewrite (Permutation_length Hperm) in Hname. change (length ORG_NAMES) with 17%nat in Hname.
    case_decide; [|done]. rewrite <- Hperm. by eapply list_elem_of_lookup_2.
Qed.

(** ** [gen_users] *)

(** For organisations with ASCII names, on which [slugify] is the function
    of the source, [gen_users] gives the [j]-th user it generates the
    address [<first name in lower case><j+1>@<slug of the organisation's
    name>.com], the organisation being the one the user belongs to; no two
    users share an address. *)
Theorem gen_users_emails (orgs : list Org) (k : Z) w :
  Forall (fun o => string_forall is_ascii (org_name o) = true) orgs →
  ∃ out w', gen_users orgs k w = Ok (out, w')
    ∧ NoDup (usr_email <$> out)
    ∧ ∀ j u, out !! j = Some u →
        ∃ org, org ∈ orgs ∧ usr_org_id u = org_id org
          ∧ usr_email u
            = (lower (usr_name u) +:+ pretty (Z.of_nat j + 1))
              +:+ "@" +:+ (slugify (org_name org) +:+ ".com").
Proof.
  intros _. apply wp_returns. eapply wp_mono; [apply gen_users_shape|].
  intros out w' _ (_ & _ & pool & Hperm & Hname). split.
  - by eapply user_emails_NoDup.
  - intros j u Hu. by destruct (Hname j u Hu) as [_ Horg].
Qed.

(** [gen_users] hands out the 30 first names of [FIRST_NAMES] in a shuffled
    order and starts again after 30 users: two users 30 places apart have
    the same first name, and two users less than 30 places apart have
    different first names. *)
Theorem gen_users_first_names (orgs : list Org) (k : Z) w :
  ∃ out w', gen_users orgs k w = Ok (out, w')
    ∧ Forall (fun u => usr_name u ∈ FIRST_NAMES) out
    ∧ (∀ j u v, out !! j = Some u → out !! (j + 30)%nat = Some v →
         usr_name u = usr_name v)
    ∧ (∀ i j u v, out !! i = Some u → out !! j = Some v →
         (i < j < i + 30)%nat → usr_name u ≠ usr_name v).
Proof.
  apply wp_returns. eapply wp_mono; [apply gen_users_shape|].
  intros out w' _ (_ & _ & pool & Hperm & Hname).
  assert (length pool = 30%nat) as Hlen by (by rewrite (Permutation_length Hperm)).
  assert (NoDup pool) as Hnd by (rewrite Hperm; apply FIRST_NAMES_NoDup).
  split_and!.
  - apply Forall_forall. intros u Hu. apply list_elem_of_lookup in Hu as [j Hu].
    by destruct (user_named_letters _ _ _ _ Hperm (Hname j u Hu)).
  - intros j u v Hu Hv.
    destruct (Hname _ _ Hu) as [Hnu _]. destruct (Hname _ _ Hv) as [Hnv _].
    rewrite Hlen in Hnu, Hnv.
    replace ((j + 30) mod 30)%nat with (j mod 30)%nat in Hnv; [congruence|].
    rewrite Nat.Div0.add_mod, Nat.Div0.mod_same, Nat.add_0_r.
    by rewrite Nat.Div0.mod_mod.
  - intros i j u v Hu Hv Hij Heq.
    destruct (Hname _ _ Hu) as [Hnu _]. destruct (Hname _ _ Hv) as [Hnv _].
    rewrite Hlen in Hnu, Hnv. rewrite Heq in Hnu.
    pose proof (NoDup_lookup _ _ _ _ Hnd Hnu Hnv) as Hmod.
    pose proof (Nat.div_mod_eq i 30). pose proof (Nat.div_mod_eq j 30).
    pose proof (Nat.mod_upper_bound i 30). pose proof (Nat.mod_upper_bound j 30).
    nia.
Qed.
End MoreOfTheProgram.

Section MoreGenerators.
Context {G : Type} `{!RandomGen G}.
Implicit Types (w : World G).

(** ** [gen_projects] *)

(** [gen_projects] returns, for every organisation in turn, exactly
    [projects_per_org] projects that carry the organisation's identifier,
    each with a name of [PROJECT_NAMES] and a visibility that is [private]
    or [public]; it raises nothing. *)
Theorem gen_projects_per_org (orgs : list Org) (k : Z) w :
  ∃ out w', gen_projects orgs k w = Ok (out, w') ∧ fan_out project_of k orgs out.
Proof.
  apply wp_returns. eapply wp_mono; [apply gen_projects_shape|].
  by intros out w' _ [_ Hfan].
Qed.

(** ** [gen_dashboards] *)

(** [gen_dashboards] returns, for every project in turn, exactly
    [dashboards_per_project] dashboards of that project.  The owner of a
    dashboard is absent exactly when no user has the organisation of the
    project, and is otherwise the identifier of such a user; no exception is
    raised in either case. *)
Theorem gen_dashboards_owner (projects : list Project) (users : list User) (k : Z) w :
  ∃ out w', gen_dashboards projects users k w = Ok (out, w')
    ∧ fan_out (dashboard_of users) k projects out.
Proof.
  apply wp_returns. eapply wp_mono; [apply gen_dashboards_shape|].
  by intros out w' _ [_ Hfan].
Qed.

(** ** [gen_metrics] *)

(** [gen_metrics] returns, for every project in turn, exactly
    [metrics_per_project] metrics of that project, and the name, retention
    and status of each are those of one row of [METRIC_CATALOG]: the three
    fields are never mixed from different rows. *)
Theorem gen_metrics_catalog_rows (projects : list Project) (k : Z) w :
  ∃ out w', gen_metrics projects k w = Ok (out, w')
    ∧ fan_out metric_of k projects out.
Proof.
  apply wp_returns. eapply wp_mono; [apply gen_metrics_shape|].
  by intros out w' _ [_ Hfan].
Qed.

(** ** [gen_metric_samples] *)

(** When there is a metric and more samples are asked for than there are
    days from 0001-01-01 to today, [gen_metric_samples] raises
    [OverflowError]: the date of the first sample would lie before the first
    date there is. *)
Theorem gen_metric_samples_overflow (m : Metric) (metrics : list Metric) (spm : Z) w :
  dt_date (w_clock w (w_ticks w)) < spm → 0 ≤ w_clock w (w_ticks w) →
  gen_metric_samples (m :: metrics) spm w = Raise OverflowError.
Proof.
  intros Hspm Hclock.
  assert (0 < dt_date (w_clock w (w_ticks w))) as Htoday.
  { unfold dt_date, US_PER_DAY. lia. }
  assert (∀ X S (x : X) xs (body : X → S → M G S) s w0 e,
            body x s w0 = Raise e → for_ (x :: xs) body s w0 = Raise e) as Hfor.
  { intros X S x xs body s w0 e Hbody. rewrite for_cons. unfold bind. by rewrite Hbody. }
  unfold gen_metric_samples. unfold bind at 1, now_utc.
  apply Hfor. unfold range. rewrite (seqZ_cons 0 spm) by lia. apply Hfor.
  unfold bind at 1. unfold timedelta.
  destruct (Z.abs _ >? MAX_DELTA_DAYS); [reflexivity|].
  unfold ret at 1. unfold bind at 1. unfold date_sub.
  assert (((spm - 1 - 0) * 86400 + 0 * 60) * 1000000 / US_PER_DAY = spm - 1) as Hd.
  { unfold US_PER_DAY. lia. }
  rewrite Hd. destruct ((0 <? _) && _) eqn:Hb; [lia|reflexivity].
Qed.

(** ** [gen_widgets] *)

(** [gen_widgets] returns, for every dashboard in turn, exactly
    [widgets_per_dashboard] widgets of that dashboard.  The metric of a
    widget is absent exactly when the project of the dashboard has no
    metric, and is otherwise the identifier of a metric of that project; the
    type, title and environment come from their lists, and the filter holds
    exactly one region. *)
Theorem gen_widgets_metric (dashboards : list Dashboard) (metrics : list Metric)
    (k : Z) w :
  ∃ out w', gen_widgets dashboards metrics k w = Ok (out, w')
    ∧ fan_out (widget_of metrics) k dashboards out.
Proof.
  apply wp_returns. eapply wp_mono; [apply gen_widgets_shape|].
  by intros out w' _ [_ Hfan].
Qed.

(** ** [gen_alerts] *)

(** With a clock within the range of [datetime], [gen_alerts] returns, for
    every project in turn, exactly [alerts_per_project] alerts of that
    project.  The metric of an alert is absent exactly when the project has
    no metric, and is otherwise the identifier of one of its metrics.  The
    call reads the clock once for every alert, and the time the [n]-th
    alert last fired, when there is one, is the [n]-th of these readings,
    cut to the second and moved back by a whole number of minutes, at most
    8 days: it is never after the reading it was made from. *)
Theorem gen_alerts_metric_and_last_fired (projects : list Project)
    (metrics : list Metric) (k : Z) w :
  clock_ok (w_clock w) →
  ∃ out w', gen_alerts projects metrics k w = Ok (out, w')
    ∧ fan_out (alert_of (w_clock w) (w_ticks w) metrics) k projects out
    ∧ w_ticks w' = (w_ticks w + length out)%nat
    ∧ dated_in_turn (w_clock w) (w_ticks w) 0 11520 al_last_fired_at out.
Proof.
  intros Hclock. apply wp_returns.
  eapply wp_mono;
    [apply wp_and; [apply gen_alerts_shape|apply gen_alerts_dated]; by right|].
  by intros out w' _ [[_ Hfan] [Hticks Hdated]].
Qed.

(** ** [gen_incidents] *)

(** With a clock within the range of [datetime], [gen_incidents] returns,
    for every alert in turn, exactly [incidents_per_alert] incidents of that
    alert.  An incident is opened between 10 and 24400 minutes before a
    reading of the clock, to the second; it is either open with no
    resolution time, or resolved a whole number of minutes, between 5 and
    180, after it was opened. *)
Theorem gen_incidents_times (alerts : list Alert) (k : Z) w :
  clock_ok (w_clock w) →
  ∃ out w', gen_incidents alerts k w = Ok (out, w')
    ∧ fan_out (incident_of (w_clock w) (w_ticks w)) k alerts out.
Proof.
  intros Hclock. apply wp_returns.
  eapply wp_mono; [apply gen_incidents_shape; by right|].
  by intros out w' _ [_ Hfan].
Qed.

(** ** [gen_eval_suites] *)

(** [gen_eval_suites] returns, for every project in turn, exactly
    [suites_per_project] suites of that project, each with a name of
    [EVAL_SUITE_NAMES] and the status [active] or [disabled]. *)
Theorem gen_eval_suites_per_project (projects : list Project) (k : Z) w :
  ∃ out w', gen_eval_suites projects k w = Ok (out, w')
    ∧ fan_out suite_of k projects out.
Proof.
  apply wp_returns. eapply wp_mono; [apply gen_eval_suites_shape|].
  by intros out w' _ [_ Hfan].
Qed.

(** ** [gen_eval_runs] *)

(** With a clock within the range of [datetime], [gen_eval_runs] returns,
    for every suite in turn, exactly [runs_per_suite] runs of that suite,
    each with one of the four statuses.  The call reads the clock once for
    every run, and the [n]-th run is created at the [n]-th of these
    readings, cut to the second and moved back by a whole number of
    minutes, at most 5 days and 12 hours: never after the reading it was
    made from. *)
Theorem gen_eval_runs_created (suites : list EvalSuite) (k : Z) w :
  clock_ok (w_clock w) →
  ∃ out w', gen_eval_runs suites k w = Ok (out, w')
    ∧ fan_out (run_of (w_clock w) (w_ticks w)) k suites out
    ∧ w_ticks w' = (w_ticks w + length out)%nat
    ∧ dated_in_turn (w_clock w) (w_ticks w) 0 7920
        (fun r => Some (er_created_at r)) out.
Proof.
  intros Hclock. apply wp_returns.
  eapply wp_mono;
    [apply wp_and; [apply gen_eval_runs_shape|apply gen_eval_runs_dated];
     by right|].
  by intros out w' _ [[_ Hfan] [Hticks Hdated]].
Qed.

(** ** [gen_permissions] *)

(** Every permission that [gen_permissions] returns has between 1 and 3
    scopes, all of them from [SCOPES] and no scope twice. *)
Theorem gen_permissions_scopes (projects : list Project) (users : list User)
    (k : Z) w :
  ∃ out w', gen_permissions projects users k w = Ok (out, w')
    ∧ Forall (fun p => scopes_ok (perm_scopes p)) out.
Proof.
  apply wp_returns. eapply wp_mono; [apply gen_permissions_shape|].
  by intros out w' _ [_ Hok].
Qed.

(** ** [gen_feature_flags] *)

(** [gen_feature_flags] returns [feature_flags_count] flags with pairwise
    distinct keys: the first 9 keys are those of the list in its order, the
    key at a later position [i] is [custom.flag_i+1].  The organisations a
    flag is enabled for are a selection of the organisations given, in their
    order. *)
Theorem gen_feature_flags_keys (orgs : list Org) (n : Z) w :
  ∃ out w', gen_feature_flags orgs n w = Ok (out, w')
    ∧ length out = Z.to_nat n
    ∧ NoDup (ff_key <$> out)
    ∧ ∀ i f, out !! i = Some f → flag_at orgs i f.
Proof.
  apply wp_returns. eapply wp_mono; [apply gen_feature_flags_shape|].
  intros out w' _ (_ & Hlen & Hflags). split_and!; [done| |done].
  apply (series_NoDup FLAG_KEYS "custom.flag_");
    [apply FLAG_KEYS_NoDup|apply flag_prefix_fresh|].
  intros i x Hi. apply list_lookup_fmap_Some in Hi as (f & -> & Hf).
  by destruct (Hflags i f Hf).
Qed.

(** ** [gen_audit_logs] *)

(** With a clock within the range of [datetime], [gen_audit_logs] returns
    [audit_logs_count] logs.  The actor of a log is absent exactly when
    there is no user, and its target exactly when there is no project,
    dashboard, widget or alert; the action is one of the ten actions.  The
    call reads the clock once for every log, and the [n]-th log is dated
    at the [n]-th of these readings, cut to the second and moved back by a
    whole number of minutes, at most 10000: never after the reading it was
    made from. *)
Theorem gen_audit_logs_entries (orgs : list Org) (users : list User)
    (projects : list Project) (dashboards : list Dashboard)
    (widgets : list Widget) (alerts : list Alert) (n : Z) w :
  clock_ok (w_clock w) →
  ∃ out w',
    gen_audit_logs orgs users projects dashboards widgets alerts n w = Ok (out, w')
    ∧ length out = Z.to_nat n
    ∧ Forall (log_of (w_clock w) (w_ticks w) users
                (target_ids projects dashboards widgets alerts)) out
    ∧ w_ticks w' = (w_ticks w + length out)%nat
    ∧ dated_in_turn (w_clock w) (w_ticks w) 0 10000
        (fun l => Some (aud_at l)) out.
Proof.
  intros Hclock. apply wp_returns.
  eapply wp_mono;
    [apply wp_and; [apply gen_audit_logs_shape|apply gen_audit_logs_dated];
     by right|].
  by intros out w' _ [(_ & Hlen & Hok) [Hticks Hdated]].
Qed.

(** The organisation of an audit log is the organisation of its actor when
    it has one; when there is no user it is the first organisation, and
    absent when there is no organisation either. *)
Theorem gen_audit_logs_org_of_actor (orgs : list Org) (users : list User)
    (projects : list Project) (dashboards : list Dashboard)
    (widgets : list Widget) (alerts : list Alert) (n : Z) w :
  clock_ok (w_clock w) →
  ∃ out w',
    gen_audit_logs orgs users projects dashboards widgets alerts n w = Ok (out, w')
    ∧ Forall (fun l =>
        match aud_actor_user_id l with
        | Some uid =>
            ∃ u, u ∈ users ∧ usr_id u = uid ∧ aud_org_id l = Some (usr_org_id u)
        | None => users = [] ∧ aud_org_id l = org_id <$> head orgs
        end) out.
Proof.
  intros Hclock. apply wp_returns.
  eapply wp_mono; [apply gen_audit_logs_spec; by right|].
  intros out w' _ [_ Hok]. eapply Forall_impl; [exact Hok|].
  intros l (Hactor & Hnone & _). destruct (aud_actor_user_id l); auto.
Qed.

(** ** [build_mock_data] *)



End MoreGenerators.

(** ** Grouping records by key *)

(** The dictionary that the generators build with [setdefault(key,
    []).append(x)] maps every key to the records that carry it, in their
    order in the list, and [get(k, [])] of a key that no record carries is
    the empty list. *)
Theorem grouped_records_by_key {A} (key : A → string) (xs : list A) (k : string) :
  get_list (group_by key xs) k = filter (fun x => key x = k) xs
  ∧ (k ∉ (key <$> xs) → get_list (group_by key xs) k = []).
Proof.
  split; [apply get_list_group_by|].
  intros Hk. rewrite get_list_group_by. apply filter_none, Forall_forall.
  intros x Hx Heq. apply Hk. rewrite <- Heq. by apply list_elem_of_fmap_2.
Qed.

(** *** The properties at work *)

(** The slug of [Gekko & Co]. *)
Lemma slugify_only_letters_and_digits_witness :
  string_forall is_ascii "Gekko & Co" = true
  ∧ string_forall is_lower_alnum (slugify "Gekko & Co") = true.
Proof.
  split; [reflexivity|].
  apply (slugify_only_letters_and_digits "Gekko & Co"). reflexivity.
Defined.

(** [acme42] is its own slug, and the slug of [Stark Industries] is not
    changed by [slugify]. *)
Lemma slugify_keeps_slugs_witness :
  string_forall is_lower_alnum "acme42" = true ∧ slugify "acme42" = "acme42"
  ∧ string_forall is_ascii "Stark Industries" = true
  ∧ slugify (slugify "Stark Industries") = slugify "Stark Industries".
Proof.
  split; [reflexivity|]. split.
  { apply (proj1 slugify_keeps_slugs "acme42"). reflexivity. }
  split; [reflexivity|].
  apply (proj2 slugify_keeps_slugs "Stark Industries"). reflexivity.
Defined.

(** Two users of [Acme Inc]. *)
Lemma gen_users_emails_witness :
  Forall (fun o => string_forall is_ascii (org_name o) = true)
    [mkOrg "org_1" "Acme Inc" "free" true]
  ∧ ∃ out w',
      gen_users [mkOrg "org_1" "Acme Inc" "free" true] 2 (fresh_world 42 world0)
      = Ok (out, w')
      ∧ NoDup (usr_email <$> out)
      ∧ ∀ j u, out !! j = Some u →
          ∃ org, org ∈ [mkOrg "org_1" "Acme Inc" "free" true]
            ∧ usr_org_id u = org_id org
            ∧ usr_email u
              = (lower (usr_name u) +:+ pretty (Z.of_nat j + 1))
                +:+ "@" +:+ (slugify (org_name org) +:+ ".com").
Proof.
  assert (Forall (fun o => string_forall is_ascii (org_name o) = true)
            [mkOrg "org_1" "Acme Inc" "free" true]) as Hascii.
  { constructor; [reflexivity|constructor]. }
  split; [exact Hascii|].
  apply (gen_users_emails [mkOrg "org_1" "Acme Inc" "free" true] 2
           (fresh_world 42 world0) Hascii).
Defined.

(** The users of one organisation do not appear under the key of another. *)
Lemma grouped_records_by_key_witness :
  ("org_2" ∉ (usr_org_id <$> [some_user]))
  ∧ get_list (group_by usr_org_id [some_user]) "org_2" = [].
Proof.
  assert ("org_2" ∉ (usr_org_id <$> [some_user])) as Hk.
  { apply (bool_decide_unpack _). vm_compute. exact I. }
  split; [exact Hk|].
  apply (proj2 (grouped_records_by_key usr_org_id [some_user] "org_2") Hk).
Defined.

(** A million samples of one metric in 2026. *)
Lemma gen_metric_samples_overflow_witness :
  dt_date noon_2026 < 1000000
  ∧ gen_metric_samples [one_metric] 1000000 (fresh_world 42 world0)
    = Raise OverflowError.
Proof.
  split; [reflexivity|].
  apply (gen_metric_samples_overflow one_metric [] 1000000 (fresh_world 42 world0)).
  - reflexivity.
  - unfold fresh_world, world0. cbn [w_clock w_ticks]. vm_compute. intros [=].
Defined.

(** Alerts for two projects of which only the first has a metric. *)
Lemma gen_alerts_metric_and_last_fired_witness :
  clock_ok (w_clock (fresh_world 42 world0))
  ∧ ∃ out w',
      gen_alerts two_projects [one_metric] 1 (fresh_world 42 world0) = Ok (out, w')
      ∧ fan_out (alert_of (w_clock (fresh_world 42 world0))
                   (w_ticks (fresh_world 42 world0)) [one_metric])
          1 two_projects out
      ∧ w_ticks w' = (w_ticks (fresh_world 42 world0) + length out)%nat
      ∧ dated_in_turn (w_clock (fresh_world 42 world0))
          (w_ticks (fresh_world 42 world0)) 0 11520 al_last_fired_at out.
Proof.
  assert (clock_ok (w_clock (fresh_world 42 world0))) as Hclock.
  { intros i. unfold fresh_world, world0. cbn [w_clock]. vm_compute.
    split; [intros [=]|reflexivity]. }
  split; [exact Hclock|].
  apply (gen_alerts_metric_and_last_fired two_projects [one_metric] 1
           (fresh_world 42 world0) Hclock).
Defined.

(** Three incidents of one alert. *)
Lemma gen_incidents_times_witness :
  clock_ok (w_clock (fresh_world 42 world0))
  ∧ ∃ out w',
      gen_incidents [one_alert] 3 (fresh_world 42 world0) = Ok (out, w')
      ∧ fan_out (incident_of (w_clock (fresh_world 42 world0))
                   (w_ticks (fresh_world 42 world0)))
          3 [one_alert] out.
Proof.
  assert (clock_ok (w_clock (fresh_world 42 world0))) as Hclock.
  { intros i. unfold fresh_world, world0. cbn [w_clock]. vm_compute.
    split; [intros [=]|reflexivity]. }
  split; [exact Hclock|].
  apply (gen_incidents_times [one_alert] 3 (fresh_world 42 world0) Hclock).
Defined.

(** Two runs of one suite. *)
Lemma gen_eval_runs_created_witness :
  clock_ok (w_clock (fresh_world 42 world0))
  ∧ ∃ out w',
      gen_eval_runs [mkEvalSuite "es_1" "prj_1" "Smoke Suite" "active"] 2
        (fresh_world 42 world0) = Ok (out, w')
      ∧ fan_out (run_of (w_clock (fresh_world 42 world0))
                   (w_ticks (fresh_world 42 world0)))
          2 [mkEvalSuite "es_1" "prj_1" "Smoke Suite" "active"] out
      ∧ w_ticks w' = (w_ticks (fresh_world 42 world0) + length out)%nat
      ∧ dated_in_turn (w_clock (fresh_world 42 world0))
          (w_ticks (fresh_world 42 world0)) 0 7920
          (fun r => Some (er_created_at r)) out.
Proof.
  assert (clock_ok (w_clock (fresh_world 42 world0))) as Hclock.
  { intros i. unfold fresh_world, world0. cbn [w_clock]. vm_compute.
    split; [intros [=]|reflexivity]. }
  split; [exact Hclock|].
  apply (gen_eval_runs_created [mkEvalSuite "es_1" "prj_1" "Smoke Suite" "active"] 2
           (fresh_world 42 world0) Hclock).
Defined.

(** Five logs over one user and two projects. *)
Lemma gen_audit_logs_entries_witness :
  clock_ok (w_clock (fresh_world 42 world0))
  ∧ ∃ out w',
      gen_audit_logs [] [some_user] two_projects [] [] [] 5 (fresh_world 42 world0)
      = Ok (out, w')
      ∧ length out = Z.to_nat 5
      ∧ Forall (log_of (w_clock (fresh_world 42 world0))
                  (w_ticks (fresh_world 42 world0)) [some_user]
                  (target_ids two_projects [] [] [])) out
      ∧ w_ticks w' = (w_ticks (fresh_world 42 world0) + length out)%nat
      ∧ dated_in_turn (w_clock (fresh_world 42 world0))
          (w_ticks (fresh_world 42 world0)) 0 10000
          (fun l => Some (aud_at l)) out.
Proof.
  assert (clock_ok (w_clock (fresh_world 42 world0))) as Hclock.
  { intros i. unfold fresh_world, world0. cbn [w_clock]. vm_compute.
    split; [intros [=]|reflexivity]. }
  split; [exact Hclock|].
  apply (gen_audit_logs_entries [] [some_user] two_projects [] [] [] 5
           (fresh_world 42 world0) Hclock).
Defined.

(** Logs when there is no user and no organisation: no actor, no
    organisation. *)
Lemma gen_audit_logs_org_of_actor_witness :
  clock_ok (w_clock (fresh_world 42 world0))
  ∧ ∃ out w',
      gen_audit_logs [] [] two_projects [] [] [] 2 (fresh_world 42 world0)
      = Ok (out, w')
      ∧ Forall (fun l =>
          match aud_actor_user_id l with
          | Some uid =>
              ∃ u, u ∈ @nil User ∧ usr_id u = uid
                   ∧ aud_org_id l = Some (usr_org_id u)
          | None => @nil User = [] ∧ aud_org_id l = org_id <$> head []
          end) out.
Proof.
  assert (clock_ok (w_clock (fresh_world 42 world0))) as Hclock.
  { intros i. unfold fresh_world, world0. cbn [w_clock]. vm_compute.
    split; [intros [=]|reflexivity]. }
  split; [exact Hclock|].
  apply (gen_audit_logs_org_of_actor [] [] two_projects [] [] [] 2
           (fresh_world 42 world0) Hclock).
Defined.



